(** * isod: download engine, source selection and version resolution

    A shallow embedding of the parts of the isod crate that implement
    checksum verification ([src/download/checksum.rs]), the retry loop of
    the download engine ([src/download/engine.rs]), source selection
    ([src/download/manager.rs], [src/registry/sources.rs]), version
    ordering and the composite version detector
    ([src/registry/version_detection.rs]) and filename generation
    ([src/registry/mod.rs]).

    Rust [String]s are modelled as Rocq [string]s, i.e. as their UTF-8
    bytes: every character the code inspects ('.', '-', '_', digits,
    placeholders) is ASCII, and no byte of a multi-byte UTF-8 sequence is
    ASCII, so byte-wise scanning finds the same characters as the code. *)

From Stdlib Require Import List String Ascii NArith Arith Lia Bool.
From Stdlib Require Import Sorted Permutation.
Import ListNotations.

(* ------------------------------------------------------------------ *)
(** ** Helpers shared by several modules: iterator adaptors and [Vec]
    operations of the Rust standard library. *)

Module Std.

(** [Iterator::filter_map]. *)
Fixpoint filter_map {A B : Type} (f : A -> option B) (l : list A) : list B :=
  match l with
  | [] => []
  | x :: xs =>
      match f x with
      | Some y => y :: filter_map f xs
      | None => filter_map f xs
      end
  end.

(** [slice::sort_by]: a stable sort.  For a comparator that is a total
    preorder (the only ones used below) every stable sort returns the same
    list, so the merge sort of the standard library is modelled by a
    stable insertion sort: an element is inserted after every element it is
    not strictly smaller than. *)
Fixpoint insert_by {A : Type} (cmp : A -> A -> comparison) (x : A) (l : list A)
  : list A :=
  match l with
  | [] => [x]
  | y :: ys =>
      match cmp x y with
      | Lt => x :: y :: ys
      | _ => y :: insert_by cmp x ys
      end
  end.

Definition sort_by {A : Type} (cmp : A -> A -> comparison) (l : list A) : list A :=
  fold_left (fun acc x => insert_by cmp x acc) l [].

(** [Vec::dedup_by]: an element is removed when [same_bucket] holds
    between it and the last element kept before it. *)
Fixpoint dedup_by_from {A : Type} (same_bucket : A -> A -> bool) (last : A)
  (l : list A) : list A :=
  match l with
  | [] => []
  | x :: xs =>
      if same_bucket x last then dedup_by_from same_bucket last xs
      else x :: dedup_by_from same_bucket x xs
  end.

Definition dedup_by {A : Type} (same_bucket : A -> A -> bool) (l : list A)
  : list A :=
  match l with
  | [] => []
  | x :: xs => x :: dedup_by_from same_bucket x xs
  end.

(** [anyhow::Result]: the error is its message. *)
Inductive result (A : Type) : Type :=
| Ok : A -> result A
| Err : string -> result A.
Arguments Ok {A} _.
Arguments Err {A} _.

End Std.

Import Std.

(* ------------------------------------------------------------------ *)
(** ** Version information and its ordering
    ([src/registry/version_detection.rs]). *)

Module Versions.

Inductive ReleaseType :=
| Stable | LTS | Beta | Alpha | RC | Daily | Weekly | Snapshot.

Record VersionInfo := mkVersionInfo {
  version : string;
  release_type : ReleaseType;
  release_date : option string;
  end_of_life : option string;
  download_url_base : option string;
  changelog_url : option string;
  notes : option string
}.

(** [VersionInfo::new]. *)
Definition new (v : string) (rt : ReleaseType) : VersionInfo :=
  mkVersionInfo v rt None None None None None.

(** [str::split] with the predicate [c == '.' || c == '-' || c == '_']:
    every token, empty ones included. *)
Definition is_sep (c : ascii) : bool :=
  Ascii.eqb c "." || Ascii.eqb c "-" || Ascii.eqb c "_".

Fixpoint split_sep (s : string) : list string :=
  match s with
  | EmptyString => [EmptyString]
  | String c s' =>
      if is_sep c then EmptyString :: split_sep s'
      else match split_sep s' with
           | [] => [String c EmptyString]
           | t :: ts => String c t :: ts
           end
  end.

(** [char::is_ascii_digit]. *)
Definition is_ascii_digit (c : ascii) : bool :=
  (48 <=? nat_of_ascii c) && (nat_of_ascii c <=? 57).

(** [part.chars().take_while(|c| c.is_ascii_digit()).collect()]. *)
Fixpoint take_while_digit (s : string) : string :=
  match s with
  | EmptyString => EmptyString
  | String c s' => if is_ascii_digit c then String c (take_while_digit s') else EmptyString
  end.

Fixpoint all_digits (s : string) : bool :=
  match s with
  | EmptyString => true
  | String c s' => is_ascii_digit c && all_digits s'
  end.

Definition digit_value (c : ascii) : N := N.of_nat (nat_of_ascii c - 48).

(** The decimal value of a digit string, as an unbounded number. *)
Fixpoint digits_value_acc (acc : N) (s : string) : N :=
  match s with
  | EmptyString => acc
  | String c s' => digits_value_acc (acc * 10 + digit_value c) s'
  end.

Definition digits_value (s : string) : N := digits_value_acc 0 s.

Definition u32_max : N := 4294967295.

(** [<u32 as FromStr>::from_str]: an optional '+', then at least one
    decimal digit; [Err] on any other character and on overflow. *)
Definition parse_digits_u32 (s : string) : option N :=
  match s with
  | EmptyString => None
  | _ =>
      if all_digits s then
        let v := digits_value s in if (v <=? u32_max)%N then Some v else None
      else None
  end.

Definition parse_u32 (s : string) : option N :=
  match s with
  | String "+"%char rest => parse_digits_u32 rest
  | _ => parse_digits_u32 s
  end.

(** [VersionInfo::parse_version]. *)
Definition parse_version_str (v : string) : list N :=
  filter_map
    (fun part =>
       let numeric_part := take_while_digit part in
       if String.eqb numeric_part EmptyString then None
       else parse_u32 numeric_part)
    (split_sep v).

Definition parse_version (vi : VersionInfo) : list N :=
  parse_version_str (version vi).

(** The [type_priority] closure of [Ord::cmp]. *)
Definition type_priority (rt : ReleaseType) : nat :=
  match rt with
  | Stable => 100
  | LTS => 110
  | RC => 80
  | Beta => 60
  | Alpha => 40
  | Daily => 20
  | Weekly => 25
  | Snapshot => 10
  end.

(** The loop over [self_parts.iter().zip(other_parts.iter())]: the first
    component comparison that is not [Equal], if any. *)
Fixpoint zip_first_diff (xs ys : list N) : option comparison :=
  match xs, ys with
  | x :: xs', y :: ys' =>
      match N.compare x y with
      | Eq => zip_first_diff xs' ys'
      | o => Some o
      end
  | _, _ => None
  end.

Definition cmp_parts (xs ys : list N) : comparison :=
  match zip_first_diff xs ys with
  | Some o => o
  | None => Nat.compare (List.length xs) (List.length ys)
  end.

(** [<VersionInfo as Ord>::cmp]. *)
Definition cmp (a b : VersionInfo) : comparison :=
  let type_cmp := Nat.compare (type_priority (release_type a))
                              (type_priority (release_type b)) in
  match type_cmp with
  | Eq => cmp_parts (parse_version a) (parse_version b)
  | _ => type_cmp
  end.

(** The component list as the specification describes it: every token's
    leading digit run, read as an unbounded natural number; tokens without
    digits are skipped. *)
Definition components_spec (v : string) : list N :=
  filter_map
    (fun part =>
       let numeric_part := take_while_digit part in
       if String.eqb numeric_part EmptyString then None
       else Some (digits_value numeric_part))
    (split_sep v).

(** Lexicographic comparison as the specification describes it: component
    by component, and on a common prefix the longer list is greater. *)
Fixpoint lex_spec (xs ys : list N) : comparison :=
  match xs, ys with
  | [], [] => Eq
  | [], _ :: _ => Lt
  | _ :: _, [] => Gt
  | x :: xs', y :: ys' =>
      match N.compare x y with
      | Eq => lex_spec xs' ys'
      | o => o
      end
  end.

End Versions.

(* ------------------------------------------------------------------ *)
(** ** The composite version detector
    ([CompositeVersionDetector::detect_versions]). *)

Module Composite.
Import Versions.

(** A child detector is represented by what its [detect_versions] call
    returns. *)
Definition DetectorResult := result (list VersionInfo).

(** The [for detector in &self.detectors] loop: the versions of every
    child that succeeded, appended in order; a failing child is logged and
    skipped. *)
Definition collect_versions (children : list DetectorResult) : list VersionInfo :=
  fold_left
    (fun all_versions r =>
       match r with
       | Ok versions => all_versions ++ versions
       | Err _ => all_versions
       end)
    children [].

(** [CompositeVersionDetector::detect_versions]. *)
Definition detect_versions (children : list DetectorResult) : result (list VersionInfo) :=
  let all_versions := collect_versions children in
  let sorted := sort_by (fun a b => cmp b a) all_versions in
  Ok (dedup_by (fun a b => String.eqb (version a) (version b)) sorted).

Definition is_ok (r : DetectorResult) : bool :=
  match r with Ok _ => true | Err _ => false end.

End Composite.

(* ------------------------------------------------------------------ *)
(** ** Download sources and source selection
    ([src/registry/sources.rs], [DownloadManager::select_best_source]). *)

Module Sources.
Local Open Scope N_scope.

Inductive SourceType := Direct | Mirror | Torrent | Magnet.

Inductive SourcePriority := Low | Medium | High | Preferred.

(** The discriminants of [SourcePriority]. *)
Definition priority_value (p : SourcePriority) : N :=
  match p with Low => 1 | Medium => 2 | High => 3 | Preferred => 4 end.

Record DownloadSource := mkDownloadSource {
  source_type : SourceType;
  priority : SourcePriority;
  url : option string;
  magnet_link : option string;
  trackers : list string;
  region : option string;
  description : option string;
  verified : bool;
  speed_rating : option N  (* a [u8] *)
}.

(** [DownloadSource::direct], [DownloadSource::torrent]. *)
Definition direct (u : string) (p : SourcePriority) : DownloadSource :=
  mkDownloadSource Direct p (Some u) None [] None None false None.
Definition torrent (u : string) (p : SourcePriority) : DownloadSource :=
  mkDownloadSource Torrent p (Some u) None [] None None false None.

(** [DownloadSource::is_usable]. *)
Definition is_usable (s : DownloadSource) : bool :=
  match source_type s with
  | Direct | Mirror | Torrent => match url s with Some _ => true | None => false end
  | Magnet => match magnet_link s with Some _ => true | None => false end
  end.

(** [DownloadSource::get_selection_score].  The [u32] arithmetic cannot
    wrap: the largest score is 4 * 1000 + 255 * 100 + 500 + 200. *)
Definition get_selection_score (s : DownloadSource) : N :=
  let score := priority_value (priority s) * 1000 in
  let score := match speed_rating s with
               | Some speed => score + speed * 100
               | None => score
               end in
  let score := if verified s then score + 500 else score in
  match source_type s with
  | Direct => score + 200
  | Torrent => score + 150
  | Magnet => score + 100
  | Mirror => score + 50
  end.

Record DownloadOptions := mkDownloadOptions {
  max_concurrent : nat;
  prefer_torrents : bool;
  output_directory : string;
  verify_checksums : bool;
  resume_downloads : bool
}.

Definition is_torrent_type (t : SourceType) : bool :=
  match t with Torrent | Magnet => true | _ => false end.

Definition is_http_type (t : SourceType) : bool :=
  match t with Direct | Mirror => true | _ => false end.

(** The score each [sort_by] closure computes for one source. *)
Definition sort_key (options : DownloadOptions) (s : DownloadSource) : N :=
  (if prefer_torrents options
   then (if is_torrent_type (source_type s) then 1000 else 0)
   else (if is_http_type (source_type s) then 1000 else 0))
  + get_selection_score s.

(** [DownloadManager::select_best_source]. *)
Definition select_best_source (sources : list DownloadSource)
  (options : DownloadOptions) : result DownloadSource :=
  match sources with
  | [] => Err "No download sources available"
  | _ =>
      let sorted_sources :=
        sort_by (fun a b => N.compare (sort_key options b) (sort_key options a)) sources in
      match find (fun s => is_usable s && is_http_type (source_type s)) sorted_sources with
      | Some s => Ok s
      | None => Err "No usable HTTP sources found"
      end
  end.

End Sources.

(* ------------------------------------------------------------------ *)
(** ** Streaming checksums ([src/download/checksum.rs]) *)

Module Checksum.

Inductive ChecksumType := Md5 | Sha1 | Sha256 | Sha512.

(** One call of [reader.read(&mut buffer)] on the buffered file: either
    some bytes (at most the 8192 of the buffer; none at end of file) or an
    I/O error.  A file is the sequence of results its reads return; once
    the sequence is exhausted every read returns 0 bytes. *)
Inductive ReadOutcome :=
| ReadBytes (chunk : list Byte.byte)
| ReadError (msg : string).

(** [str::to_lowercase] on ASCII letters; other characters are unchanged
    (hex digests are ASCII). *)
Definition ascii_to_lower (c : ascii) : ascii :=
  let n := nat_of_ascii c in
  if (65 <=? n) && (n <=? 90) then ascii_of_nat (n + 32) else c.

Fixpoint to_lowercase (s : string) : string :=
  match s with
  | EmptyString => EmptyString
  | String c s' => String (ascii_to_lower c) (to_lowercase s')
  end.

(** [format!("{:?}", path)] for a [Path]: the path between double quotes,
    each character passed through [char::escape_debug]: [\0], [\t],
    [\r], [\n], the backslash and both quotes get a backslash, other
    control characters become [\u{..}] in lower-case hex.  Bytes from 128
    on are copied unchanged, which is what is printed for the printable
    non-ASCII characters of a UTF-8 path. *)
Definition hex_digit (n : nat) : ascii :=
  if n <? 10 then ascii_of_nat (48 + n) else ascii_of_nat (87 + n).

Definition escape_debug (c : ascii) : string :=
  let bs := ascii_of_nat 92 in
  let n := nat_of_ascii c in
  if n =? 0 then "\0"
  else if n =? 9 then "\t"
  else if n =? 10 then "\n"
  else if n =? 13 then "\r"
  else if n =? 34 then String bs (String (ascii_of_nat 34) EmptyString)
  else if n =? 39 then "\'"
  else if n =? 92 then String bs (String bs EmptyString)
  else if (n <? 32) || (n =? 127) then
    "\u{" ++ (if n <? 16 then String (hex_digit n) EmptyString
              else String (hex_digit (n / 16)) (String (hex_digit (n mod 16)) EmptyString))
    ++ "}"
  else String c EmptyString.

Fixpoint escape_debug_all (s : string) : string :=
  match s with
  | EmptyString => EmptyString
  | String c s' => escape_debug c ++ escape_debug_all s'
  end.

Definition path_debug (p : string) : string :=
  String (ascii_of_nat 34) (escape_debug_all p ++ String (ascii_of_nat 34) EmptyString).

Section Verifier.

(** The running state of the selected hash algorithm: [Sha256::new()] and
    the like, [update]/[consume], and [format!("{:x}", ..finalize())]. *)
Variable HashState : Type.
Variable hash_new : ChecksumType -> HashState.
Variable hash_update : HashState -> list Byte.byte -> HashState.
Variable hash_finalize_hex : HashState -> string.

(** [File::open]: the reads of the file at a path, or the I/O error. *)
Variable open_file : string -> result (list ReadOutcome).

(** The [loop] of each branch: read, stop on 0 bytes, propagate an error
    with [?], otherwise update the hasher. *)
Fixpoint hash_loop (hasher : HashState) (reads : list ReadOutcome) : result HashState :=
  match reads with
  | [] => Ok hasher
  | ReadError e :: _ => Err e
  | ReadBytes [] :: _ => Ok hasher
  | ReadBytes chunk :: rest => hash_loop (hash_update hasher chunk) rest
  end.

(** [ChecksumVerifier::calculate_checksum]. *)
Definition calculate_checksum (file_path : string) (checksum_type : ChecksumType)
  : result string :=
  match open_file file_path with
  | Err _ => Err ("Failed to open file: " ++ path_debug file_path)
  | Ok reads =>
      match hash_loop (hash_new checksum_type) reads with
      | Ok hasher => Ok (hash_finalize_hex hasher)
      | Err e => Err e
      end
  end.

(** [ChecksumVerifier::verify_file]. *)
Definition verify_file (file_path expected_checksum : string)
  (checksum_type : ChecksumType) : result bool :=
  match calculate_checksum file_path checksum_type with
  | Err e => Err e
  | Ok actual_checksum =>
      Ok (String.eqb (to_lowercase actual_checksum) (to_lowercase expected_checksum))
  end.

End Verifier.

End Checksum.

(* ------------------------------------------------------------------ *)
(** ** The download engine ([src/download/engine.rs]) *)

Module Engine.
Import Checksum.

(** [DownloadRequest]; paths are strings. *)
Record DownloadRequest := mkDownloadRequest {
  url : string;
  output_path : string;
  expected_checksum : option string;
  checksum_type : option ChecksumType;
  user_agent : option string;
  resume : bool
}.

(** [DownloadProgress]; a [Duration] is a number of seconds. *)
Inductive DownloadProgress :=
| Started (id : string) (url : string) (output_path : string)
| Progress (id : string) (bytes_downloaded total_bytes progress_percent speed_bps : N)
| VerifyingChecksum (id : string)
| ChecksumVerified (id : string)
| ChecksumFailed (id : string) (expected : string)
| Completed (id : string) (bytes_downloaded : N) (checksum_verified : bool)
| Failed (id : string) (error : string) (attempts : nat)
| Retry (id : string) (attempt max_attempts : nat) (delay : N)
| Cancelled (id : string)
| Error (id : string) (error : string).

(** [DownloadResult], without its [duration] (wall-clock time). *)
Record DownloadResult := mkDownloadResult {
  success : bool;
  bytes_downloaded : N;
  error : option string;
  checksum_verified : bool
}.

(** [DownloadTask]; what is sent on [progress_sender] is returned as the
    list of events, in order. *)
Record DownloadTask := mkDownloadTask {
  task_id : string;
  request : DownloadRequest
}.

(** [DownloadEngine], without its HTTP client. *)
Record DownloadEngine := mkDownloadEngine {
  max_retries : nat;
  retry_delay : N
}.

(** [DownloadEngine::new]. *)
Definition engine_new : DownloadEngine := mkDownloadEngine 3 2.

(** A [Progress] report of [download_attempt]: bytes so far, total,
    percent, speed.  [download_attempt] sends no other event. *)
Record ProgressReport := mkProgressReport {
  rep_bytes : N; rep_total : N; rep_percent : N; rep_speed : N
}.

Definition report_event (id : string) (r : ProgressReport) : DownloadProgress :=
  Progress id (rep_bytes r) (rep_total r) (rep_percent r) (rep_speed r).

(** How the retry loop is left: by the [return] of the [Ok] branch after
    a transfer of some bytes, or by the [return] of the [Err] branch once
    the retries are exhausted. *)
Inductive LoopExit :=
| Transferred (bytes : N)
| GaveUp (error : string) (attempt : nat).

Section Download.

(** The state of the file system, as the attempts and the checksum
    verification see it. *)
Variable FS : Type.

(** [self.download_attempt(&task)] for a given attempt number (the network
    may behave differently on every attempt): the progress it reports,
    its outcome, and the file system it leaves behind. *)
Variable download_attempt :
  nat -> FS -> list ProgressReport * result N * FS.

(** The hash algorithms and the files, for [ChecksumVerifier::verify_file]. *)
Variable HashState : Type.
Variable hash_new : ChecksumType -> HashState.
Variable hash_update : HashState -> list Byte.byte -> HashState.
Variable hash_finalize_hex : HashState -> string.
Variable open_file : FS -> string -> result (list ReadOutcome).

Variable engine : DownloadEngine.
Variable task : DownloadTask.

Let id := task_id task.
Let req := request task.

(** The [loop] of [DownloadEngine::download] up to its [return]s.
    [fuel] bounds the number of further attempts; it starts at
    [max_retries], which is never reached since the loop gives up after
    [max_retries] attempts. *)
Fixpoint retry_loop (fuel attempt : nat) (fs : FS)
  : list DownloadProgress * LoopExit * FS :=
  let attempt := attempt + 1 in
  let '(reports, outcome, fs') := download_attempt attempt fs in
  let evs := map (report_event id) reports in
  match outcome with
  | Ok result => (evs, Transferred result, fs')
  | Err e =>
      if max_retries engine <=? attempt then (evs, GaveUp e attempt, fs')
      else
        match fuel with
        | O => (evs, GaveUp e attempt, fs')
        | S fuel' =>
            let '(evs', exit, fs'') := retry_loop fuel' attempt fs' in
            (evs ++ Retry id attempt (max_retries engine) (retry_delay engine) :: evs',
             exit, fs'')
        end
  end.

(** The [Ok(result)] branch: checksum verification, [Completed], and the
    successful [DownloadResult]. *)
Definition on_transferred (result : N) (fs : FS)
  : list DownloadProgress * DownloadResult :=
  let '(evs, checksum_verified) :=
    match expected_checksum req, checksum_type req with
    | Some expected, Some ct =>
        match verify_file HashState hash_new hash_update hash_finalize_hex
                (open_file fs) (output_path req) expected ct with
        | Ok verified =>
            if verified
            then ([VerifyingChecksum id; ChecksumVerified id], verified)
            else ([VerifyingChecksum id; ChecksumFailed id expected], verified)
        | Err e =>
            ([VerifyingChecksum id;
              Error id ("Checksum verification failed: " ++ e)], false)
        end
    | _, _ => ([], true)
    end in
  (evs ++ [Completed id result checksum_verified],
   mkDownloadResult true result None checksum_verified).

(** [DownloadEngine::download]. *)
Definition download (fs0 : FS) : list DownloadProgress * DownloadResult * FS :=
  let started := Started id (url req) (output_path req) in
  let '(evs, exit, fs) := retry_loop (max_retries engine) 0 fs0 in
  match exit with
  | Transferred result =>
      let '(evs', res) := on_transferred result fs in
      (started :: evs ++ evs', res, fs)
  | GaveUp e attempt =>
      (started :: evs ++ [Failed id e attempt],
       mkDownloadResult false 0 (Some e) false, fs)
  end.

End Download.

End Engine.

(* ------------------------------------------------------------------ *)
(** ** One download attempt ([DownloadEngine::download_attempt]) *)

Module Attempt.
Import Engine.

(** The parts of a [reqwest::Response] the attempt reads; the body is the
    sequence of chunks of [bytes_stream()], each a chunk or an error.
    hyper delivers no body for a [204 No Content] or [304 Not Modified]
    response (whatever its headers say): a response with one of those
    statuses has [body = []] ([receivable] below). *)
Record Response := mkResponse {
  status : N;
  content_range : option string;
  content_length : option N;
  body : list (result (list Byte.byte))
}.

(** [StatusCode::is_success]: 200 ..= 299. *)
Definition is_success (s : N) : bool := (200 <=? s)%N && (s <=? 299)%N.

(** The responses hyper can hand over: no body for 204 and 304. *)
Definition receivable (r : Response) : bool :=
  if (status r =? 204)%N || (status r =? 304)%N then
    match body r with [] => true | _ => false end
  else true.

Section Attempt.

(** The outside world of one attempt: the file system and the network. *)
Variable path_exists : string -> bool.
Variable metadata_len : string -> result N.
(** [req_builder.send()] for a URL, a [User-Agent] header and an optional
    [Range: bytes=N-] header. *)
Variable send : string -> option string -> option N -> result Response.
(** [impl Display for StatusCode]: the code and its canonical reason
    phrase (for instance "404 Not Found"); the phrases are the http
    crate's table, left abstract here. *)
Variable status_display : N -> string.
(** [OpenOptions::new().write(true).append(true).open], then
    [seek(SeekFrom::End(0))] on the opened file. *)
Variable open_append : string -> result unit.
Variable seek_end : result unit.
(** [create_dir_all] of the parent directory (nothing when there is none). *)
Variable create_parent_dirs : string -> result unit.
Variable create_file : string -> result unit.
Variable write_all : list Byte.byte -> result unit.
Variable flush : result unit.

(** [(resume_from, existing_size)]. *)
Definition resume_point (req : DownloadRequest) : result (N * N) :=
  if resume req && path_exists (output_path req) then
    match metadata_len (output_path req) with
    | Ok len => Ok (len, len)
    | Err _ => Err "Failed to get existing file metadata"
    end
  else Ok (0%N, 0%N).

(** The [while let Some(chunk_result) = stream.next()] loop; the periodic
    [Progress] reports, timed by the wall clock, are not modelled, nor is
    [total_size], which only they use. *)
Fixpoint stream_chunks (downloaded : N) (chunks : list (result (list Byte.byte)))
  : result N :=
  match chunks with
  | [] => Ok downloaded
  | Err _ :: _ => Err "Failed to read chunk from response"
  | Ok chunk :: rest =>
      match write_all chunk with
      | Err _ => Err "Failed to write chunk to file"
      | Ok _ => stream_chunks (downloaded + N.of_nat (List.length chunk)) rest
      end
  end.

(** Everything after the status check: open the file, stream, flush. *)
Definition receive_body (req : DownloadRequest) (resume_from existing_size : N)
  (response : Response) : result N :=
  let opened :=
    if (0 <? resume_from)%N then
      match open_append (output_path req) with
      | Err _ => Err "Failed to open file for resume"
      | Ok _ =>
          match seek_end with
          | Ok _ => Ok tt
          | Err _ => Err "Failed to seek to end of file"
          end
      end
    else
      match create_parent_dirs (output_path req) with
      | Err _ => Err "Failed to create parent directories"
      | Ok _ =>
          match create_file (output_path req) with
          | Ok _ => Ok tt
          | Err _ => Err "Failed to create output file"
          end
      end in
  match opened with
  | Err e => Err e
  | Ok _ =>
      match stream_chunks existing_size (body response) with
      | Err e => Err e
      | Ok downloaded =>
          match flush with
          | Ok _ => Ok downloaded
          | Err _ => Err "Failed to flush file"
          end
      end
  end.

(** [DownloadEngine::download_attempt]. *)
Definition download_attempt (req : DownloadRequest) : result N :=
  match resume_point req with
  | Err e => Err e
  | Ok (resume_from, existing_size) =>
      let range := if (0 <? resume_from)%N then Some resume_from else None in
      match send (url req) (user_agent req) range with
      | Err _ => Err "Failed to send HTTP request"
      | Ok response =>
          if negb (is_success (status response)) && negb (status response =? 206)%N
          then Err ("HTTP request failed with status: " ++ status_display (status response))
          else receive_body req resume_from existing_size response
      end
  end.

End Attempt.

End Attempt.

(* ------------------------------------------------------------------ *)
(** ** Filename generation ([IsoRegistry::generate_filename]) *)

Module Registry.

(** [str::replace] with a non-empty pattern: scan left to right, replace
    each match and continue after it; [skip] counts the characters of the
    current match still to be passed over. *)
Fixpoint replace_go (from to : string) (skip : nat) (s : string) : string :=
  match s with
  | EmptyString => EmptyString
  | String c s' =>
      match skip with
      | S k => replace_go from to k s'
      | O =>
          if String.prefix from s
          then (to ++ replace_go from to (String.length from - 1) s')%string
          else String c (replace_go from to 0 s')
      end
  end.

(** [str::replace] with an empty pattern inserts [to] at every character
    boundary. *)
Fixpoint interleave (to s : string) : string :=
  match s with
  | EmptyString => to
  | String c s' => (to ++ String c (interleave to s'))%string
  end.

(** [str::replace]. *)
Definition replace (s from to : string) : string :=
  match from with
  | EmptyString => interleave to s
  | _ => replace_go from to 0 s
  end.

(** [DistroDefinition], without its [version_detector] (a trait object)
    and its download sources, which [generate_filename] does not use. *)
Record DistroDefinition := mkDistroDefinition {
  name : string;
  display_name : string;
  description : string;
  homepage : string;
  supported_architectures : list string;
  supported_variants : list string;
  filename_pattern : string;
  default_variant : option string;
  checksum_urls : list string
}.

(** [IsoRegistry::generate_filename]. *)
Definition generate_filename (definition : DistroDefinition) (version architecture : string)
  (variant : option string) : result string :=
  let filename := filename_pattern definition in
  let filename := replace filename "{distro}" (name definition) in
  let filename := replace filename "{version}" version in
  let filename := replace filename "{arch}" architecture in
  let filename :=
    match variant with
    | Some variant => replace filename "{variant}" variant
    | None =>
        let filename := replace filename "-{variant}" "" in
        let filename := replace filename "_{variant}" "" in
        let filename := replace filename "{variant}-" "" in
        let filename := replace filename "{variant}_" "" in
        replace filename "{variant}" ""
    end in
  Ok filename.

(** A distribution definition with a given name and filename pattern. *)
Definition distro (n pattern : string) : DistroDefinition :=
  mkDistroDefinition n n "" "" [] [] pattern None [].

End Registry.

(* ------------------------------------------------------------------ *)
(** ** More of the standard library: [Iterator::max_by], [HashMap] and
    [str] operations used by the registry and the detectors. *)

Module StdExt.

(** [Iterator::max_by]: [reduce] with [cmp::max_by], which returns its
    second argument unless the first one is [Greater]; so the last of the
    maximal elements is returned. *)
Definition max_by {A : Type} (compare : A -> A -> comparison) (l : list A) : option A :=
  match l with
  | [] => None
  | x :: xs =>
      Some (fold_left (fun v1 v2 => match compare v1 v2 with Gt => v1 | _ => v2 end) xs x)
  end.

(** A [HashMap<String, V>] as an association list with distinct keys; its
    iteration order is the order of the list. *)
Definition map_get {V : Type} (k : string) (m : list (string * V)) : option V :=
  match find (fun kv => String.eqb (fst kv) k) m with
  | Some (_, v) => Some v
  | None => None
  end.

Definition contains_key {V : Type} (k : string) (m : list (string * V)) : bool :=
  match map_get k m with Some _ => true | None => false end.

(** [HashMap::remove]: the old value, and the map without the key. *)
Definition map_remove {V : Type} (k : string) (m : list (string * V))
  : option V * list (string * V) :=
  (map_get k m, filter (fun kv => negb (String.eqb (fst kv) k)) m).

(** [HashMap::insert]: the binding of the key is replaced. *)
Definition map_insert {V : Type} (k : string) (v : V) (m : list (string * V))
  : list (string * V) :=
  snd (map_remove k m) ++ [(k, v)].

Definition keys {V : Type} (m : list (string * V)) : list string := map fst m.

(** [str::contains] with a string pattern. *)
Fixpoint contains (s pat : string) : bool :=
  match s with
  | EmptyString => String.prefix pat s
  | String _ s' => String.prefix pat s || contains s' pat
  end.

(** [&s[n..]], for an [n] at most the length of [s]. *)
Fixpoint drop (n : nat) (s : string) : string :=
  match n, s with
  | O, _ => s
  | S n', String _ s' => drop n' s'
  | S _, EmptyString => EmptyString
  end.

(** [str::strip_prefix]. *)
Definition strip_prefix (p s : string) : option string :=
  if String.prefix p s then Some (drop (String.length p) s) else None.

(** [s.split(c).next()], which is never [None]: the text before the first
    [c], or all of [s]. *)
Fixpoint before_char (c : ascii) (s : string) : string :=
  match s with
  | EmptyString => EmptyString
  | String c' s' => if Ascii.eqb c' c then EmptyString else String c' (before_char c s')
  end.

End StdExt.

(* ------------------------------------------------------------------ *)
(** ** The other version detectors ([src/registry/version_detection.rs]) *)

Module Detectors.
Import Versions StdExt.

(** [VersionInfo::with_release_date]. *)
Definition with_release_date (vi : VersionInfo) (date : string) : VersionInfo :=
  mkVersionInfo (version vi) (release_type vi) (Some date) (end_of_life vi)
    (download_url_base vi) (changelog_url vi) (notes vi).

(** [v.release_type == ReleaseType::Stable || v.release_type == ReleaseType::LTS],
    also written [matches!(v.release_type, ReleaseType::Stable | ReleaseType::LTS)]. *)
Definition is_stable_or_lts (v : VersionInfo) : bool :=
  match release_type v with Stable | LTS => true | _ => false end.

(** [VersionDetector::get_latest_stable], the trait's default method, for a
    detector whose [detect_versions] returns [detected]; [Iterator::max] is
    [max_by(Ord::cmp)]. *)
Definition get_latest_stable (detected : result (list VersionInfo)) : result VersionInfo :=
  match detected with
  | Err e => Err e
  | Ok versions =>
      match max_by cmp (filter is_stable_or_lts versions) with
      | Some v => Ok v
      | None => Err "No stable versions found"
      end
  end.

(** The loop over [regex.captures_iter(&content)] of the feed and
    web-scraping detectors.  A match is represented by its group 1
    ([captures.get(1)]), [None] when the group did not take part;
    [seen_versions] is the [HashSet] of the strings pushed so far. *)
Fixpoint collect_captures (release_type : ReleaseType) (seen_versions : list string)
  (captures : list (option string)) : list VersionInfo :=
  match captures with
  | [] => []
  | None :: rest => collect_captures release_type seen_versions rest
  | Some v :: rest =>
      if existsb (String.eqb v) seen_versions
      then collect_captures release_type seen_versions rest
      else new v release_type :: collect_captures release_type (v :: seen_versions) rest
  end.

(** [FeedVersionDetector::detect_versions] once the feed has been fetched
    and the regex has run: collect, sort newest first, keep 20. *)
Definition feed_versions (release_type : ReleaseType) (captures : list (option string))
  : list VersionInfo :=
  firstn 20 (sort_by (fun a b => cmp b a) (collect_captures release_type [] captures)).

(** [WebScrapingDetector::detect_versions] once the page has been fetched
    and the regex has run: collect as [Stable] and sort newest first. *)
Definition web_versions (captures : list (option string)) : list VersionInfo :=
  sort_by (fun a b => cmp b a) (collect_captures Stable [] captures).

(** [GitHubRelease], as deserialized from the releases API. *)
Record GitHubRelease := mkGitHubRelease {
  tag_name : string;
  release_name : option string;  (* [name] *)
  published_at : option string;
  prerelease : bool;
  draft : bool
}.

(** The body of [for release in releases] of
    [GitHubVersionDetector::detect_versions]: [None] for a [continue]. *)
Definition github_release_info (include_prereleases : bool)
  (version_prefix : option string) (release : GitHubRelease) : option VersionInfo :=
  if draft release then None
  else if prerelease release && negb include_prereleases then None
  else
    let version := tag_name release in
    let version :=
      match version_prefix with
      | Some prefix =>
          if String.prefix prefix version then drop (String.length prefix) version
          else version
      | None => version
      end in
    let version := if String.prefix "v" version then drop 1 version else version in
    let release_type :=
      if prerelease release then
        if contains version "rc" then RC
        else if contains version "beta" then Beta
        else if contains version "alpha" then Alpha
        else Beta
      else Stable in
    let version_info := new version release_type in
    let version_info :=
      match published_at release with
      | Some published_at => with_release_date version_info (before_char "T" published_at)
      | None => version_info
      end in
    Some version_info.

(** [GitHubVersionDetector::detect_versions] once the releases have been
    fetched and parsed. *)
Definition github_versions (include_prereleases : bool) (version_prefix : option string)
  (releases : list GitHubRelease) : list VersionInfo :=
  filter_map (github_release_info include_prereleases version_prefix) releases.

(** [serde_json::Value]; [Value::String] is [Str].  An object is the list
    of its members; a parsed object has distinct keys. *)
#[warnings="-register-all"]
Inductive Value :=
| Null
| Bool (b : bool)
| Number (repr : string)
| Str (s : string)
| Array (items : list Value)
| Object (members : list (string * Value)).

(** [Value::get] with a string index: a member of an object, [None] for
    any other value. *)
Definition value_get (json : Value) (key : string) : option Value :=
  match json with
  | Object members => map_get key members
  | _ => None
  end.

(** [Value::as_str]. *)
Definition as_str (json : Value) : option string :=
  match json with Str s => Some s | _ => None end.

(** [ApiVersionDetector::extract_json_value]. *)
Definition extract_json_value (json : Value) (path : string) : option string :=
  match strip_prefix "$." path with
  | Some field_name =>
      match value_get json field_name with
      | Some v => as_str v
      | None => None
      end
  | None => None
  end.

(** [ApiVersionDetector::detect_versions] once the JSON response has been
    fetched and parsed. *)
Definition api_versions (version_json_path : string) (json : Value) : list VersionInfo :=
  match json with
  | Array items =>
      filter_map
        (fun item =>
           match extract_json_value item version_json_path with
           | Some version_str => Some (new version_str Stable)
           | None => None
           end)
        items
  | _ => []
  end.

End Detectors.

(* ------------------------------------------------------------------ *)
(** ** The ISO registry ([src/registry/mod.rs]) *)

Module Iso.

(** [IsoInfo]. *)
Record IsoInfo := mkIsoInfo {
  distro : string;
  version : string;
  architecture : string;
  variant : option string;
  filename : string;
  download_sources : list Sources.DownloadSource;
  checksum : option string;
  checksum_type : option string;
  release_date : option string;
  size_bytes : option N;
  release_type : Versions.ReleaseType
}.

End Iso.

Module RegistryOps.
Import Versions Registry StdExt.

(** A registered distribution: the fields of [DistroDefinition] modelled by
    [Registry.DistroDefinition], its version detector (represented by what
    its [detect_versions] returns) and its download sources. *)
Record DistroEntry := mkDistroEntry {
  definition : DistroDefinition;
  version_detector : result (list VersionInfo);
  download_sources : list Sources.DownloadSource
}.

(** [IsoRegistry], without its HTTP client. *)
Record IsoRegistry := mkIsoRegistry {
  distros : list (string * DistroEntry);
  custom_distros : list (string * DistroEntry)
}.

(** [IsoRegistry::get_all_distros]; [slice::sort] on [&str] is the
    byte-wise lexicographic order, [String.compare]. *)
Definition get_all_distros (r : IsoRegistry) : list string :=
  sort_by String.compare (keys (distros r) ++ keys (custom_distros r)).

(** [IsoRegistry::get_distro]. *)
Definition get_distro (r : IsoRegistry) (n : string) : option DistroEntry :=
  match map_get n (distros r) with
  | Some d => Some d
  | None => map_get n (custom_distros r)
  end.

(** [IsoRegistry::is_supported]. *)
Definition is_supported (r : IsoRegistry) (n : string) : bool :=
  contains_key n (distros r) || contains_key n (custom_distros r).

(** [IsoRegistry::add_custom_distro]. *)
Definition add_custom_distro (r : IsoRegistry) (entry : DistroEntry) : IsoRegistry :=
  mkIsoRegistry (distros r) (map_insert (name (definition entry)) entry (custom_distros r)).

(** [IsoRegistry::remove_custom_distro]: whether a definition was removed,
    and the registry afterwards. *)
Definition remove_custom_distro (r : IsoRegistry) (n : string) : bool * IsoRegistry :=
  let '(old, custom) := map_remove n (custom_distros r) in
  match old with
  | Some _ => (true, mkIsoRegistry (distros r) custom)
  | None => (false, r)
  end.

(** [IsoRegistry::get_available_versions]; an error is shown with its
    context message. *)
Definition get_available_versions (r : IsoRegistry) (d : string)
  : result (list VersionInfo) :=
  match get_distro r d with
  | None => Err ("Distro '" ++ d ++ "' not found in registry")
  | Some entry =>
      match version_detector entry with
      | Ok versions => Ok versions
      | Err _ => Err ("Failed to detect versions for " ++ d)
      end
  end.

(** [IsoRegistry::get_latest_version]. *)
Definition get_latest_version (r : IsoRegistry) (d : string) : result VersionInfo :=
  match get_available_versions r d with
  | Err e => Err e
  | Ok versions =>
      match max_by cmp (filter Detectors.is_stable_or_lts versions) with
      | Some v => Ok v
      | None =>
          match max_by cmp versions with
          | Some v => Ok v
          | None => Err "No versions found"
          end
      end
  end.

(** The body of the loop of [IsoRegistry::resolve_download_sources]. *)
Definition resolve_source (version architecture : string) (variant : option string)
  (filename : string) (source : Sources.DownloadSource) : Sources.DownloadSource :=
  match Sources.url source with
  | Some url =>
      let url := replace url "{version}" version in
      let url := replace url "{arch}" architecture in
      let url := replace url "{filename}" filename in
      let url := match variant with
                 | Some variant => replace url "{variant}" variant
                 | None => url
                 end in
      Sources.mkDownloadSource (Sources.source_type source) (Sources.priority source)
        (Some url) (Sources.magnet_link source) (Sources.trackers source)
        (Sources.region source) (Sources.description source) (Sources.verified source)
        (Sources.speed_rating source)
  | None => source
  end.

(** [IsoRegistry::resolve_download_sources]. *)
Definition resolve_download_sources (entry : DistroEntry) (version architecture : string)
  (variant : option string) (filename : string) : result (list Sources.DownloadSource) :=
  Ok (map (resolve_source version architecture variant filename) (download_sources entry)).

(** [IsoRegistry::get_iso_info].  The detector is asked twice when a
    version is given (by [get_available_versions] here) or once (by
    [get_latest_version]); it returns the same result each time. *)
Definition get_iso_info (r : IsoRegistry) (d : string) (version : option string)
  (architecture : option string) (variant : option string) : result Iso.IsoInfo :=
  match get_distro r d with
  | None => Err ("Distro '" ++ d ++ "' not found")
  | Some entry =>
      let def := definition entry in
      let version_info :=
        match version with
        | Some v =>
            match get_available_versions r d with
            | Err e => Err e
            | Ok versions =>
                match find (fun vi => String.eqb (Versions.version vi) v) versions with
                | Some vi => Ok vi
                | None => Err ("Version '" ++ v ++ "' not found for " ++ d)
                end
            end
        | None => get_latest_version r d
        end in
      match version_info with
      | Err e => Err e
      | Ok version_info =>
          let arch :=
            match architecture with
            | Some a => a
            | None =>
                match supported_architectures def with
                | a :: _ => a
                | [] => "amd64"%string
                end
            end in
          if negb (existsb (String.eqb arch) (supported_architectures def)) then
            Err ("Architecture '" ++ arch ++ "' not supported for " ++ d)
          else
            let variant_str :=
              match variant with
              | Some v => Some v
              | None => default_variant def
              end in
            let variant_check :=
              match variant_str with
              | Some v =>
                  if existsb (String.eqb v) (supported_variants def) then Ok tt
                  else Err ("Variant '" ++ v ++ "' not supported for " ++ d)
              | None => Ok tt
              end in
            match variant_check with
            | Err e => Err e
            | Ok _ =>
              match generate_filename def (Versions.version version_info) arch variant_str with
              | Err e => Err e
              | Ok filename =>
                  match resolve_download_sources entry (Versions.version version_info) arch
                          variant_str filename with
                  | Err e => Err e
                  | Ok download_sources =>
                      Ok (Iso.mkIsoInfo d (Versions.version version_info) arch variant_str
                            filename download_sources None (Some "sha256"%string)
                            (Versions.release_date version_info) None
                            (Versions.release_type version_info))
                  end
              end
            end
      end
  end.

Section Checksums.

(** [IsoRegistry::fetch_checksum] for a URL and a file name: an HTTP
    request, so an outside effect. *)
Variable fetch_checksum : string -> string -> result string.

(** The URL of one pattern of [checksum_urls], as [get_checksum] builds it. *)
Definition checksum_url (iso_info : Iso.IsoInfo) (checksum_url_pattern : string) : string :=
  let checksum_url := replace checksum_url_pattern "{version}" (Iso.version iso_info) in
  let checksum_url := replace checksum_url "{arch}" (Iso.architecture iso_info) in
  let checksum_url := replace checksum_url "{filename}" (Iso.filename iso_info) in
  match Iso.variant iso_info with
  | Some variant => replace checksum_url "{variant}" variant
  | None => checksum_url
  end.

(** The [for checksum_url_pattern in &definition.checksum_urls] loop. *)
Fixpoint first_checksum (iso_info : Iso.IsoInfo) (patterns : list string) : option string :=
  match patterns with
  | [] => None
  | p :: ps =>
      match fetch_checksum (checksum_url iso_info p) (Iso.filename iso_info) with
      | Ok checksum => Some checksum
      | Err _ => first_checksum iso_info ps
      end
  end.

(** [IsoRegistry::get_checksum]. *)
Definition get_checksum (r : IsoRegistry) (iso_info : Iso.IsoInfo) : result (option string) :=
  match get_distro r (Iso.distro iso_info) with
  | None => Err "Distro definition not found"
  | Some entry => Ok (first_checksum iso_info (checksum_urls (definition entry)))
  end.

End Checksums.

End RegistryOps.

(* ------------------------------------------------------------------ *)
(** ** Parsing a checksum file ([IsoRegistry::fetch_checksum]) *)

Module ChecksumFile.
Local Open Scope N_scope.

(** In this module a [str] is its sequence of [char]s, each a Unicode
    scalar value: [trim] and [split_whitespace] work on [char]s. *)
Definition text := list N.

(** [char::is_whitespace]: the characters with the White_Space property. *)
Definition is_whitespace (c : N) : bool :=
  ((9 <=? c) && (c <=? 13)) || (c =? 32) || (c =? 133) || (c =? 160) || (c =? 5760)
  || ((8192 <=? c) && (c <=? 8202)) || (c =? 8232) || (c =? 8233) || (c =? 8239)
  || (c =? 8287) || (c =? 12288).

Fixpoint trim_start (s : text) : text :=
  match s with
  | [] => []
  | c :: s' => if is_whitespace c then trim_start s' else s
  end.

(** [str::trim]. *)
Definition trim (s : text) : text := rev (trim_start (rev (trim_start s))).

(** [str::split] with a [char] predicate: every piece, empty ones included. *)
Fixpoint split_by (p : N -> bool) (s : text) : list text :=
  match s with
  | [] => [[]]
  | c :: s' =>
      if p c then [] :: split_by p s'
      else match split_by p s' with
           | [] => [[c]]
           | t :: ts => (c :: t) :: ts
           end
  end.

(** [str::split_whitespace]. *)
Definition split_whitespace (s : text) : list text :=
  filter (fun w => match w with [] => false | _ => true end) (split_by is_whitespace s).

(** [str::lines]: the pieces between '\n's, each piece that ends with a
    '\n' losing a '\r' before it; the piece after the last '\n' is a line
    only when it is not empty. *)
Definition strip_cr (l : text) : text :=
  match rev l with
  | 13 :: r => rev r
  | _ => l
  end.

Fixpoint lines_of (pieces : list text) : list text :=
  match pieces with
  | [] => []
  | [last] => match last with [] => [] | _ => [last] end
  | p :: ps => strip_cr p :: lines_of ps
  end.

Definition lines (s : text) : list text := lines_of (split_by (fun c => c =? 10) s).

(** [str::trim_start_matches('*')]. *)
Fixpoint trim_start_stars (s : text) : text :=
  match s with
  | 42 :: s' => trim_start_stars s'
  | _ => s
  end.

Fixpoint text_eqb (a b : text) : bool :=
  match a, b with
  | [], [] => true
  | x :: a', y :: b' => (x =? y) && text_eqb a' b'
  | _, _ => false
  end.

Fixpoint starts_with (s p : text) : bool :=
  match p, s with
  | [], _ => true
  | _ :: _, [] => false
  | x :: p', y :: s' => (x =? y) && starts_with s' p'
  end.

(** [str::ends_with]. *)
Definition ends_with (s suffix : text) : bool := starts_with (rev s) (rev suffix).

(** [char::is_ascii_hexdigit]. *)
Definition is_ascii_hexdigit (c : N) : bool :=
  ((48 <=? c) && (c <=? 57)) || ((65 <=? c) && (c <=? 70)) || ((97 <=? c) && (c <=? 102)).

(** [str::to_lowercase] on a string of ASCII hex digits, the only strings
    it is applied to here: 'A'..'F' become 'a'..'f'. *)
Definition hex_to_lowercase (s : text) : text :=
  map (fun c => if (65 <=? c) && (c <=? 90) then c + 32 else c) s.

(** [str::find] with a [char]: the index of its first occurrence. *)
Fixpoint find_char (c : N) (s : text) : option nat :=
  match s with
  | [] => None
  | x :: s' => if x =? c then Some O else option_map S (find_char c s')
  end.

(** The two formats tried on one trimmed line that is neither empty nor a
    comment. *)
Definition line_checksum (filename line : text) : option text :=
  let from_parts :=
    match split_whitespace line with
    | checksum :: file :: _ =>
        let file_in_line := trim_start_stars file in
        if (text_eqb file_in_line filename || ends_with file_in_line filename)
           && forallb is_ascii_hexdigit checksum
        then Some (hex_to_lowercase checksum) else None
    | _ => None
    end in
  match from_parts with
  | Some c => Some c
  | None =>
      match find_char 58 line with
      | Some colon_pos =>
          let file_part := trim (firstn colon_pos line) in
          let checksum := trim (skipn 1 (skipn colon_pos line)) in
          if (text_eqb file_part filename || ends_with file_part filename)
             && forallb is_ascii_hexdigit checksum
          then Some (hex_to_lowercase checksum) else None
      | None => None
      end
  end.

(** The [for line in content.lines()] loop of [fetch_checksum]; the file
    name is left out of the final error message. *)
Fixpoint parse_checksum_lines (filename : text) (ls : list text) : result text :=
  match ls with
  | [] => Err "Checksum not found in checksum file"
  | line :: rest =>
      let line := trim line in
      match line with
      | [] => parse_checksum_lines filename rest
      | c :: _ =>
          if c =? 35 then parse_checksum_lines filename rest
          else match line_checksum filename line with
               | Some checksum => Ok checksum
               | None => parse_checksum_lines filename rest
               end
      end
  end.

(** [fetch_checksum] once the response text has been read. *)
Definition parse_checksum_file (content filename : text) : result text :=
  parse_checksum_lines filename (lines content).

End ChecksumFile.

(* ------------------------------------------------------------------ *)
(** ** Starting a download ([DownloadManager::download_iso]) *)

Module ManagerOps.
Import Checksum Engine.

(** [DownloadRequest::new], [with_checksum], [no_resume]. *)
Definition request_new (url output_path : string) : DownloadRequest :=
  mkDownloadRequest url output_path None None (Some "isod/0.1.0"%string) true.

Definition with_checksum (r : DownloadRequest) (checksum : string) (ct : ChecksumType)
  : DownloadRequest :=
  mkDownloadRequest (url r) (output_path r) (Some checksum) (Some ct) (user_agent r) (resume r).

Definition no_resume (r : DownloadRequest) : DownloadRequest :=
  mkDownloadRequest (url r) (output_path r) (expected_checksum r) (checksum_type r)
    (user_agent r) false.

(** [DownloadSource::get_url]. *)
Definition get_url (s : Sources.DownloadSource) : option string :=
  match Sources.url s with
  | Some u => Some u
  | None => Sources.magnet_link s
  end.

(** The [match iso_info.checksum_type.as_deref()] of [download_iso]. *)
Definition checksum_type_of (t : option string) : ChecksumType :=
  match t with
  | Some t =>
      if String.eqb t "md5" then Md5
      else if String.eqb t "sha1" then Sha1
      else if String.eqb t "sha256" then Sha256
      else if String.eqb t "sha512" then Sha512
      else Sha256
  | None => Sha256
  end.

(** [DownloadManager::resolve_url_template]. *)
Definition resolve_url_template (url : string) (iso_info : Iso.IsoInfo) : result string :=
  let resolved := url in
  let resolved := Registry.replace resolved "{version}" (Iso.version iso_info) in
  let resolved := Registry.replace resolved "{arch}" (Iso.architecture iso_info) in
  let resolved := Registry.replace resolved "{filename}" (Iso.filename iso_info) in
  let resolved :=
    match Iso.variant iso_info with
    | Some variant => Registry.replace resolved "{variant}" variant
    | None =>
        let resolved := Registry.replace resolved "/{variant}" "" in
        let resolved := Registry.replace resolved "{variant}/" "" in
        Registry.replace resolved "{variant}" ""
    end in
  Ok resolved.

(** [Path::join] on Unix: an absolute path replaces the base; otherwise a
    '/' is put between them unless the base is empty or ends with one. *)
Definition path_join (base path : string) : string :=
  match path with
  | String "/"%char _ => path
  | _ =>
      match base with
      | EmptyString => path
      | _ =>
          if String.eqb (String.substring (String.length base - 1) 1 base) "/"
          then (base ++ path)%string
          else (base ++ "/" ++ path)%string
      end
  end.

(** [DownloadManager::download_iso] up to [start_download]: the download
    id and the request the spawned task hands to the engine.
    [uuid_prefix] is [Uuid::new_v4().to_string()[..8]].  [start_download]
    only waits for a permit of the semaphore, which is never closed, so
    [download_iso] then returns [Ok(download_id)]. *)
Definition download_iso (uuid_prefix : string) (iso_info : Iso.IsoInfo)
  (options : Sources.DownloadOptions) : result (string * DownloadRequest) :=
  let download_id := (Iso.distro iso_info ++ "_" ++ uuid_prefix)%string in
  match Sources.select_best_source (Iso.download_sources iso_info) options with
  | Err e => Err e
  | Ok source =>
      match get_url source with
      | None => Err "Selected source has no URL"
      | Some url =>
          match resolve_url_template url iso_info with
          | Err e => Err e
          | Ok resolved_url =>
              let output_path :=
                path_join (Sources.output_directory options) (Iso.filename iso_info) in
              let request := request_new resolved_url output_path in
              let request :=
                if Sources.verify_checksums options then
                  match Iso.checksum iso_info with
                  | Some checksum =>
                      with_checksum request checksum (checksum_type_of (Iso.checksum_type iso_info))
                  | None => request
                  end
                else request in
              let request :=
                if negb (Sources.resume_downloads options) then no_resume request else request in
              Ok (download_id, request)
          end
      end
  end.

End ManagerOps.

(* ------------------------------------------------------------------ *)
(** ** Source collections ([src/registry/sources.rs]) *)

Module Collection.
Import Sources.

Definition source_type_eqb (a b : SourceType) : bool :=
  match a, b with
  | Direct, Direct | Mirror, Mirror | Torrent, Torrent | Magnet, Magnet => true
  | _, _ => false
  end.

(** [<DownloadSource as Ord>::cmp]: by selection score, descending. *)
Definition source_cmp (a b : DownloadSource) : comparison :=
  N.compare (get_selection_score b) (get_selection_score a).

Record SourceCollection := mkSourceCollection { sources : list DownloadSource }.

(** [SourceCollection::new]. *)
Definition new : SourceCollection := mkSourceCollection [].

(** [SourceCollection::sort]: [slice::sort], stable, by [Ord::cmp]. *)
Definition sort (c : SourceCollection) : SourceCollection :=
  mkSourceCollection (sort_by source_cmp (sources c)).

(** [SourceCollection::from_sources]. *)
Definition from_sources (l : list DownloadSource) : SourceCollection :=
  sort (mkSourceCollection l).

(** [SourceCollection::add_source]. *)
Definition add_source (c : SourceCollection) (source : DownloadSource) : SourceCollection :=
  if is_usable source then sort (mkSourceCollection (sources c ++ [source])) else c.

(** [SourceCollection::remove_sources]: [Vec::retain] with the negated
    predicate. *)
Definition remove_sources (c : SourceCollection) (predicate : DownloadSource -> bool)
  : SourceCollection :=
  mkSourceCollection (filter (fun s => negb (predicate s)) (sources c)).

(** [SourceCollection::get_best_source]. *)
Definition get_best_source (c : SourceCollection) : option DownloadSource :=
  hd_error (sources c).

(** [SourceCollection::get_sources_by_type]. *)
Definition get_sources_by_type (c : SourceCollection) (t : SourceType) : list DownloadSource :=
  filter (fun s => source_type_eqb (source_type s) t) (sources c).

Record BestSources := mkBestSources {
  direct : option DownloadSource;
  mirror : option DownloadSource;
  torrent : option DownloadSource;
  magnet : option DownloadSource
}.

(** [SourceCollection::get_best_sources_by_method]. *)
Definition get_best_sources_by_method (c : SourceCollection) : BestSources :=
  mkBestSources (hd_error (get_sources_by_type c Direct))
    (hd_error (get_sources_by_type c Mirror))
    (hd_error (get_sources_by_type c Torrent))
    (hd_error (get_sources_by_type c Magnet)).

(** [BestSources::get_overall_best]: [max_by_key] is [max_by] on the keys,
    so the last of the best-scored candidates wins. *)
Definition get_overall_best (b : BestSources) : option DownloadSource :=
  StdExt.max_by (fun x y => N.compare (get_selection_score x) (get_selection_score y))
    (filter_map (fun o => o)
       [direct b; mirror b; torrent b; magnet b]).

(** [BestSources::get_ordered_sources]: [sort_by_key] with
    [Reverse(score)] is a stable sort by descending score. *)
Definition get_ordered_sources (b : BestSources) : list DownloadSource :=
  sort_by (fun x y => N.compare (get_selection_score y) (get_selection_score x))
    (filter_map (fun o => o)
       [direct b; torrent b; magnet b; mirror b]).

End Collection.

(* ================================================================== *)
(** * Proofs *)

(** ** Stable sorting and [dedup_by] *)

Module StdFacts.

Lemma sorted_impl {A : Type} (R S : A -> A -> Prop) (l : list A) :
  (forall a b, R a b -> S a b) -> Sorted R l -> Sorted S l.
Proof.
  intros H Hs. induction Hs as [|x l Hl IH Hhd]; constructor; auto.
  destruct Hhd; constructor; auto.
Qed.

Section Sort.
Context {A : Type} (cmpf : A -> A -> comparison).
Hypothesis cmpf_antisym : forall x y, cmpf y x = CompOpp (cmpf x y).

(** The order [sort_by] establishes: no element is greater than the next. *)
Definition not_gt (a b : A) : Prop := cmpf a b <> Gt.

Lemma not_gt_of_not_lt (x y : A) : cmpf x y <> Lt -> not_gt y x.
Proof.
  unfold not_gt. rewrite (cmpf_antisym x y). destruct (cmpf x y); simpl; congruence.
Qed.

Lemma insert_by_sorted (x : A) (l : list A) :
  Sorted not_gt l -> Sorted not_gt (insert_by cmpf x l).
Proof.
  induction l as [|y ys IH]; intro Hs; simpl.
  - repeat constructor.
  - assert (cmpf x y <> Lt ->
            Sorted not_gt (y :: insert_by cmpf x ys)) as Hrec.
    { intro E. apply Sorted_inv in Hs as [Hys Hhd].
      constructor; [apply IH; exact Hys|].
      destruct ys as [|z zs]; simpl.
      - constructor. apply not_gt_of_not_lt. exact E.
      - destruct (cmpf x z).
        + inversion Hhd; subst. constructor; assumption.
        + constructor. apply not_gt_of_not_lt. exact E.
        + inversion Hhd; subst. constructor; assumption. }
    destruct (cmpf x y) eqn:E.
    + apply Hrec; congruence.
    + constructor; [exact Hs|]. constructor. unfold not_gt; congruence.
    + apply Hrec; congruence.
Qed.

Lemma sort_by_sorted (l : list A) : Sorted not_gt (sort_by cmpf l).
Proof.
  unfold sort_by.
  assert (forall acc, Sorted not_gt acc ->
            Sorted not_gt (fold_left (fun acc x => insert_by cmpf x acc) l acc)) as G.
  { induction l as [|x l IH]; intros acc Hacc; simpl; auto.
    apply IH, insert_by_sorted, Hacc. }
  apply G. constructor.
Qed.

End Sort.

Lemma insert_by_perm {A : Type} (cmpf : A -> A -> comparison) (x : A) (l : list A) :
  Permutation (insert_by cmpf x l) (x :: l).
Proof.
  induction l as [|y ys IH]; simpl; auto.
  destruct (cmpf x y); auto.
  - rewrite IH. apply perm_swap.
  - rewrite IH. apply perm_swap.
Qed.

Lemma sort_by_perm {A : Type} (cmpf : A -> A -> comparison) (l : list A) :
  Permutation (sort_by cmpf l) l.
Proof.
  unfold sort_by.
  assert (forall acc, Permutation (fold_left (fun acc x => insert_by cmpf x acc) l acc)
                                  (l ++ acc)) as G.
  { induction l as [|x l IH]; intro acc; simpl; auto.
    rewrite IH, insert_by_perm. symmetry; apply Permutation_middle. }
  rewrite G, app_nil_r. reflexivity.
Qed.

Section Dedup.
Context {A : Type} (same_bucket : A -> A -> bool).

Lemma dedup_by_from_incl (last y : A) (l : list A) :
  In y (dedup_by_from same_bucket last l) -> In y l.
Proof.
  revert last; induction l as [|x xs IH]; intro last; simpl; auto.
  destruct (same_bucket x last); simpl.
  - intro H; right; eapply IH; eauto.
  - intros [H|H]; [left; exact H | right; eapply IH; eauto].
Qed.

Lemma dedup_by_incl (y : A) (l : list A) : In y (dedup_by same_bucket l) -> In y l.
Proof.
  destruct l as [|x xs]; simpl; auto.
  intros [H|H]; [left; exact H | right; eapply dedup_by_from_incl; eauto].
Qed.

Lemma dedup_by_from_strongly_sorted (R : A -> A -> Prop) (last : A) (l : list A) :
  StronglySorted R (last :: l) ->
  StronglySorted R (last :: dedup_by_from same_bucket last l).
Proof.
  revert last; induction l as [|x xs IH]; intros last Hs; simpl; auto.
  apply StronglySorted_inv in Hs as [Hxs Hall].
  apply StronglySorted_inv in Hxs as [Hxs' Hx].
  inversion Hall as [|? ? Hlx Hlxs]; subst.
  destruct (same_bucket x last).
  - apply IH. constructor; assumption.
  - constructor.
    + apply IH. constructor; assumption.
    + constructor; [exact Hlx|].
      apply Forall_forall. intros y Hy.
      apply dedup_by_from_incl in Hy.
      rewrite Forall_forall in Hlxs. auto.
Qed.

Lemma dedup_by_strongly_sorted (R : A -> A -> Prop) (l : list A) :
  StronglySorted R l -> StronglySorted R (dedup_by same_bucket l).
Proof.
  destruct l as [|x xs]; simpl; auto. apply dedup_by_from_strongly_sorted.
Qed.

(** Two neighbours of the output are never in the same bucket. *)
Definition distinct_bucket (a b : A) : Prop := same_bucket b a = false.

Lemma dedup_by_from_adjacent (last : A) (l : list A) :
  Sorted distinct_bucket (last :: dedup_by_from same_bucket last l).
Proof.
  revert last; induction l as [|x xs IH]; intro last; simpl; auto.
  destruct (same_bucket x last) eqn:E; auto.
Qed.

Lemma dedup_by_adjacent (l : list A) : Sorted distinct_bucket (dedup_by same_bucket l).
Proof. destruct l as [|x xs]; simpl; auto using dedup_by_from_adjacent. Qed.

Hypothesis same_bucket_refl : forall x, same_bucket x x = true.

(** Every removed element shares a bucket with one that is kept. *)
Lemma dedup_by_from_cover (last y : A) (l : list A) :
  In y l -> exists z, In z (last :: dedup_by_from same_bucket last l) /\
                      same_bucket y z = true.
Proof.
  revert last; induction l as [|x xs IH]; intros last Hy; simpl in Hy |- *;
    [contradiction|].
  destruct (same_bucket x last) eqn:E; destruct Hy as [->|Hy].
  - exists last. split; [left; reflexivity | exact E].
  - destruct (IH last Hy) as [z [Hz Hyz]]. exists z. split; [exact Hz | exact Hyz].
  - exists y. split; [right; left; reflexivity | apply same_bucket_refl].
  - destruct (IH x Hy) as [z [Hz Hyz]].
    exists z. split; [right; exact Hz | exact Hyz].
Qed.

Lemma dedup_by_cover (y : A) (l : list A) :
  In y l -> exists z, In z (dedup_by same_bucket l) /\ same_bucket y z = true.
Proof.
  destruct l as [|x xs]; simpl; [contradiction|].
  intros [->|Hy].
  - exists y. split; [left; reflexivity | apply same_bucket_refl].
  - apply (dedup_by_from_cover x); exact Hy.
Qed.

End Dedup.

End StdFacts.

(** *** Lemmas on the version ordering *)

Module VersionsFacts.
Import Versions.

Example parse_2204 : parse_version_str "22.04" = [22%N; 4%N].
Proof. reflexivity. Qed.
Example parse_rc : parse_version_str "24.04-rc1_x" = [24%N; 4%N].
Proof. reflexivity. Qed.
Example parse_big : parse_version_str "1.4294967296" = [1%N].
Proof. vm_compute. reflexivity. Qed.

Lemma cmp_parts_lex (xs ys : list N) : cmp_parts xs ys = lex_spec xs ys.
Proof.
  unfold cmp_parts.
  revert ys; induction xs as [|x xs IH]; intros [|y ys]; simpl; try reflexivity.
  rewrite <- IH. unfold cmp_parts.
  destruct (N.compare x y); reflexivity.
Qed.

Lemma lex_spec_antisym (xs ys : list N) : lex_spec ys xs = CompOpp (lex_spec xs ys).
Proof.
  revert ys; induction xs as [|x xs IH]; intros [|y ys]; simpl; try reflexivity.
  rewrite (N.compare_antisym x y).
  destruct (N.compare x y); simpl; auto.
Qed.

Lemma lex_spec_eq (xs ys : list N) : lex_spec xs ys = Eq -> xs = ys.
Proof.
  revert ys; induction xs as [|x xs IH]; intros [|y ys]; simpl; try discriminate; auto.
  destruct (N.compare x y) eqn:E; try discriminate.
  apply N.compare_eq_iff in E; subst. intro H. f_equal. auto.
Qed.

Lemma lex_spec_lt_trans (xs ys zs : list N) :
  lex_spec xs ys = Lt -> lex_spec ys zs = Lt -> lex_spec xs zs = Lt.
Proof.
  revert ys zs; induction xs as [|x xs IH]; intros [|y ys] [|z zs]; simpl;
    try discriminate; auto.
  destruct (N.compare x y) eqn:Exy; try discriminate;
  destruct (N.compare y z) eqn:Eyz; try discriminate; intros H1 H2.
  - apply N.compare_eq_iff in Exy; apply N.compare_eq_iff in Eyz; subst.
    rewrite N.compare_refl. eauto.
  - apply N.compare_eq_iff in Exy; subst. rewrite Eyz. reflexivity.
  - apply N.compare_eq_iff in Eyz; subst. rewrite Exy. reflexivity.
  - assert (N.compare x z = Lt) as -> by exact (N.lt_trans x y z Exy Eyz).
    reflexivity.
Qed.

Lemma cmp_antisym (a b : VersionInfo) : cmp b a = CompOpp (cmp a b).
Proof.
  unfold cmp. rewrite (Nat.compare_antisym (type_priority (release_type a))).
  destruct (Nat.compare _ _); simpl; try reflexivity.
  rewrite !cmp_parts_lex. apply lex_spec_antisym.
Qed.

Lemma cmp_lt_trans (a b c : VersionInfo) : cmp a b = Lt -> cmp b c = Lt -> cmp a c = Lt.
Proof.
  unfold cmp. rewrite !cmp_parts_lex.
  destruct (Nat.compare (type_priority (release_type a)) _) eqn:Eab;
  destruct (Nat.compare (type_priority (release_type b)) _) eqn:Ebc;
    try discriminate; intros H1 H2.
  - apply Nat.compare_eq_iff in Eab; apply Nat.compare_eq_iff in Ebc.
    rewrite Eab, Ebc, Nat.compare_refl. eauto using lex_spec_lt_trans.
  - apply Nat.compare_eq_iff in Eab. rewrite Eab, Ebc. reflexivity.
  - apply Nat.compare_eq_iff in Ebc. rewrite <- Ebc, Eab. reflexivity.
  - apply Nat.compare_lt_iff in Eab; apply Nat.compare_lt_iff in Ebc.
    assert (Nat.compare (type_priority (release_type a)) (type_priority (release_type c)) = Lt)
      as ->; [apply Nat.compare_lt_iff; lia | reflexivity].
Qed.

(** The relation "sorts no lower than": [a] may precede [b] in a list sorted
    newest first. *)
Definition newer_eq (a b : VersionInfo) : Prop := cmp a b <> Lt.

Lemma newer_eq_trans (a b c : VersionInfo) :
  newer_eq a b -> newer_eq b c -> newer_eq a c.
Proof.
  unfold newer_eq. intros Hab Hbc Hac.
  destruct (cmp a b) eqn:Eab; try congruence.
  - (* a ~ b *)
    unfold cmp in Eab. rewrite cmp_parts_lex in Eab.
    destruct (Nat.compare _ _) eqn:Ep in Eab; try discriminate.
    apply Nat.compare_eq_iff in Ep. apply lex_spec_eq in Eab.
    apply Hbc. unfold cmp in Hac |- *. rewrite cmp_parts_lex in Hac |- *.
    unfold parse_version in *. rewrite <- Ep, <- Eab. exact Hac.
  - (* a > b *)
    destruct (cmp b c) eqn:Ebc; try congruence.
    + unfold cmp in Ebc. rewrite cmp_parts_lex in Ebc.
      destruct (Nat.compare _ _) eqn:Ep in Ebc; try discriminate.
      apply Nat.compare_eq_iff in Ep. apply lex_spec_eq in Ebc.
      assert (cmp a b = Lt) as Hab'.
      { unfold cmp in Hac |- *. rewrite cmp_parts_lex in Hac |- *.
        unfold parse_version in *. rewrite Ep, Ebc. exact Hac. }
      congruence.
    + assert (cmp c b = Lt) as Hcb by (rewrite cmp_antisym, Ebc; reflexivity).
      assert (cmp b a = Lt) as Hba by (rewrite cmp_antisym, Eab; reflexivity).
      pose proof (cmp_lt_trans _ _ _ Hcb Hba) as Hca.
      rewrite cmp_antisym, Hac in Hca. discriminate.
Qed.

End VersionsFacts.

Module ParseFacts.
Import Versions.

Lemma take_while_digit_all (s : string) : all_digits (take_while_digit s) = true.
Proof.
  induction s as [|c s IH]; simpl; auto.
  destruct (is_ascii_digit c) eqn:E; simpl; auto. rewrite E; exact IH.
Qed.

Lemma take_while_digit_head (s t : string) (c : ascii) :
  take_while_digit s = String c t -> is_ascii_digit c = true.
Proof.
  destruct s as [|c' s]; simpl; [discriminate|].
  destruct (is_ascii_digit c') eqn:E; [|discriminate].
  intro H; injection H as <- _; exact E.
Qed.

Lemma parse_u32_digit (c : ascii) (t : string) :
  is_ascii_digit c = true -> parse_u32 (String c t) = parse_digits_u32 (String c t).
Proof.
  intro H. destruct c as [[] [] [] [] [] [] [] []]; try reflexivity; discriminate H.
Qed.

Lemma filter_map_parts (parts : list string) :
  filter_map
    (fun part =>
       let numeric_part := take_while_digit part in
       if String.eqb numeric_part EmptyString then None
       else parse_u32 numeric_part) parts
  = filter (fun n => (n <=? u32_max)%N)
      (filter_map
         (fun part =>
            let numeric_part := take_while_digit part in
            if String.eqb numeric_part EmptyString then None
            else Some (digits_value numeric_part)) parts).
Proof.
  induction parts as [|part parts IH]; [reflexivity|].
  cbn [filter_map]. cbv zeta in IH |- *.
  pose proof (take_while_digit_all part) as Hall.
  destruct (take_while_digit part) as [|c t] eqn:E; [exact IH|].
  cbn [String.eqb].
  rewrite parse_u32_digit by (eapply take_while_digit_head; eauto).
  unfold parse_digits_u32. rewrite Hall.
  destruct (digits_value (String c t) <=? u32_max)%N eqn:Hle;
    cbn [filter]; rewrite ?Hle, IH; reflexivity.
Qed.

(** [parse_version] keeps exactly the components of the specification that
    fit in a [u32]. *)
Lemma parse_version_components (v : string) :
  parse_version_str v = filter (fun n => (n <=? u32_max)%N) (components_spec v).
Proof. apply filter_map_parts. Qed.

End ParseFacts.

(* ------------------------------------------------------------------ *)
(** ** The version ordering (C5) *)

Module VersionOrder.
Import Versions VersionsFacts ParseFacts.

(** C5 (amended).  [VersionInfo::cmp] is a total preorder: every pair is
    comparable, swapping the arguments reverses the result, and "not
    greater" is transitive.  It compares the release-type rank first
    (LTS 110, Stable 100, RC 80, Beta 60, Alpha 40, Weekly 25, Daily 20,
    Snapshot 10); on equal rank it compares the component lists
    lexicographically, the longer list winning on a common prefix, where
    the components are the leading digit runs of the '.', '-', '_' tokens
    with the tokens without digits and the tokens whose digit run exceeds
    [u32::MAX] left out.  "22.04" LTS sorts above "24.10" Stable. *)
Theorem version_cmp_total_preorder :
  (forall a b, cmp b a = CompOpp (cmp a b)) /\
  (forall a b c, cmp a b <> Gt -> cmp b c <> Gt -> cmp a c <> Gt) /\
  (forall a b, type_priority (release_type a) <> type_priority (release_type b) ->
     cmp a b = Nat.compare (type_priority (release_type a))
                           (type_priority (release_type b))) /\
  (forall a b, type_priority (release_type a) = type_priority (release_type b) ->
     cmp a b = lex_spec (filter (fun n => (n <=? u32_max)%N) (components_spec (version a)))
                        (filter (fun n => (n <=? u32_max)%N) (components_spec (version b)))) /\
  cmp (new "22.04" LTS) (new "24.10" Stable) = Gt.
Proof.
  split; [exact cmp_antisym|].
  split.
  { intros a b c Hab Hbc.
    assert (newer_eq c a) as Hca.
    { apply (newer_eq_trans c b a); unfold newer_eq.
      - rewrite cmp_antisym. destruct (cmp b c); simpl; congruence.
      - rewrite cmp_antisym. destruct (cmp a b); simpl; congruence. }
    unfold newer_eq in Hca. rewrite cmp_antisym in Hca.
    destruct (cmp a c); simpl in *; congruence. }
  split.
  { intros a b Hne. unfold cmp.
    destruct (Nat.compare _ _) eqn:E; try reflexivity.
    apply Nat.compare_eq_iff in E. contradiction. }
  split.
  { intros a b Heq. unfold cmp. rewrite Heq, Nat.compare_refl, cmp_parts_lex.
    unfold parse_version. rewrite !parse_version_components. reflexivity. }
  reflexivity.
Qed.

(** C5 counterexample.  The ordering is not antisymmetric, so it is not a
    total order on [VersionInfo]: "1.0" and "1.0a" of the same release
    type are different values that compare [Equal].  And a component that
    does not fit in a [u32] is dropped: "1.4294967296" compares [Equal] to
    "1" although its leading digit runs are [1; 4294967296]. *)
Lemma version_cmp_not_total_order :
  cmp (new "1.0" Stable) (new "1.0a" Stable) = Eq /\
  new "1.0" Stable <> new "1.0a" Stable /\
  cmp (new "1.4294967296" Stable) (new "1" Stable) = Eq /\
  lex_spec (components_spec "1.4294967296") (components_spec "1") = Gt.
Proof.
  split; [reflexivity|].
  split; [discriminate|].
  split; vm_compute; reflexivity.
Qed.

End VersionOrder.

(* ------------------------------------------------------------------ *)
(** ** The composite version detector (C3) *)

Module CompositeFacts.
Import Versions VersionsFacts Composite StdFacts.

Lemma collect_versions_skips_failures (children : list DetectorResult) :
  collect_versions children = collect_versions (filter is_ok children).
Proof.
  unfold collect_versions. generalize (@nil VersionInfo).
  induction children as [|r rs IH]; intro acc; simpl; auto.
  destruct r; simpl; apply IH.
Qed.

(** What [detect_versions] does guarantee: it never fails, its result only
    depends on the children that succeeded, it is sorted newest first, no
    two neighbours share a version string, it only holds versions reported
    by a child, and every reported version string is represented. *)
Lemma detect_versions_properties (children : list DetectorResult) :
  exists out,
    detect_versions children = Ok out /\
    detect_versions children = detect_versions (filter is_ok children) /\
    Sorted (fun a b => cmp a b <> Lt) out /\
    Sorted (fun a b => version a <> version b) out /\
    (forall v, In v out -> In v (collect_versions children)) /\
    (forall v, In v (collect_versions children) ->
               exists w, In w out /\ version w = version v).
Proof.
  set (sb := fun a b : VersionInfo => String.eqb (version a) (version b)).
  set (sorted := sort_by (fun a b => cmp b a) (collect_versions children)).
  exists (dedup_by sb sorted).
  split; [reflexivity|].
  split; [unfold detect_versions; rewrite <- collect_versions_skips_failures; reflexivity|].
  assert (Sorted newer_eq sorted) as Hsorted.
  { apply (sorted_impl (not_gt (fun a b => cmp b a))).
    - unfold not_gt, newer_eq. intros a b H. rewrite (cmp_antisym b a).
      destruct (cmp b a); simpl in *; congruence.
    - apply sort_by_sorted. intros x y. apply cmp_antisym. }
  split.
  { apply StronglySorted_Sorted, dedup_by_strongly_sorted.
    apply Sorted_StronglySorted; [exact newer_eq_trans | exact Hsorted]. }
  split.
  { apply (sorted_impl (distinct_bucket sb)); [|apply dedup_by_adjacent].
    unfold distinct_bucket, sb. intros a b H E. rewrite E, String.eqb_refl in H.
    discriminate. }
  split.
  { intros v Hv. apply dedup_by_incl in Hv.
    apply (Permutation_in _ (sort_by_perm _ _)) in Hv. exact Hv. }
  intros v Hv.
  apply (Permutation_in _ (Permutation_sym (sort_by_perm (fun a b => cmp b a) _))) in Hv.
  destruct (dedup_by_cover sb (fun x => String.eqb_refl (version x)) v sorted Hv)
    as [w [Hw E]].
  exists w. split; [exact Hw|]. symmetry. apply String.eqb_eq. exact E.
Qed.

(** C3 (code bug).  [dedup_by] only removes consecutive duplicates, and the
    sort is by release type before version, so equal version strings need
    not be neighbours: with one child reporting "24.04" Stable, "23.10"
    Stable and "24.04" Beta, the result holds "24.04" twice. *)
Theorem detect_versions_keeps_duplicate :
  detect_versions [Ok [new "24.04" Stable; new "23.10" Stable; new "24.04" Beta]]
  = Ok [new "24.04" Stable; new "23.10" Stable; new "24.04" Beta] /\
  version (new "24.04" Stable) = version (new "24.04" Beta).
Proof. split; reflexivity. Qed.

End CompositeFacts.

(* ------------------------------------------------------------------ *)
(** ** Source selection (C2) *)

Module SourceSelection.
Import Sources StdFacts.

Lemma find_strongly_sorted {A : Type} (R : A -> A -> Prop) (p : A -> bool)
  (l : list A) (s : A) :
  StronglySorted R l -> find p l = Some s ->
  forall y, In y l -> p y = true -> y = s \/ R s y.
Proof.
  induction l as [|x xs IH]; intros Hs Hf y Hy Hp; [contradiction|].
  apply StronglySorted_inv in Hs as [Hxs Hall].
  simpl in Hf. destruct (p x) eqn:Ex.
  - injection Hf as <-. destruct Hy as [<-|Hy]; [left; reflexivity|].
    right. rewrite Forall_forall in Hall. auto.
  - destruct Hy as [<-|Hy]; [congruence|]. eauto.
Qed.

Lemma sorted_sources_order (options : DownloadOptions) (sources : list DownloadSource) :
  StronglySorted (fun a b => (sort_key options b <= sort_key options a)%N)
    (sort_by (fun a b => N.compare (sort_key options b) (sort_key options a)) sources).
Proof.
  apply Sorted_StronglySorted.
  - intros x y z Hxy Hyz. lia.
  - apply (sorted_impl (not_gt (fun a b => N.compare (sort_key options b) (sort_key options a)))).
    + unfold not_gt. intros a b H. exact H.
    + apply sort_by_sorted. intros x y. apply N.compare_antisym.
Qed.

(** C2 (amended).  Whatever [prefer_torrents] says, [select_best_source]
    only ever returns a usable [Direct] or [Mirror] source of the list, one
    whose selection score is maximal among the usable [Direct] and [Mirror]
    sources; it fails exactly when the list has no usable [Direct] or
    [Mirror] source, so a torrent or magnet source is never selected. *)
Theorem select_best_source_http_only (sources : list DownloadSource)
  (options : DownloadOptions) :
  (forall s, select_best_source sources options = Ok s ->
     In s sources /\ is_usable s = true /\ is_http_type (source_type s) = true /\
     forall s', In s' sources -> is_usable s' = true ->
                is_http_type (source_type s') = true ->
                (get_selection_score s' <= get_selection_score s)%N) /\
  ((exists e, select_best_source sources options = Err e) <->
   forall s', In s' sources ->
              is_usable s' = false \/ is_http_type (source_type s') = false).
Proof.
  set (p := fun s => is_usable s && is_http_type (source_type s)).
  set (sorted := sort_by (fun a b => N.compare (sort_key options b) (sort_key options a))
                         sources).
  assert (Hperm : Permutation sorted sources) by apply sort_by_perm.
  assert (Hsel : select_best_source sources options =
                 match sources with
                 | [] => Err "No download sources available"
                 | _ => match find p sorted with
                        | Some s => Ok s
                        | None => Err "No usable HTTP sources found"
                        end
                 end) by reflexivity.
  split.
  - intros s Hs. rewrite Hsel in Hs.
    destruct sources as [|x xs]; [discriminate|].
    destruct (find p sorted) as [s0|] eqn:Hf; [|discriminate].
    injection Hs as <-.
    destruct (find_some _ _ Hf) as [Hin Hp].
    apply andb_prop in Hp as [Hu Hh].
    split; [exact (Permutation_in _ Hperm Hin)|].
    split; [exact Hu|]. split; [exact Hh|].
    intros s' Hin' Hu' Hh'.
    apply (Permutation_in _ (Permutation_sym Hperm)) in Hin'.
    assert (p s' = true) as Hp' by (unfold p; rewrite Hu', Hh'; reflexivity).
    destruct (find_strongly_sorted _ p _ _ (sorted_sources_order options (x :: xs))
                Hf s' Hin' Hp') as [->|Hle]; [lia|].
    unfold sort_key in Hle.
    destruct (source_type s0), (source_type s'); try discriminate;
      destruct (prefer_torrents options); cbn [is_torrent_type is_http_type] in Hle; lia.
  - rewrite Hsel. split.
    + intros [e He] s' Hin'.
      destruct sources as [|x xs]; [contradiction|].
      destruct (find p sorted) eqn:Hf; [discriminate|].
      apply (Permutation_in _ (Permutation_sym Hperm)) in Hin'.
      pose proof (find_none _ _ Hf s' Hin') as Hn.
      unfold p in Hn. apply andb_false_iff in Hn. exact Hn.
    + intros Hnone.
      destruct sources as [|x xs]; [eexists; reflexivity|].
      destruct (find p sorted) as [s0|] eqn:Hf; [|eexists; reflexivity].
      destruct (find_some _ _ Hf) as [Hin Hp].
      apply (Permutation_in _ Hperm) in Hin.
      unfold p in Hp. apply andb_prop in Hp as [Hu Hh].
      destruct (Hnone s0 Hin); congruence.
Qed.

(** C2 counterexample: with [prefer_torrents] set and a single usable
    torrent source, selection fails instead of returning the torrent. *)
Lemma select_best_source_ignores_torrents :
  let t := torrent "https://example.org/distro.iso.torrent" High in
  let options := mkDownloadOptions 3 true "/tmp" true true in
  is_usable t = true /\ source_type t = Torrent /\
  select_best_source [t] options = Err "No usable HTTP sources found".
Proof. repeat split. Qed.

End SourceSelection.

(* ------------------------------------------------------------------ *)
(** ** The retry loop and the result of [download] (C1, C4, C9, C10) *)

Module EngineFacts.
Import Checksum Engine.

(** The events of the retry protocol: everything but [Started] and the
    [Progress] reports of the attempts. *)
Definition control_events (evs : list DownloadProgress) : list DownloadProgress :=
  filter (fun ev => match ev with Started _ _ _ | Progress _ _ _ _ _ => false | _ => true end)
         evs.

Lemma control_events_reports (id : string) (reps : list ProgressReport) :
  control_events (map (report_event id) reps) = [].
Proof. induction reps as [|r reps IH]; simpl; auto. Qed.

Lemma control_events_app (l1 l2 : list DownloadProgress) :
  control_events (l1 ++ l2) = control_events l1 ++ control_events l2.
Proof. apply filter_app. Qed.

Section Facts.
Variable FS : Type.
Variable download_attempt : nat -> FS -> list ProgressReport * result N * FS.
Variable HashState : Type.
Variable hash_new : ChecksumType -> HashState.
Variable hash_update : HashState -> list Byte.byte -> HashState.
Variable hash_finalize_hex : HashState -> string.
Variable open_file : FS -> string -> result (list ReadOutcome).
Variable engine : DownloadEngine.
Variable task : DownloadTask.

Let run (fs0 : FS) :=
  download FS download_attempt HashState hash_new hash_update hash_finalize_hex
    open_file engine task fs0.
Let loop := retry_loop FS download_attempt engine task.

Definition all_attempts_fail : Prop :=
  forall k fs, exists reps e fs', download_attempt k fs = (reps, Err e, fs').

Lemma retry_loop_all_fail (fuel a : nat) (fs : FS) evs exit fs' :
  all_attempts_fail ->
  a < max_retries engine -> max_retries engine - 1 - a <= fuel ->
  loop fuel a fs = (evs, exit, fs') ->
  control_events evs =
    map (fun k => Retry (task_id task) k (max_retries engine) (retry_delay engine))
        (seq (a + 1) (max_retries engine - 1 - a)) /\
  exists e, exit = GaveUp e (max_retries engine).
Proof.
  intros Hfail. revert a fs evs exit fs'.
  induction fuel as [|fuel IH]; intros a fs evs exit fs' Ha Hfuel Hrun;
    unfold loop in Hrun; simpl in Hrun;
    destruct (Hfail (a + 1) fs) as [reps [e [fs1 Hat]]]; rewrite Hat in Hrun.
  - destruct (max_retries engine <=? a + 1) eqn:Hle;
      injection Hrun as <- <- <-; apply Nat.leb_le in Hle || apply Nat.leb_gt in Hle;
      try lia.
    split; [rewrite control_events_reports; replace (max_retries engine - 1 - a) with 0 by lia; reflexivity|].
    exists e. f_equal. lia.
  - destruct (max_retries engine <=? a + 1) eqn:Hle.
    + apply Nat.leb_le in Hle. injection Hrun as <- <- <-.
      split; [rewrite control_events_reports; replace (max_retries engine - 1 - a) with 0 by lia; reflexivity|].
      exists e. f_equal. lia.
    + apply Nat.leb_gt in Hle.
      destruct (retry_loop FS download_attempt engine task fuel (a + 1) fs1)
        as [[evs' exit'] fs''] eqn:Hrec.
      injection Hrun as <- <- <-.
      destruct (IH (a + 1) fs1 evs' exit' fs'' ltac:(lia) ltac:(lia) Hrec) as [Hc He].
      split; [|exact He].
      rewrite control_events_app, control_events_reports. simpl.
      rewrite Hc. replace (max_retries engine - 1 - a) with (S (max_retries engine - 1 - (a + 1))) by lia.
      simpl. rewrite !Nat.add_1_r. reflexivity.
Qed.

Lemma on_transferred_success (bytes : N) (fs : FS) :
  success (snd (on_transferred FS HashState hash_new hash_update hash_finalize_hex
                  open_file task bytes fs)) = true.
Proof.
  unfold on_transferred.
  destruct (expected_checksum (request task)), (checksum_type (request task));
    try reflexivity.
  destruct (verify_file _ _ _ _ _ _ _ _) as [[]|]; reflexivity.
Qed.

(** C4.  When every attempt fails and [max_retries] is at least 1 (it is 3
    in [DownloadEngine::new], with a delay of 2 seconds), [download] sends
    [Retry] for the attempts 1 .. [max_retries - 1], each with the
    engine's delay, then one [Failed] whose [attempts] is [max_retries] as
    its last event, and no other retry-protocol event; the result is a
    failure. *)
Theorem download_retry_budget (fs0 : FS) evs res fs :
  1 <= max_retries engine ->
  all_attempts_fail ->
  run fs0 = (evs, res, fs) ->
  exists e pre,
    evs = pre ++ [Failed (task_id task) e (max_retries engine)] /\
    control_events evs =
      map (fun k => Retry (task_id task) k (max_retries engine) (retry_delay engine))
          (seq 1 (max_retries engine - 1))
      ++ [Failed (task_id task) e (max_retries engine)] /\
    success res = false.
Proof.
  intros Hm Hfail Hrun. unfold run, download in Hrun.
  destruct (retry_loop FS download_attempt engine task (max_retries engine) 0 fs0)
    as [[levs exit] fsl] eqn:Hloop.
  destruct (retry_loop_all_fail (max_retries engine) 0 fs0 levs exit fsl Hfail
              ltac:(lia) ltac:(lia) Hloop) as [Hc [e ->]].
  injection Hrun as <- <- <-.
  exists e, (Started (task_id task) (url (request task)) (output_path (request task)) :: levs).
  split; [reflexivity|].
  split; [|reflexivity].
  change (control_events
            (Started (task_id task) (url (request task)) (output_path (request task))
             :: levs ++ [Failed (task_id task) e (max_retries engine)]))
    with (control_events (levs ++ [Failed (task_id task) e (max_retries engine)])).
  rewrite control_events_app, Hc, Nat.sub_0_r. reflexivity.
Qed.

(** C10.  A failed download reports 0 bytes and an unverified checksum,
    whatever the attempts wrote; the file system is returned as the last
    attempt left it (nothing is cleaned up). *)
Theorem download_failure_result (fs0 : FS) evs res fs :
  run fs0 = (evs, res, fs) ->
  success res = false ->
  bytes_downloaded res = 0%N /\ checksum_verified res = false /\
  exists levs e a, loop (max_retries engine) 0 fs0 = (levs, GaveUp e a, fs).
Proof.
  intros Hrun Hs. unfold run, download in Hrun. unfold loop.
  destruct (retry_loop FS download_attempt engine task (max_retries engine) 0 fs0)
    as [[levs exit] fsl] eqn:Hloop.
  destruct exit as [bytes|e a].
  - pose proof (on_transferred_success bytes fsl) as Hok.
    destruct (on_transferred _ _ _ _ _ _ _ bytes fsl) as [evs' res'].
    injection Hrun as _ <- _. simpl in Hok. congruence.
  - injection Hrun as _ <- <-.
    split; [reflexivity|]. split; [reflexivity|].
    exists levs, e, a. reflexivity.
Qed.

(** C1.  When the transfer succeeds and the request carries an expected
    checksum and its type, a mismatch ([verify_file] returns [Ok false])
    yields [VerifyingChecksum], then [ChecksumFailed], then [Completed]
    with [checksum_verified = false], and a successful result with
    [checksum_verified = false]. *)
Theorem download_checksum_mismatch (fs0 : FS) levs bytes fsl expected ct :
  loop (max_retries engine) 0 fs0 = (levs, Transferred bytes, fsl) ->
  expected_checksum (request task) = Some expected ->
  checksum_type (request task) = Some ct ->
  verify_file HashState hash_new hash_update hash_finalize_hex (open_file fsl)
    (output_path (request task)) expected ct = Ok false ->
  run fs0 =
    (Started (task_id task) (url (request task)) (output_path (request task))
       :: levs ++ [VerifyingChecksum (task_id task);
                   ChecksumFailed (task_id task) expected;
                   Completed (task_id task) bytes false],
     mkDownloadResult true bytes None false, fsl).
Proof.
  intros Hloop He Hc Hv. unfold run, download. unfold loop in Hloop. rewrite Hloop.
  unfold on_transferred. rewrite He, Hc, Hv. reflexivity.
Qed.

(** C9.  When the transfer succeeds and the request lacks the expected
    checksum or its type, nothing is verified, yet [Completed] and the
    result both report [checksum_verified = true]. *)
Theorem download_unchecked_reports_verified (fs0 : FS) levs bytes fsl :
  loop (max_retries engine) 0 fs0 = (levs, Transferred bytes, fsl) ->
  expected_checksum (request task) = None \/ checksum_type (request task) = None ->
  run fs0 =
    (Started (task_id task) (url (request task)) (output_path (request task))
       :: levs ++ [Completed (task_id task) bytes true],
     mkDownloadResult true bytes None true, fsl).
Proof.
  intros Hloop Hnone. unfold run, download. unfold loop in Hloop. rewrite Hloop.
  unfold on_transferred.
  destruct Hnone as [H|H]; rewrite H;
    [|destruct (expected_checksum (request task))]; reflexivity.
Qed.

End Facts.

End EngineFacts.

(* ------------------------------------------------------------------ *)
(** ** Concrete runs of the engine *)

Module EngineRuns.
Import Checksum Engine EngineFacts.
Local Open Scope string_scope.
Local Open Scope list_scope.

Definition ubuntu_request : DownloadRequest :=
  mkDownloadRequest "https://releases.ubuntu.com/22.04/ubuntu-22.04-desktop-amd64.iso"
    "/tmp/ubuntu-22.04-desktop-amd64.iso" (Some "ABCDEF0123"%string) (Some Sha256)
    (Some "isod/0.1.0"%string) true.

Definition ubuntu_task : DownloadTask := mkDownloadTask "ubuntu_1a2b3c4d" ubuntu_request.

Definition arch_task : DownloadTask :=
  mkDownloadTask "archlinux_0f0f0f0f"
    (mkDownloadRequest "https://geo.mirror.pkgbuild.com/iso/latest/archlinux-x86_64.iso"
       "/tmp/archlinux-x86_64.iso" None None (Some "isod/0.1.0"%string) true).

(** The file system is the size of the output file.  Every attempt writes
    512 bytes and then loses the connection. *)
Definition attempt_always_fails (k : nat) (size : N)
  : list ProgressReport * result N * N :=
  ([mkProgressReport (size + 512) 4096 12 1024], Err "Failed to read chunk from response",
   (size + 512)%N).

(** The first attempt gets a 503; the second transfers 4096 bytes. *)
Definition attempt_second_ok (k : nat) (size : N)
  : list ProgressReport * result N * N :=
  if Nat.eqb k 1 then ([], Err "HTTP request failed with status: 503", size)
  else ([mkProgressReport 4096 4096 100 2048], Ok 4096%N, 4096%N).

(** A stand-in hash whose digest is always "0123abcd", over a file of one
    byte. *)
Definition demo_hash_new (_ : ChecksumType) : list Byte.byte := [].
Definition demo_hash_update (h chunk : list Byte.byte) : list Byte.byte := h ++ chunk.
Definition demo_hash_finalize (_ : list Byte.byte) : string := "0123abcd".
Definition demo_open_file (_ : N) (_ : string) : result (list ReadOutcome) :=
  Ok [ReadBytes [Byte.x00]].

Definition run_download (attempt : nat -> N -> list ProgressReport * result N * N)
  (task : DownloadTask) : list DownloadProgress * DownloadResult * N :=
  download N attempt (list Byte.byte) demo_hash_new demo_hash_update demo_hash_finalize
    demo_open_file engine_new task 0%N.

Definition run_loop (attempt : nat -> N -> list ProgressReport * result N * N)
  (task : DownloadTask) : list DownloadProgress * LoopExit * N :=
  retry_loop N attempt engine_new task (max_retries engine_new) 0 0%N.

Example retry_run :
  run_download attempt_always_fails ubuntu_task =
  ([Started "ubuntu_1a2b3c4d" (url ubuntu_request) (output_path ubuntu_request);
    Progress "ubuntu_1a2b3c4d" 512 4096 12 1024; Retry "ubuntu_1a2b3c4d" 1 3 2;
    Progress "ubuntu_1a2b3c4d" 1024 4096 12 1024; Retry "ubuntu_1a2b3c4d" 2 3 2;
    Progress "ubuntu_1a2b3c4d" 1536 4096 12 1024;
    Failed "ubuntu_1a2b3c4d" "Failed to read chunk from response" 3],
   mkDownloadResult false 0 (Some "Failed to read chunk from response") false, 1536%N).
Proof. reflexivity. Qed.

Lemma download_retry_budget_witness :
  let out := run_download attempt_always_fails ubuntu_task in
  1 <= max_retries engine_new /\
  all_attempts_fail N attempt_always_fails /\
  exists e pre,
    fst (fst out) = pre ++ [Failed (task_id ubuntu_task) e (max_retries engine_new)] /\
    control_events (fst (fst out)) =
      map (fun k => Retry (task_id ubuntu_task) k (max_retries engine_new)
                          (retry_delay engine_new))
          (seq 1 (max_retries engine_new - 1))
      ++ [Failed (task_id ubuntu_task) e (max_retries engine_new)] /\
    success (snd (fst out)) = false.
Proof.
  intro out. split; [simpl; lia|].
  assert (all_attempts_fail N attempt_always_fails) as Hfail.
  { intros k fs. do 3 eexists. reflexivity. }
  split; [exact Hfail|].
  apply (download_retry_budget N attempt_always_fails (list Byte.byte) demo_hash_new
           demo_hash_update demo_hash_finalize demo_open_file engine_new ubuntu_task 0%N
           (fst (fst out)) (snd (fst out)) (snd out)); [simpl; lia | exact Hfail |].
  reflexivity.
Defined.

Lemma download_failure_result_witness :
  let out := run_download attempt_always_fails ubuntu_task in
  success (snd (fst out)) = false /\
  bytes_downloaded (snd (fst out)) = 0%N /\ checksum_verified (snd (fst out)) = false /\
  exists levs e a, run_loop attempt_always_fails ubuntu_task = (levs, GaveUp e a, snd out).
Proof.
  intro out. split; [reflexivity|].
  apply (download_failure_result N attempt_always_fails (list Byte.byte) demo_hash_new
           demo_hash_update demo_hash_finalize demo_open_file engine_new ubuntu_task 0%N
           (fst (fst out)) (snd (fst out)) (snd out)); reflexivity.
Defined.

Lemma download_checksum_mismatch_witness :
  run_loop attempt_second_ok ubuntu_task =
    ([Retry "ubuntu_1a2b3c4d" 1 3 2; Progress "ubuntu_1a2b3c4d" 4096 4096 100 2048],
     Transferred 4096, 4096%N) /\
  verify_file (list Byte.byte) demo_hash_new demo_hash_update demo_hash_finalize
    (demo_open_file 4096) (output_path ubuntu_request) "ABCDEF0123" Sha256 = Ok false /\
  run_download attempt_second_ok ubuntu_task =
    (Started "ubuntu_1a2b3c4d" (url ubuntu_request) (output_path ubuntu_request)
       :: [Retry "ubuntu_1a2b3c4d" 1 3 2; Progress "ubuntu_1a2b3c4d" 4096 4096 100 2048]
       ++ [VerifyingChecksum "ubuntu_1a2b3c4d";
           ChecksumFailed "ubuntu_1a2b3c4d" "ABCDEF0123";
           Completed "ubuntu_1a2b3c4d" 4096 false],
     mkDownloadResult true 4096 None false, 4096%N).
Proof.
  split; [reflexivity|]. split; [reflexivity|].
  apply (download_checksum_mismatch N attempt_second_ok (list Byte.byte) demo_hash_new
           demo_hash_update demo_hash_finalize demo_open_file engine_new ubuntu_task 0%N
           _ 4096%N 4096%N "ABCDEF0123" Sha256); reflexivity.
Defined.

Lemma download_unchecked_reports_verified_witness :
  run_loop attempt_second_ok arch_task =
    ([Retry "archlinux_0f0f0f0f" 1 3 2; Progress "archlinux_0f0f0f0f" 4096 4096 100 2048],
     Transferred 4096, 4096%N) /\
  expected_checksum (request arch_task) = None /\
  run_download attempt_second_ok arch_task =
    (Started "archlinux_0f0f0f0f" (url (request arch_task)) (output_path (request arch_task))
       :: [Retry "archlinux_0f0f0f0f" 1 3 2; Progress "archlinux_0f0f0f0f" 4096 4096 100 2048]
       ++ [Completed "archlinux_0f0f0f0f" 4096 true],
     mkDownloadResult true 4096 None true, 4096%N).
Proof.
  split; [reflexivity|]. split; [reflexivity|].
  apply (download_unchecked_reports_verified N attempt_second_ok (list Byte.byte)
           demo_hash_new demo_hash_update demo_hash_finalize demo_open_file engine_new
           arch_task 0%N); [reflexivity | left; reflexivity].
Defined.

End EngineRuns.

(* ------------------------------------------------------------------ *)
(** ** Checksum verification (C8) *)

Module ChecksumFacts.
Import Checksum.

(** [{:?}] of a path: quoted, with a quote, a line feed and an escape
    character escaped. *)
Example path_debug_plain :
  path_debug "/tmp/a.iso" =
    String (ascii_of_nat 34) ("/tmp/a.iso" ++ String (ascii_of_nat 34) EmptyString).
Proof. reflexivity. Qed.
Example path_debug_escapes :
  escape_debug_all (String "'" (String (ascii_of_nat 10) (String (ascii_of_nat 27) EmptyString)))
  = "\'\n\u{1b}"%string.
Proof. reflexivity. Qed.

Section Facts.
Variable HashState : Type.
Variable hash_new : ChecksumType -> HashState.
Variable hash_update : HashState -> list Byte.byte -> HashState.
Variable hash_finalize_hex : HashState -> string.
Variable open_file : string -> result (list ReadOutcome).

Let calc := calculate_checksum HashState hash_new hash_update hash_finalize_hex open_file.
Let verify := verify_file HashState hash_new hash_update hash_finalize_hex open_file.

Lemma hash_loop_read_error (st : HashState) (prefix rest : list ReadOutcome) (msg : string) :
  Forall (fun r => exists c, r = ReadBytes c /\ c <> []) prefix ->
  hash_loop HashState hash_update st (prefix ++ ReadError msg :: rest) = Err msg.
Proof.
  revert st; induction prefix as [|r prefix IH]; intros st Hall; [reflexivity|].
  inversion Hall as [|? ? [c [-> Hc]] Hall']; subst.
  destruct c as [|b c]; [contradiction|]. simpl. apply IH. exact Hall'.
Qed.

(** C8.  [verify_file] returns [true] exactly when [calculate_checksum]
    succeeds with a digest equal to the expected string up to letter case;
    it fails exactly when [calculate_checksum] fails, with the same error;
    and an error opening the file, or a read error before the end of the
    file, makes both fail, with no digest. *)
Theorem verify_file_spec (file_path expected : string) (checksum_type : ChecksumType) :
  (verify file_path expected checksum_type = Ok true <->
   exists digest, calc file_path checksum_type = Ok digest /\
                  String.eqb (to_lowercase digest) (to_lowercase expected) = true) /\
  (forall e, verify file_path expected checksum_type = Err e <->
             calc file_path checksum_type = Err e) /\
  (forall msg, open_file file_path = Err msg ->
     exists e, calc file_path checksum_type = Err e /\
               verify file_path expected checksum_type = Err e) /\
  (forall prefix msg rest,
     open_file file_path = Ok (prefix ++ ReadError msg :: rest) ->
     Forall (fun r => exists c, r = ReadBytes c /\ c <> []) prefix ->
     calc file_path checksum_type = Err msg /\
     verify file_path expected checksum_type = Err msg).
Proof.
  unfold verify, calc, verify_file.
  split.
  { destruct (calculate_checksum _ _ _ _ _ _ _) as [d|e]; split.
    - intro H. injection H as H. exists d. split; [reflexivity | exact H].
    - intros [d' [Hd Heq]]. injection Hd as <-. rewrite Heq. reflexivity.
    - discriminate.
    - intros [d' [Hd _]]. discriminate. }
  split.
  { intro e. destruct (calculate_checksum _ _ _ _ _ _ _); split; congruence. }
  split.
  { intros msg Hopen. unfold calculate_checksum. rewrite Hopen.
    eexists. split; reflexivity. }
  intros prefix msg rest Hopen Hall.
  unfold calculate_checksum. rewrite Hopen, hash_loop_read_error by exact Hall.
  split; reflexivity.
Qed.

End Facts.

(** A run of [verify_file] on a file of two chunks, with a stand-in hash
    whose digest is "00ff"; the expected string differs only in case. *)
Lemma verify_file_spec_witness :
  let h_new := fun _ : ChecksumType => 0%N in
  let h_update := fun (h : N) (chunk : list Byte.byte) => (h + N.of_nat (List.length chunk))%N in
  let h_final := fun _ : N => "00ff"%string in
  let files := fun p : string =>
    if String.eqb p "/tmp/a.iso" then Ok [ReadBytes [Byte.x00]; ReadBytes [Byte.x01]]
    else Err "No such file or directory" in
  verify_file N h_new h_update h_final files "/tmp/a.iso" "00FF" Sha256 = Ok true /\
  exists digest,
    calculate_checksum N h_new h_update h_final files "/tmp/a.iso" Sha256 = Ok digest /\
    String.eqb (to_lowercase digest) (to_lowercase "00FF") = true.
Proof.
  intros h_new h_update h_final files.
  split; [reflexivity|].
  apply (proj1 (proj1 (verify_file_spec N h_new h_update h_final files
                         "/tmp/a.iso" "00FF" Sha256))).
  reflexivity.
Defined.

End ChecksumFacts.

(* ------------------------------------------------------------------ *)
(** ** The status check of an attempt (C6) *)

Module AttemptFacts.
Import Engine Attempt.

Section Facts.
Variable path_exists : string -> bool.
Variable metadata_len : string -> result N.
Variable send : string -> option string -> option N -> result Response.
Variable status_display : N -> string.
Variable open_append : string -> result unit.
Variable seek_end : result unit.
Variable create_parent_dirs : string -> result unit.
Variable create_file : string -> result unit.
Variable write_all : list Byte.byte -> result unit.
Variable flush : result unit.

Let attempt := download_attempt path_exists metadata_len send status_display open_append
                 seek_end create_parent_dirs create_file write_all flush.

(** C6 (amended).  Once the request is sent, the status check fails the
    attempt, with "HTTP request failed with status: <status>", exactly
    when the status is outside 200 ..= 299; for every 2xx status (203 and
    204 as well as 200 and 206) the outcome is that of receiving the
    body. *)
Theorem attempt_status_check (req : DownloadRequest) (resume_from existing_size : N)
  (response : Response) :
  resume_point path_exists metadata_len req = Ok (resume_from, existing_size) ->
  send (url req) (user_agent req)
       (if (0 <? resume_from)%N then Some resume_from else None) = Ok response ->
  ((status response < 200 \/ 299 < status response)%N ->
     attempt req = Err ("HTTP request failed with status: " ++ status_display (status response))) /\
  ((200 <= status response <= 299)%N ->
     attempt req = receive_body open_append seek_end create_parent_dirs create_file write_all
                     flush req resume_from existing_size response).
Proof.
  intros Hpre Hsend. unfold attempt, download_attempt. rewrite Hpre, Hsend.
  unfold is_success. split.
  - intros Hout.
    assert ((200 <=? status response)%N && (status response <=? 299)%N = false) as ->.
    { apply andb_false_iff. destruct Hout as [H|H]; [left|right];
        [apply N.leb_gt | apply N.leb_gt]; lia. }
    assert ((status response =? 206)%N = false) as ->.
    { apply N.eqb_neq. lia. }
    reflexivity.
  - intros [Hlo Hhi].
    assert ((200 <=? status response)%N && (status response <=? 299)%N = true) as ->.
    { apply andb_true_iff. split; apply N.leb_le; lia. }
    reflexivity.
Qed.

End Facts.

(** A server that answers with a given status and body, on a fresh file. *)
Definition no_file (_ : string) : bool := false.
Definition no_metadata (_ : string) : result N := Ok 0%N.
Definition reply (code : N) (chunks : list (list Byte.byte)) : Response :=
  mkResponse code None (Some (N.of_nat (List.length (List.concat chunks)))) (map Ok chunks).
Definition answer (code : N) (chunks : list (list Byte.byte))
  (_ : string) (_ : option string) (_ : option N) : result Response :=
  Ok (reply code chunks).
Definition fs_ok (_ : string) : result unit := Ok tt.
Definition write_ok (_ : list Byte.byte) : result unit := Ok tt.

(** [StatusCode]'s display for the codes used below. *)
Definition status_text (code : N) : string :=
  if (code =? 203)%N then "203 Non Authoritative Information"
  else if (code =? 204)%N then "204 No Content"
  else if (code =? 206)%N then "206 Partial Content"
  else if (code =? 404)%N then "404 Not Found"
  else "200 OK".

Definition iso_request : DownloadRequest :=
  mkDownloadRequest "https://cdimage.debian.org/debian-12.5.0-amd64-netinst.iso"
    "/tmp/debian-12.5.0-amd64-netinst.iso" None None None true.

Definition run_attempt (code : N) (chunks : list (list Byte.byte)) : result N :=
  download_attempt no_file no_metadata (answer code chunks) status_text fs_ok (Ok tt)
    fs_ok fs_ok write_ok (Ok tt) iso_request.

Example attempt_404 :
  run_attempt 404 [[Byte.x01; Byte.x02]] = Err "HTTP request failed with status: 404 Not Found".
Proof. reflexivity. Qed.
Example attempt_206 : run_attempt 206 [[Byte.x01; Byte.x02]] = Ok 2%N.
Proof. reflexivity. Qed.

(** C6 counterexample: a 203 response with a two-byte body, and a 204
    response (which hyper hands over without a body), neither of them 200
    or 206, make successful attempts: 2 and 0 bytes received. *)
Lemma attempt_accepts_203_204 :
  receivable (reply 203 [[Byte.x01; Byte.x02]]) = true /\
  run_attempt 203 [[Byte.x01; Byte.x02]] = Ok 2%N /\
  receivable (reply 204 []) = true /\
  run_attempt 204 [] = Ok 0%N /\
  203%N <> 200%N /\ 203%N <> 206%N /\ 204%N <> 200%N /\ 204%N <> 206%N.
Proof.
  split; [reflexivity|]. split; [reflexivity|]. split; [reflexivity|].
  split; [reflexivity|]. repeat split; discriminate.
Qed.

Lemma attempt_status_check_witness :
  resume_point no_file no_metadata iso_request = Ok (0%N, 0%N) /\
  answer 203 [[Byte.x01; Byte.x02]] (url iso_request) (user_agent iso_request) None =
    Ok (reply 203 [[Byte.x01; Byte.x02]]) /\
  run_attempt 203 [[Byte.x01; Byte.x02]] =
    receive_body fs_ok (Ok tt) fs_ok fs_ok write_ok (Ok tt) iso_request 0 0
      (reply 203 [[Byte.x01; Byte.x02]]).
Proof.
  split; [reflexivity|]. split; [reflexivity|].
  apply (proj2 (attempt_status_check no_file no_metadata (answer 203 [[Byte.x01; Byte.x02]])
                  status_text fs_ok (Ok tt) fs_ok fs_ok write_ok (Ok tt) iso_request 0 0
                  (reply 203 [[Byte.x01; Byte.x02]])
                  eq_refl eq_refl)).
  simpl. lia.
Defined.

End AttemptFacts.

(* ------------------------------------------------------------------ *)
(** ** Filename generation (C7) *)

Module RegistryFacts.
Import Registry.
Local Open Scope string_scope.
Local Open Scope list_scope.

(** Whether [pat] occurs anywhere in [s]. *)
Fixpoint occurs (pat s : string) : bool :=
  match s with
  | EmptyString => String.prefix pat s
  | String _ s' => String.prefix pat s || occurs pat s'
  end.

Example ubuntu_example :
  generate_filename (distro "ubuntu" "ubuntu-{version}-{variant}-{arch}.iso")
    "22.04" "amd64" (Some "desktop") = Ok "ubuntu-22.04-desktop-amd64.iso".
Proof. reflexivity. Qed.

Lemma prefix_app_l (p q s : string) : String.prefix (p ++ q) s = true -> String.prefix p s = true.
Proof.
  revert s; induction p as [|c p IH]; intros s H; [destruct s; reflexivity|].
  destruct s as [|c' s]; simpl in H |- *; [discriminate|].
  destruct (ascii_dec c c'); [apply IH; exact H | discriminate].
Qed.

Lemma prefix_occurs (p s : string) : String.prefix p s = true -> occurs p s = true.
Proof. destruct s; cbn [occurs]; intro H; rewrite H; reflexivity. Qed.

Lemma occurs_app_l (p q s : string) : occurs (p ++ q) s = true -> occurs p s = true.
Proof.
  induction s as [|c s IH]; cbn [occurs]; intro H.
  - apply (prefix_app_l p q). exact H.
  - apply orb_true_iff in H as [H|H]; apply orb_true_iff;
      [left; apply (prefix_app_l p q); exact H | right; apply IH; exact H].
Qed.

Lemma occurs_cons (c : ascii) (p s : string) : occurs (String c p) s = true -> occurs p s = true.
Proof.
  induction s as [|c' s IH]; cbn [occurs]; [discriminate|].
  intro H. apply orb_true_iff in H as [H|H]; apply orb_true_iff; right.
  - simpl in H. destruct (ascii_dec c c'); [|discriminate].
    apply prefix_occurs. exact H.
  - apply IH. exact H.
Qed.

Lemma replace_no_occurrence (s from to : string) :
  occurs from s = false -> replace s from to = s.
Proof.
  intro H. destruct from as [|c from'].
  - destruct s; discriminate.
  - unfold replace. remember (String c from') as pat.
    clear Heqpat. induction s as [|c' s IH]; [reflexivity|].
    cbn [occurs] in H. cbn [replace_go]. apply orb_false_iff in H as [Hp Ho].
    rewrite Hp, IH by exact Ho. reflexivity.
Qed.

Lemma not_occurs_extended (p q s : string) :
  occurs p s = false -> occurs (p ++ q) s = false /\ occurs (q ++ p) s = false.
Proof.
  intro H. split.
  - destruct (occurs (p ++ q) s) eqn:E; [|reflexivity].
    rewrite (occurs_app_l p q s E) in H. discriminate.
  - destruct (occurs (q ++ p) s) eqn:E; [|reflexivity].
    induction q as [|c q IH]; [simpl in E; congruence|].
    apply IH. apply (occurs_cons c). exact E.
Qed.

(** The pattern with [{distro}], [{version}] and [{arch}] substituted. *)
Definition substituted (definition : DistroDefinition) (version architecture : string) :=
  replace (replace (replace (filename_pattern definition) "{distro}" (name definition))
             "{version}" version) "{arch}" architecture.

Local Open Scope string_scope.

(** *** The pieces between the placeholders *)

(** [p ++ sep ++ q1 ++ sep ++ ... ++ sep ++ qn]. *)
Fixpoint join (sep p : string) (qs : list string) : string :=
  match qs with
  | [] => p
  | q :: qs' => p ++ sep ++ join sep q qs'
  end.

Definition joinp (sep : string) (x : string * list string) : string := join sep (fst x) (snd x).

Fixpoint no_brace (s : string) : bool :=
  match s with
  | EmptyString => true
  | String c s' => negb (Ascii.eqb c "{") && no_brace s'
  end.

Definition drop_first (s : string) : string :=
  match s with EmptyString => EmptyString | String _ s' => s' end.

Fixpoint drop_last (s : string) : string :=
  match s with
  | EmptyString => EmptyString
  | String c s' =>
      match s' with EmptyString => EmptyString | _ => String c (drop_last s') end
  end.

Definition starts (l : ascii) (s : string) : bool :=
  match s with EmptyString => false | String c _ => Ascii.eqb c l end.

Fixpoint ends (l : ascii) (s : string) : bool :=
  match s with
  | EmptyString => false
  | String c s' => match s' with EmptyString => Ascii.eqb c l | _ => ends l s' end
  end.

Definition starts_sep (s : string) : bool := starts "-" s || starts "_" s.
Definition ends_sep (s : string) : bool := ends "-" s || ends "_" s.

(** [f] holds of every piece but the last. *)
Fixpoint inner (f : string -> bool) (qs : list string) : bool :=
  match qs with
  | [] => true
  | q :: qs' => match qs' with [] => true | _ => f q && inner f qs' end
  end.

Definition inner_long (qs : list string) : bool :=
  inner (fun q => Nat.leb 2 (String.length q)) qs.

(** The name expected without a variant: left to right, each placeholder
    goes with the '-' or '_' just before it, if there is one, else with
    the '-' or '_' just after it, if there is one, else alone. *)
Fixpoint strip_variant (p : string) (qs : list string) : string :=
  match qs with
  | [] => p
  | q :: qs' =>
      if ends_sep p then drop_last p ++ strip_variant q qs'
      else p ++ strip_variant (if starts_sep q then drop_first q else q) qs'
  end.

(** One removal pass on the pieces: "<l>{variant}" ([lpass (ends l)]),
    merging a piece ending in [l], less that character, with the next
    one; "{variant}<l>" ([rpass (starts l)]), merging a piece with the
    next one, less its first character when it starts with [l]. *)
Definition glue_front (a : string) (x : string * list string) : string * list string :=
  (a ++ fst x, snd x).
Definition push (p : string) (x : string * list string) : string * list string :=
  (p, fst x :: snd x).

Fixpoint lpass (e : string -> bool) (p : string) (qs : list string) : string * list string :=
  match qs with
  | [] => (p, [])
  | q :: qs' => if e p then glue_front (drop_last p) (lpass e q qs') else push p (lpass e q qs')
  end.

Fixpoint rpass (s : string -> bool) (p : string) (qs : list string) : string * list string :=
  match qs with
  | [] => (p, [])
  | q :: qs' =>
      if s q then glue_front p (rpass s (drop_first q) qs') else push p (rpass s q qs')
  end.

Definition lpassp (e : string -> bool) (x : string * list string) := lpass e (fst x) (snd x).
Definition rpassp (s : string -> bool) (x : string * list string) := rpass s (fst x) (snd x).

(** ** Strings *)

Lemma app_nil_s (s : string) : s ++ "" = s.
Proof. induction s as [|c s IH]; simpl; [reflexivity | rewrite IH; reflexivity]. Qed.

Lemma app_assoc_s (a b c : string) : (a ++ b) ++ c = a ++ (b ++ c).
Proof. induction a as [|x a IH]; simpl; [reflexivity | rewrite IH; reflexivity]. Qed.

Lemma prefix_self_app (s r : string) : String.prefix s (s ++ r) = true.
Proof.
  induction s as [|c s IH]; [destruct r; reflexivity|].
  simpl. destruct (ascii_dec c c) as [_|n]; [exact IH | contradiction n; reflexivity].
Qed.

Lemma no_brace_app (a b : string) : no_brace (a ++ b) = no_brace a && no_brace b.
Proof. induction a as [|c a IH]; simpl; [reflexivity | rewrite IH, andb_assoc; reflexivity]. Qed.

Lemma no_brace_drop_first (s : string) : no_brace s = true -> no_brace (drop_first s) = true.
Proof. destruct s as [|c s]; simpl; [trivial | intro H; apply andb_true_iff in H; apply H]. Qed.

Lemma no_brace_drop_last (s : string) : no_brace s = true -> no_brace (drop_last s) = true.
Proof.
  induction s as [|c s IH]; [trivial|]. intro H. simpl in H. apply andb_true_iff in H as [Hc Hs].
  destruct s as [|c' s']; [reflexivity|].
  change (no_brace (String c (drop_last (String c' s'))) = true).
  simpl. rewrite Hc. apply IH. exact Hs.
Qed.

Lemma drop_last_app (a r : string) : r <> "" -> drop_last (a ++ r) = a ++ drop_last r.
Proof.
  intro Hr. induction a as [|c a IH]; [reflexivity|].
  simpl. rewrite IH. destruct a as [|c' a']; simpl.
  - destruct r; [contradiction | reflexivity].
  - reflexivity.
Qed.

Lemma drop_last_snoc (d : string) (c : ascii) : drop_last (d ++ String c "") = d.
Proof.
  induction d as [|x d IH]; [reflexivity|].
  simpl. rewrite IH. destruct d; reflexivity.
Qed.

Lemma ends_split (l : ascii) (p : string) : ends l p = true -> exists d, p = d ++ String l "".
Proof.
  induction p as [|c p IH]; [discriminate|]. intro H.
  destruct p as [|c' p'].
  - exists "". simpl in H. apply Ascii.eqb_eq in H. subst. reflexivity.
  - destruct (IH H) as [d Hd]. exists (String c d). rewrite Hd. reflexivity.
Qed.

Lemma ends_app (l : ascii) (a x : string) : x <> "" -> ends l (a ++ x) = ends l x.
Proof.
  intro Hx. induction a as [|c a IH]; [reflexivity|].
  simpl. rewrite IH. destruct a; simpl; [destruct x; [contradiction|] | ]; reflexivity.
Qed.

Lemma length_drop_last (s : string) : String.length (drop_last s) = String.length s - 1.
Proof.
  induction s as [|c s IH]; [reflexivity|].
  destruct s as [|c' s']; [reflexivity|].
  change (S (String.length (drop_last (String c' s'))) = S (String.length (String c' s')) - 1).
  rewrite IH. simpl. lia.
Qed.

Lemma nonempty_of_length (s : string) : 1 <= String.length s -> s <> "".
Proof. destruct s; simpl; [lia | discriminate]. Qed.

Lemma starts_app (l : ascii) (a x : string) : a <> "" -> starts l (a ++ x) = starts l a.
Proof. destruct a; [contradiction | reflexivity]. Qed.

Lemma starts_drop_last (l : ascii) (s : string) :
  2 <= String.length s -> starts l (drop_last s) = starts l s.
Proof. destruct s as [|c [|c' s]]; simpl; intro H; [lia | lia | reflexivity]. Qed.

Lemma ends_drop_first (l : ascii) (s : string) :
  2 <= String.length s -> ends l (drop_first s) = ends l s.
Proof. destruct s as [|c [|c' s]]; simpl; intro H; [lia | lia | reflexivity]. Qed.

Lemma drop_first_app (a x : string) : a <> "" -> drop_first (a ++ x) = drop_first a ++ x.
Proof. destruct a; [contradiction | reflexivity]. Qed.

Lemma drop_last_drop_first (s : string) : drop_last (drop_first s) = drop_first (drop_last s).
Proof. destruct s as [|c [|c' s]]; reflexivity. Qed.

Lemma join_app_head (sep a r : string) (rs : list string) :
  join sep (a ++ r) rs = a ++ join sep r rs.
Proof. destruct rs; simpl; [reflexivity | apply app_assoc_s]. Qed.

(** ** [str::replace] over the pieces *)

Section Rep.
Variable to : string.

Lemma rep_skip (pat x r : string) :
  replace_go pat to (String.length x) (x ++ r) = replace_go pat to 0 r.
Proof. induction x as [|c x IH]; [reflexivity | exact IH]. Qed.

Lemma rep_match (c : ascii) (pat r : string) :
  replace_go (String c pat) to 0 (String c pat ++ r) = to ++ replace_go (String c pat) to 0 r.
Proof.
  change (String c pat ++ r) with (String c (pat ++ r)). cbn [replace_go].
  assert (String.prefix (String c pat) (String c (pat ++ r)) = true) as Hp
    by exact (prefix_self_app (String c pat) r).
  rewrite Hp.
  replace (String.length (String c pat) - 1) with (String.length pat) by (simpl; lia).
  rewrite rep_skip. reflexivity.
Qed.

Lemma rep_step (pat : string) (c : ascii) (r : string) :
  String.prefix pat (String c r) = false ->
  replace_go pat to 0 (String c r) = String c (replace_go pat to 0 r).
Proof. intro H. cbn [replace_go]. rewrite H. reflexivity. Qed.

(** A pattern starting with '{' never matches inside a piece. *)
Lemma rep_brace (pat L Y : string) :
  no_brace L = true ->
  replace_go (String "{" pat) to 0 (L ++ Y) = L ++ replace_go (String "{" pat) to 0 Y.
Proof.
  induction L as [|c L IH]; intro H; [reflexivity|].
  simpl in H. apply andb_true_iff in H as [Hc HL].
  change (String c L ++ Y) with (String c (L ++ Y)).
  rewrite rep_step.
  - rewrite IH by exact HL. reflexivity.
  - cbn [String.prefix]. destruct (ascii_dec "{" c) as [<-|]; [discriminate Hc | reflexivity].
Qed.

(** A pattern "<l>{..." matches inside a piece only at its last character,
    before a '{'. *)
Lemma rep_sep (l : ascii) (pat L Y : string) :
  l <> "{"%char -> no_brace L = true -> (ends l L = false \/ starts "{" Y = false) ->
  replace_go (String l (String "{" pat)) to 0 (L ++ Y) =
  L ++ replace_go (String l (String "{" pat)) to 0 Y.
Proof.
  intros Hl. induction L as [|c L IH]; intros H Hend; [reflexivity|].
  simpl in H. apply andb_true_iff in H as [Hc HL].
  change (String c L ++ Y) with (String c (L ++ Y)).
  rewrite rep_step.
  - rewrite IH; [reflexivity | exact HL |].
    destruct L as [|c' L']; [left; reflexivity|]. exact Hend.
  - cbn [String.prefix]. destruct (ascii_dec l c) as [<-|]; [|reflexivity].
    destruct L as [|c' L']; cbn [String.prefix append].
    + destruct Hend as [Hend|Hend].
      * simpl in Hend. rewrite Ascii.eqb_refl in Hend. discriminate.
      * destruct Y as [|c' Y']; [reflexivity|]. simpl in Hend. cbn [String.prefix].
        destruct (ascii_dec "{" c') as [<-|]; [discriminate Hend | reflexivity].
    + simpl in HL. apply andb_true_iff in HL as [Hc' _].
      destruct (ascii_dec "{" c') as [<-|]; [discriminate Hc' | reflexivity].
Qed.

Lemma rep_l_ph (l : ascii) (R : string) :
  l = "-"%char \/ l = "_"%char ->
  replace_go (String l "{variant}") to 0 ("{variant}" ++ R) =
  "{variant}" ++ replace_go (String l "{variant}") to 0 R.
Proof. intros [-> | ->]; reflexivity. Qed.

Lemma rep_r_ph (l : ascii) (pat R : string) :
  pat = "{variant}" ++ String l "" -> l = "-"%char \/ l = "_"%char -> starts l R = false ->
  replace_go pat to 0 ("{variant}" ++ R) = "{variant}" ++ replace_go pat to 0 R.
Proof.
  intros -> Hl HR.
  change ("{variant}" ++ R) with (String "{" ("variant}" ++ R)).
  change ("{variant}" ++ String l "") with (String "{" ("variant}" ++ String l "")).
  rewrite rep_step.
  - rewrite rep_brace by reflexivity. reflexivity.
  - destruct R as [|c R']; [destruct Hl as [-> | ->]; reflexivity|].
    simpl in HR. cbn [String.prefix append]. destruct (ascii_dec l c) as [<-|]; [|reflexivity].
    rewrite Ascii.eqb_refl in HR. discriminate.
Qed.

End Rep.

(** Replacing every placeholder. *)
Lemma replace_ph (to p : string) (qs : list string) :
  forallb no_brace (p :: qs) = true ->
  replace_go "{variant}" to 0 (join "{variant}" p qs) = join to p qs.
Proof.
  revert p; induction qs as [|q qs IH]; intros p H; simpl in H; apply andb_true_iff in H as [Hp Hqs].
  - simpl. rewrite <- (app_nil_s p) at 1. rewrite rep_brace by exact Hp.
    rewrite app_nil_s. reflexivity.
  - cbn [join]. rewrite rep_brace by exact Hp.
    rewrite (rep_match to "{" "variant}"). rewrite IH by exact Hqs. reflexivity.
Qed.

Lemma lpass_replace (l : ascii) (p : string) (qs : list string) :
  l = "-"%char \/ l = "_"%char -> forallb no_brace (p :: qs) = true ->
  replace_go (String l "{variant}") "" 0 (join "{variant}" p qs) =
  joinp "{variant}" (lpass (ends l) p qs).
Proof.
  intro Hl. assert (l <> "{"%char) as Hlb by (destruct Hl as [-> | ->]; discriminate).
  revert p; induction qs as [|q qs IH]; intros p H; simpl in H; apply andb_true_iff in H as [Hp Hqs].
  - simpl. rewrite <- (app_nil_s p) at 1. rewrite rep_sep by (auto || (right; reflexivity)).
    rewrite app_nil_s. reflexivity.
  - cbn [join lpass]. destruct (ends l p) eqn:He.
    + destruct (ends_split l p He) as [d ->].
      rewrite no_brace_app in Hp. apply andb_true_iff in Hp as [Hd _].
      rewrite drop_last_snoc, app_assoc_s.
      rewrite rep_sep; [| exact Hlb | exact Hd | right; simpl; destruct (Ascii.eqb l "{") eqn:E;
                          [apply Ascii.eqb_eq in E; contradiction | reflexivity]].
      change (String l "" ++ "{variant}" ++ join "{variant}" q qs)
        with (String l "{variant}" ++ join "{variant}" q qs).
      rewrite rep_match, IH by exact Hqs. unfold joinp, glue_front. simpl.
      rewrite join_app_head. reflexivity.
    + rewrite rep_sep by auto. rewrite rep_l_ph by exact Hl. rewrite IH by exact Hqs.
      reflexivity.
Qed.

Lemma rpass_replace (l : ascii) (pat p : string) (qs : list string) :
  pat = "{variant}" ++ String l "" -> l = "-"%char \/ l = "_"%char ->
  forallb no_brace (p :: qs) = true ->
  replace_go pat "" 0 (join "{variant}" p qs) = joinp "{variant}" (rpass (starts l) p qs).
Proof.
  intros Hpat Hl.
  assert (pat = String "{" ("variant}" ++ String l "")) as Hpat' by (rewrite Hpat; reflexivity).
  revert p; induction qs as [|q qs IH]; intros p H; simpl in H; apply andb_true_iff in H as [Hp Hqs].
  - simpl. rewrite <- (app_nil_s p) at 1. rewrite Hpat', rep_brace by exact Hp.
    rewrite app_nil_s. reflexivity.
  - cbn [join rpass]. apply andb_true_iff in Hqs as [Hq Hqs'].
    rewrite Hpat' at 1. rewrite rep_brace by exact Hp. rewrite <- Hpat'.
    destruct (starts l q) eqn:Hs.
    + destruct q as [|c q']; [discriminate|]. simpl in Hs. apply Ascii.eqb_eq in Hs. subst c.
      replace ("{variant}" ++ join "{variant}" (String l q') qs)
        with (pat ++ join "{variant}" q' qs)
        by (rewrite Hpat, app_assoc_s; change (String l q') with (String l "" ++ q');
            rewrite join_app_head; reflexivity).
      rewrite Hpat'. rewrite rep_match. rewrite <- Hpat'.
      rewrite IH by (simpl; rewrite Hqs'; simpl in Hq; apply andb_true_iff in Hq as [_ Hq]; rewrite Hq; reflexivity).
      unfold joinp, glue_front. simpl. rewrite join_app_head. reflexivity.
    + assert (starts l (join "{variant}" q qs) = false) as HJ.
      { destruct q as [|c q'].
        - destruct qs; simpl; [reflexivity|]. destruct Hl as [-> | ->]; reflexivity.
        - change (String c q') with (String c "" ++ q'). rewrite join_app_head. exact Hs. }
      rewrite (rep_r_ph "" l pat) by assumption.
      rewrite IH by (simpl; rewrite Hq, Hqs'; reflexivity). reflexivity.
Qed.

(** ** The passes on the pieces *)

Lemma lpass_nobrace (e : string -> bool) (p : string) (qs : list string) :
  forallb no_brace (p :: qs) = true ->
  forallb no_brace (fst (lpass e p qs) :: snd (lpass e p qs)) = true.
Proof.
  revert p; induction qs as [|q qs IH]; intros p H; [exact H|].
  simpl in H. apply andb_true_iff in H as [Hp Hqs].
  specialize (IH q Hqs). simpl in IH. apply andb_true_iff in IH as [H1 H2].
  cbn [lpass]. destruct (e p); simpl.
  - rewrite no_brace_app, no_brace_drop_last, H1, H2 by exact Hp. reflexivity.
  - rewrite Hp, H1, H2. reflexivity.
Qed.

Lemma rpass_nobrace (s : string -> bool) (p : string) (qs : list string) :
  forallb no_brace (p :: qs) = true ->
  forallb no_brace (fst (rpass s p qs) :: snd (rpass s p qs)) = true.
Proof.
  revert p; induction qs as [|q qs IH]; intros p H; [exact H|].
  simpl in H. apply andb_true_iff in H as [Hp Hqs]. apply andb_true_iff in Hqs as [Hq Hqs].
  cbn [rpass]. destruct (s q).
  - assert (forallb no_brace (drop_first q :: qs) = true) as H'
      by (simpl; rewrite no_brace_drop_first, Hqs by exact Hq; reflexivity).
    specialize (IH _ H'). simpl in IH |- *. apply andb_true_iff in IH as [H1 H2].
    rewrite no_brace_app, Hp, H1, H2. reflexivity.
  - assert (forallb no_brace (q :: qs) = true) as H' by (simpl; rewrite Hq, Hqs; reflexivity).
    specialize (IH _ H'). simpl in IH |- *. apply andb_true_iff in IH as [H1 H2].
    rewrite Hp, H1, H2. reflexivity.
Qed.

Lemma inner_cons (f : string -> bool) (q : string) (qs : list string) :
  inner f (q :: qs) = true -> inner f qs = true /\ (qs <> [] -> f q = true).
Proof.
  destruct qs as [|q' qs]; simpl; [intros _; split; [reflexivity | contradiction]|].
  intro H. apply andb_true_iff in H as [H1 H2]. split; [exact H2 | intros _; exact H1].
Qed.

Lemma lpass_app_head (e : string -> bool) (a r : string) (rs : list string) :
  (forall x, x <> "" -> e (a ++ x) = e x) -> r <> "" \/ rs = [] ->
  lpass e (a ++ r) rs = glue_front a (lpass e r rs).
Proof.
  intros He Hr. destruct rs as [|q qs]; [reflexivity|].
  destruct Hr as [Hr|Hr]; [|discriminate].
  cbn [lpass]. rewrite (He r Hr). destruct (e r); unfold glue_front, push; simpl.
  - rewrite drop_last_app, app_assoc_s by exact Hr. reflexivity.
  - reflexivity.
Qed.

Lemma rpass_app_head (s : string -> bool) (a r : string) (rs : list string) :
  rpass s (a ++ r) rs = glue_front a (rpass s r rs).
Proof.
  destruct rs as [|q qs]; [reflexivity|].
  cbn [rpass]. destruct (s q); unfold glue_front, push; simpl; [rewrite app_assoc_s|]; reflexivity.
Qed.

Lemma lpass_head_ne (e : string -> bool) (q : string) (qs : list string) :
  (qs <> [] -> 2 <= String.length q) -> fst (lpass e q qs) <> "" \/ snd (lpass e q qs) = [].
Proof.
  destruct qs as [|q' qs]; intro H; [right; reflexivity|]. left.
  assert (2 <= String.length q) as Hq by (apply H; discriminate).
  cbn [lpass]. destruct (e q); simpl.
  - assert (drop_last q <> "") as Hd by (apply nonempty_of_length; rewrite length_drop_last; lia).
    destruct (drop_last q); [contradiction | discriminate].
  - apply nonempty_of_length. lia.
Qed.

Lemma lpass_head_starts (e : string -> bool) (l : ascii) (q : string) (qs : list string) :
  (qs <> [] -> 2 <= String.length q) -> starts l (fst (lpass e q qs)) = starts l q.
Proof.
  destruct qs as [|q' qs]; intro H; [reflexivity|].
  assert (2 <= String.length q) as Hq by (apply H; discriminate).
  cbn [lpass]. destruct (e q); simpl; [|reflexivity].
  rewrite starts_app by (apply nonempty_of_length; rewrite length_drop_last; lia).
  apply starts_drop_last. exact Hq.
Qed.

Lemma lpass_drop_first (e : string -> bool) (q : string) (qs : list string) :
  (qs <> [] -> 2 <= String.length q) ->
  (forall x, 2 <= String.length x -> e (drop_first x) = e x) ->
  lpass e (drop_first q) qs = (drop_first (fst (lpass e q qs)), snd (lpass e q qs)).
Proof.
  destruct qs as [|q' qs]; intros H He; [reflexivity|].
  assert (2 <= String.length q) as Hq by (apply H; discriminate).
  cbn [lpass]. rewrite (He q Hq). destruct (e q); unfold glue_front, push; simpl; [|reflexivity].
  rewrite drop_first_app, drop_last_drop_first
    by (apply nonempty_of_length; rewrite length_drop_last; lia).
  reflexivity.
Qed.

Lemma lpass_inner_ne (e : string -> bool) (p : string) (qs : list string) :
  inner_long qs = true -> inner (fun q => negb (String.eqb q "")) (snd (lpass e p qs)) = true.
Proof.
  revert p; induction qs as [|q qs IH]; intros p H; [reflexivity|].
  destruct (inner_cons _ q qs H) as [Hqs Hq].
  assert (qs <> [] -> 2 <= String.length q) as Hq' by (intro Hn; apply Nat.leb_le, Hq, Hn).
  cbn [lpass]. destruct (e p); simpl; [apply IH; exact Hqs|].
  specialize (IH q Hqs). pose proof (lpass_head_ne e q qs Hq') as Hh.
  destruct (lpass e q qs) as [r rs]. simpl in IH, Hh |- *.
  destruct rs as [|r2 rs2]; [reflexivity|].
  destruct Hh as [Hne|Hnil]; [|discriminate].
  change (negb (String.eqb r "") && inner (fun q => negb (String.eqb q "")) (r2 :: rs2) = true).
  rewrite IH. destruct r; [contradiction | reflexivity].
Qed.

(** The two left passes act as one with either separator. *)
Lemma lpass_seps (p : string) (qs : list string) :
  inner_long qs = true -> lpassp (ends "_") (lpass (ends "-") p qs) = lpass ends_sep p qs.
Proof.
  revert p; induction qs as [|q qs IH]; intros p H; [reflexivity|].
  destruct (inner_cons _ q qs H) as [Hqs Hq].
  assert (qs <> [] -> 2 <= String.length q) as Hq' by (intro Hn; apply Nat.leb_le, Hq, Hn).
  cbn [lpass]. unfold ends_sep at 1. destruct (ends "-" p) eqn:Em; simpl.
  - unfold lpassp, glue_front; simpl.
    rewrite lpass_app_head.
    + unfold glue_front. f_equal; [f_equal|]; rewrite <- (IH q Hqs); reflexivity.
    + intros x Hx. apply ends_app. exact Hx.
    + apply lpass_head_ne. exact Hq'.
  - unfold lpassp, push; simpl. specialize (IH q Hqs). unfold lpassp in IH. rewrite IH.
    reflexivity.
Qed.

(** The two right passes act as one with either separator. *)
Lemma rpass_seps (p : string) (qs : list string) :
  inner (fun q => negb (String.eqb q "")) qs = true ->
  rpassp (starts "_") (rpass (starts "-") p qs) = rpass starts_sep p qs.
Proof.
  revert p; induction qs as [|q qs IH]; intros p H; [reflexivity|].
  destruct (inner_cons _ q qs H) as [Hqs Hq].
  cbn [rpass]. unfold starts_sep at 1. destruct (starts "-" q) eqn:Em; simpl.
  - unfold rpassp, glue_front; simpl. rewrite rpass_app_head.
    specialize (IH (drop_first q) Hqs). unfold rpassp in IH. rewrite IH. reflexivity.
  - unfold rpassp, push; simpl.
    destruct qs as [|q2 qs'].
    + simpl. destruct (starts "_" q); reflexivity.
    + assert (q <> "") as Hne.
      { specialize (Hq ltac:(discriminate)). destruct q; [discriminate | discriminate]. }
      assert (rpass (starts "-") q (q2 :: qs') =
              glue_front q (rpass (starts "-") "" (q2 :: qs'))) as Hsplit
        by (rewrite <- rpass_app_head, app_nil_s; reflexivity).
      assert (rpass (starts "-") (drop_first q) (q2 :: qs') =
              glue_front (drop_first q) (rpass (starts "-") "" (q2 :: qs'))) as Hsplit'
        by (rewrite <- rpass_app_head, app_nil_s; reflexivity).
      rewrite Hsplit. unfold glue_front at 1 2 3 4. simpl fst. simpl snd.
      rewrite starts_app by exact Hne.
      destruct (starts "_" q) eqn:Eu.
      * rewrite drop_first_app by exact Hne.
        specialize (IH (drop_first q) Hqs). unfold rpassp in IH.
        rewrite Hsplit' in IH. unfold glue_front in IH. simpl in IH. rewrite IH. reflexivity.
      * specialize (IH q Hqs). unfold rpassp in IH. rewrite Hsplit in IH.
        unfold glue_front in IH. simpl in IH. rewrite IH. reflexivity.
Qed.

Lemma ends_sep_drop_first (x : string) :
  2 <= String.length x -> ends_sep (drop_first x) = ends_sep x.
Proof. intro H. unfold ends_sep. rewrite !ends_drop_first by exact H. reflexivity. Qed.

Lemma lpass_head_starts_sep (q : string) (qs : list string) :
  (qs <> [] -> 2 <= String.length q) -> starts_sep (fst (lpass ends_sep q qs)) = starts_sep q.
Proof. intro H. unfold starts_sep. rewrite !(lpass_head_starts ends_sep) by exact H. reflexivity. Qed.

(** Both kinds of passes together give [strip_variant]. *)
Lemma strip_variant_passes (p : string) (qs : list string) :
  inner_long qs = true -> joinp "" (rpassp starts_sep (lpass ends_sep p qs)) = strip_variant p qs.
Proof.
  revert p; induction qs as [|q qs IH]; intros p H; [reflexivity|].
  destruct (inner_cons _ q qs H) as [Hqs Hq].
  assert (qs <> [] -> 2 <= String.length q) as Hq' by (intro Hn; apply Nat.leb_le, Hq, Hn).
  cbn [lpass strip_variant]. destruct (ends_sep p).
  - unfold rpassp, glue_front; simpl. rewrite rpass_app_head. unfold joinp, glue_front; simpl.
    rewrite join_app_head. specialize (IH q Hqs). unfold joinp, rpassp in IH. rewrite IH.
    reflexivity.
  - unfold rpassp, push; simpl. rewrite (lpass_head_starts_sep q qs Hq').
    destruct (starts_sep q).
    + unfold joinp, glue_front; simpl. rewrite join_app_head.
      specialize (IH (drop_first q) Hqs). unfold joinp, rpassp in IH.
      rewrite (lpass_drop_first ends_sep q qs Hq' ends_sep_drop_first) in IH. simpl in IH.
      rewrite IH. reflexivity.
    + unfold joinp, push; simpl. specialize (IH q Hqs). unfold joinp, rpassp in IH.
      rewrite IH. reflexivity.
Qed.

Lemma replace_nonempty (s : string) (c : ascii) (pat to : string) :
  replace s (String c pat) to = replace_go (String c pat) to 0 s.
Proof. reflexivity. Qed.

(** [generate_filename] on a pattern that, once [{distro}], [{version}] and
    [{arch}] are substituted, is made of '{'-free pieces separated by
    placeholders. *)
Lemma generate_filename_pieces (definition : DistroDefinition) (version architecture p : string)
  (qs : list string) :
  substituted definition version architecture = join "{variant}" p qs ->
  forallb no_brace (p :: qs) = true ->
  (forall variant, generate_filename definition version architecture (Some variant)
                   = Ok (join variant p qs)) /\
  (inner_long qs = true ->
   generate_filename definition version architecture None = Ok (strip_variant p qs)).
Proof.
  intros Hs Hnb. unfold generate_filename. fold (substituted definition version architecture).
  rewrite Hs. split.
  - intro variant. rewrite replace_nonempty, replace_ph by exact Hnb. reflexivity.
  - intro Hlong. rewrite !replace_nonempty.
    rewrite (lpass_replace "-" p qs) by (exact Hnb || (left; reflexivity)).
    unfold joinp.
    rewrite (lpass_replace "_") by (exact (lpass_nobrace _ p qs Hnb) || (right; reflexivity)).
    fold (lpassp (ends "_") (lpass (ends "-") p qs)). rewrite lpass_seps by exact Hlong.
    set (L := lpass ends_sep p qs).
    assert (forallb no_brace (fst L :: snd L) = true) as HL by exact (lpass_nobrace _ p qs Hnb).
    unfold joinp.
    rewrite (rpass_replace "-" "{variant}-") by (exact HL || reflexivity || (left; reflexivity)).
    unfold joinp.
    rewrite (rpass_replace "_" "{variant}_")
      by (exact (rpass_nobrace _ _ _ HL) || reflexivity || (right; reflexivity)).
    fold (rpassp (starts "_") (rpass (starts "-") (fst L) (snd L))).
    rewrite rpass_seps by exact (lpass_inner_ne ends_sep p qs Hlong).
    unfold joinp. rewrite replace_ph by exact (rpass_nobrace _ _ _ HL).
    fold (rpassp starts_sep L). fold (joinp "" (rpassp starts_sep L)).
    unfold L. rewrite strip_variant_passes by exact Hlong. reflexivity.
Qed.

(** C7 (amended).  [generate_filename] substitutes [{distro}] (the
    definition's name), [{version}] and [{arch}], in that order.  Take
    the resulting string as pieces without '{' separated by "{variant}"
    placeholders, [p ++ "{variant}" ++ q1 ++ ... ++ "{variant}" ++ qn].
    With a variant, every placeholder is replaced by it.  Without one,
    when every piece strictly between two placeholders has at least two
    characters, the result is [strip_variant]: left to right, each
    placeholder is removed together with the '-' or '_' just before it if
    there is one, else with the '-' or '_' just after it if there is one,
    else alone; no other character is removed (a '/' next to the
    placeholder stays).  When no "{variant}" is left after the first
    substitutions, the result is that string, with or without a variant.
    On the patterns of the built-in distributions this gives the names
    below. *)
Theorem generate_filename_substitutions :
  (forall definition version architecture variant,
     occurs "{variant}" (substituted definition version architecture) = false ->
     generate_filename definition version architecture None
       = Ok (substituted definition version architecture) /\
     generate_filename definition version architecture (Some variant)
       = Ok (substituted definition version architecture)) /\
  (forall definition version architecture p qs,
     substituted definition version architecture = join "{variant}" p qs ->
     forallb no_brace (p :: qs) = true ->
     (forall variant, generate_filename definition version architecture (Some variant)
                      = Ok (join variant p qs)) /\
     (inner_long qs = true ->
      generate_filename definition version architecture None = Ok (strip_variant p qs))) /\
  generate_filename (distro "ubuntu" "ubuntu-{version}-{variant}-{arch}.iso")
    "22.04" "amd64" (Some "desktop") = Ok "ubuntu-22.04-desktop-amd64.iso" /\
  generate_filename (distro "ubuntu" "ubuntu-{version}-{variant}-{arch}.iso")
    "22.04" "amd64" None = Ok "ubuntu-22.04-amd64.iso" /\
  generate_filename (distro "arch" "archlinux-{version}-{arch}.iso")
    "2024.06.01" "x86_64" None = Ok "archlinux-2024.06.01-x86_64.iso" /\
  generate_filename (distro "debian" "debian-{version}-{arch}-{variant}.iso")
    "12.5.0" "amd64" None = Ok "debian-12.5.0-amd64.iso" /\
  generate_filename (distro "fedora" "Fedora-{variant}-Live-{arch}-{version}-1.5.iso")
    "40" "x86_64" None = Ok "Fedora-Live-x86_64-40-1.5.iso".
Proof.
  split.
  2:{ split; [|repeat split; reflexivity].
      intros definition version architecture p qs Hs Hnb.
      exact (generate_filename_pieces definition version architecture p qs Hs Hnb). }
  intros definition version architecture variant H.
  unfold generate_filename. fold (substituted definition version architecture).
  set (f := substituted definition version architecture) in *.
  destruct (not_occurs_extended "{variant}" "-" f H) as [H1 H2].
  destruct (not_occurs_extended "{variant}" "_" f H) as [H3 H4].
  split.
  - rewrite (replace_no_occurrence f "-{variant}" "") by exact H2.
    rewrite (replace_no_occurrence f "_{variant}" "") by exact H4.
    rewrite (replace_no_occurrence f "{variant}-" "") by exact H1.
    rewrite (replace_no_occurrence f "{variant}_" "") by exact H3.
    rewrite (replace_no_occurrence f "{variant}" "") by exact H.
    reflexivity.
  - rewrite (replace_no_occurrence f "{variant}" variant) by exact H. reflexivity.
Qed.

(** C7 counterexample.  A '/' next to an absent variant's placeholder is
    not removed, and a pattern without [{variant}] also gets [{distro}]
    substituted. *)
Lemma generate_filename_keeps_slash :
  generate_filename (distro "debian" "{version}/{variant}/{arch}.iso")
    "12.5.0" "amd64" None = Ok "12.5.0//amd64.iso" /\
  generate_filename (distro "debian" "{distro}-{version}-{arch}.iso")
    "12.5.0" "amd64" None = Ok "debian-12.5.0-amd64.iso".
Proof. split; reflexivity. Qed.

(** A pattern with the variant twice. *)
Definition ubuntu_twice : DistroDefinition :=
  distro "ubuntu" "ubuntu-{version}-{variant}-{arch}-{variant}.iso".

Lemma generate_filename_substitutions_witness :
  occurs "{variant}" (substituted (distro "arch" "archlinux-{version}-{arch}.iso")
                        "2024.06.01" "x86_64") = false /\
  generate_filename (distro "arch" "archlinux-{version}-{arch}.iso")
    "2024.06.01" "x86_64" (Some "desktop") = Ok "archlinux-2024.06.01-x86_64.iso" /\
  substituted ubuntu_twice "22.04" "amd64" = join "{variant}" "ubuntu-22.04-" ["-amd64-"; ".iso"] /\
  forallb no_brace ["ubuntu-22.04-"; "-amd64-"; ".iso"] = true /\
  inner_long ["-amd64-"; ".iso"] = true /\
  generate_filename ubuntu_twice "22.04" "amd64" (Some "desktop")
    = Ok (join "desktop" "ubuntu-22.04-" ["-amd64-"; ".iso"]) /\
  generate_filename ubuntu_twice "22.04" "amd64" None
    = Ok (strip_variant "ubuntu-22.04-" ["-amd64-"; ".iso"]) /\
  strip_variant "ubuntu-22.04-" ["-amd64-"; ".iso"] = "ubuntu-22.04-amd64.iso".
Proof.
  split; [reflexivity|].
  split.
  { apply (proj1 (generate_filename_substitutions)
             (distro "arch" "archlinux-{version}-{arch}.iso") "2024.06.01" "x86_64" "desktop").
    reflexivity. }
  split; [reflexivity|]. split; [reflexivity|]. split; [reflexivity|].
  split.
  { exact (proj1 (proj1 (proj2 generate_filename_substitutions) ubuntu_twice "22.04" "amd64"
                    "ubuntu-22.04-" ["-amd64-"; ".iso"] eq_refl eq_refl) "desktop"). }
  split.
  { exact (proj2 (proj1 (proj2 generate_filename_substitutions) ubuntu_twice "22.04" "amd64"
                    "ubuntu-22.04-" ["-amd64-"; ".iso"] eq_refl eq_refl) eq_refl). }
  reflexivity.
Defined.

End RegistryFacts.

(* ------------------------------------------------------------------ *)
(** ** [Iterator::max_by] *)

Module MaxByFacts.
Import StdExt.

Section MaxBy.
Context {A : Type} (compare : A -> A -> comparison).
Hypothesis compare_antisym : forall x y, compare y x = CompOpp (compare x y).
Hypothesis not_gt_trans :
  forall x y z, compare x y <> Gt -> compare y z <> Gt -> compare x z <> Gt.

Lemma compare_refl_not_gt (x : A) : compare x x <> Gt.
Proof.
  pose proof (compare_antisym x x) as H. destruct (compare x x); simpl in H; congruence.
Qed.

Let step := fun v1 v2 => match compare v1 v2 with Gt => v1 | _ => v2 end.

Lemma fold_max_in (xs : list A) (acc : A) :
  fold_left step xs acc = acc \/ In (fold_left step xs acc) xs.
Proof.
  revert acc; induction xs as [|x xs IH]; intro acc; cbn [fold_left In]; [left; reflexivity|].
  destruct (IH (step acc x)) as [H|H]; [rewrite H | right; right; exact H].
  unfold step. destruct (compare acc x); [right; left; reflexivity | right; left; reflexivity |].
  left; reflexivity.
Qed.

Lemma fold_max_bound (xs : list A) (acc : A) :
  compare acc (fold_left step xs acc) <> Gt /\
  forall y, In y xs -> compare y (fold_left step xs acc) <> Gt.
Proof.
  revert acc; induction xs as [|x xs IH]; intro acc; cbn [fold_left In].
  - split; [apply compare_refl_not_gt | contradiction].
  - destruct (IH (step acc x)) as [Hacc Hall].
    assert (compare acc (step acc x) <> Gt /\ compare x (step acc x) <> Gt) as [H1 H2].
    { unfold step. destruct (compare acc x) eqn:E.
      - split; [congruence | apply compare_refl_not_gt].
      - split; [congruence | apply compare_refl_not_gt].
      - split; [apply compare_refl_not_gt|].
        rewrite compare_antisym, E. discriminate. }
    split; [eapply not_gt_trans; eauto|].
    intros y [<-|Hy]; [eapply not_gt_trans; eauto | apply Hall; exact Hy].
Qed.

Lemma max_by_none (l : list A) : max_by compare l = None <-> l = [].
Proof. destruct l; simpl; split; congruence. Qed.

Lemma max_by_in (l : list A) (m : A) : max_by compare l = Some m -> In m l.
Proof.
  destruct l as [|x xs]; simpl; [discriminate|].
  intro H; injection H as <-.
  destruct (fold_max_in xs x) as [H|H]; unfold step in H; [rewrite H; left; reflexivity | right; exact H].
Qed.

Lemma max_by_max (l : list A) (m : A) :
  max_by compare l = Some m -> forall y, In y l -> compare y m <> Gt.
Proof.
  destruct l as [|x xs]; simpl; [discriminate|].
  intro H; injection H as <-.
  destruct (fold_max_bound xs x) as [Hx Hall]. unfold step in Hx, Hall.
  intros y [<-|Hy]; [exact Hx | apply Hall; exact Hy].
Qed.

End MaxBy.

End MaxByFacts.

(* ------------------------------------------------------------------ *)
(** ** The version detectors *)

Module DetectorFacts.
Import Versions VersionsFacts StdFacts StdExt Detectors MaxByFacts.

Lemma cmp_not_gt_trans (a b c : VersionInfo) :
  cmp a b <> Gt -> cmp b c <> Gt -> cmp a c <> Gt.
Proof.
  intros Hab Hbc.
  assert (newer_eq c a) as Hca.
  { apply (newer_eq_trans c b a); unfold newer_eq.
    - rewrite cmp_antisym. destruct (cmp b c); simpl; congruence.
    - rewrite cmp_antisym. destruct (cmp a b); simpl; congruence. }
  unfold newer_eq in Hca. rewrite cmp_antisym in Hca.
  destruct (cmp a c); simpl in *; congruence.
Qed.

Lemma sort_newest_first_sorted (l : list VersionInfo) :
  Sorted newer_eq (sort_by (fun a b => cmp b a) l).
Proof.
  apply (sorted_impl (not_gt (fun a b => cmp b a))).
  - unfold not_gt, newer_eq. intros a b H. rewrite (cmp_antisym b a).
    destruct (cmp b a); simpl in *; congruence.
  - apply sort_by_sorted. intros x y. apply cmp_antisym.
Qed.

Lemma sort_newest_first_strongly (l : list VersionInfo) :
  StronglySorted newer_eq (sort_by (fun a b => cmp b a) l).
Proof.
  apply Sorted_StronglySorted; [exact newer_eq_trans | apply sort_newest_first_sorted].
Qed.

Lemma type_priority_stable_lts (v : VersionInfo) :
  is_stable_or_lts v = true -> type_priority (release_type v) <= 110 /\
  (type_priority (release_type v) = 110 -> release_type v = LTS).
Proof. unfold is_stable_or_lts. destruct (release_type v); simpl; intuition (discriminate || lia). Qed.

(** X1.  [get_latest_stable] on the versions a detector reports: it fails,
    with "No stable versions found" and no other error, exactly when none
    is [Stable] or [LTS]; it returns a version exactly when one is
    [Stable] or [LTS]; and what it returns is one of
    the reported [Stable]/[LTS] versions that no other such version
    exceeds, and an [LTS] one whenever an [LTS] version is reported, even
    when a [Stable] version has higher numbers. *)
Theorem get_latest_stable_spec (versions : list VersionInfo) :
  (get_latest_stable (Ok versions) = Err "No stable versions found" <->
   forall v, In v versions -> is_stable_or_lts v = false) /\
  ((exists m, get_latest_stable (Ok versions) = Ok m) <->
   exists v, In v versions /\ is_stable_or_lts v = true) /\
  (forall e : string, get_latest_stable (Ok versions) = Err e -> e = "No stable versions found"%string) /\
  (forall m, get_latest_stable (Ok versions) = Ok m ->
     In m versions /\ is_stable_or_lts m = true /\
     (forall v, In v versions -> is_stable_or_lts v = true -> cmp v m <> Gt) /\
     ((exists v, In v versions /\ release_type v = LTS) -> release_type m = LTS)).
Proof.
  unfold get_latest_stable.
  split.
  - destruct (max_by cmp (filter is_stable_or_lts versions)) as [m|] eqn:E; split.
    + discriminate.
    + intro Hnone. apply max_by_in in E. apply filter_In in E as [Hin Hs].
      rewrite (Hnone m Hin) in Hs. discriminate.
    + intros _ v Hv. destruct (is_stable_or_lts v) eqn:Hs; [|reflexivity].
      apply max_by_none in E. exfalso.
      assert (In v (filter is_stable_or_lts versions)) as Hf by (apply filter_In; auto).
      rewrite E in Hf. exact Hf.
    + reflexivity.
  - split; [split|split].
    + intros [m Hm].
      destruct (max_by cmp (filter is_stable_or_lts versions)) as [m'|] eqn:E; [|discriminate].
      apply max_by_in in E. apply filter_In in E. exists m'. exact E.
    + intros [v Hv].
      destruct (max_by cmp (filter is_stable_or_lts versions)) as [m'|] eqn:E; [eexists; reflexivity|].
      apply max_by_none in E. apply filter_In in Hv. rewrite E in Hv. contradiction.
    + intros e He.
      destruct (max_by cmp (filter is_stable_or_lts versions)); [discriminate|].
      injection He as <-. reflexivity.
    + intros m Hm.
    destruct (max_by cmp (filter is_stable_or_lts versions)) as [m'|] eqn:E;
      [injection Hm as <- | discriminate].
    pose proof (max_by_in cmp _ _ E) as Hin. apply filter_In in Hin as [Hin Hs].
    assert (forall v, In v versions -> is_stable_or_lts v = true -> cmp v m' <> Gt) as Hmax.
    { intros v Hv Hvs. apply (max_by_max cmp cmp_antisym cmp_not_gt_trans _ _ E).
      apply filter_In; auto. }
    split; [exact Hin|]. split; [exact Hs|]. split; [exact Hmax|].
    intros [v [Hv Hlts]].
    assert (is_stable_or_lts v = true) as Hvs by (unfold is_stable_or_lts; rewrite Hlts; reflexivity).
    pose proof (Hmax v Hv Hvs) as Hle.
    destruct (type_priority_stable_lts m' Hs) as [Hm110 HmLTS].
    apply HmLTS. unfold cmp in Hle. rewrite Hlts in Hle. cbn [type_priority] in Hle.
    destruct (Nat.compare_spec 110 (type_priority (release_type m'))) as [H|H|H];
      [lia | lia | congruence].
Qed.

(** *** Collecting regex captures *)

Lemma collect_captures_in (rt : ReleaseType) (seen : list string)
  (caps : list (option string)) (v : VersionInfo) :
  In v (collect_captures rt seen caps) ->
  v = new (version v) rt /\ In (Some (version v)) caps /\ ~ In (version v) seen.
Proof.
  revert seen; induction caps as [|[s|] caps IH]; intros seen Hv; simpl in Hv;
    [contradiction| |].
  - destruct (existsb (String.eqb s) seen) eqn:E.
    + destruct (IH seen Hv) as [H1 [H2 H3]]. split; [exact H1|]. split; [right; exact H2 | exact H3].
    + destruct Hv as [<-|Hv].
      * split; [reflexivity|]. split; [left; reflexivity|].
        intro Hin. simpl in Hin. assert (existsb (String.eqb s) seen = true) as E'.
        { apply existsb_exists. exists s. split; [exact Hin | apply String.eqb_refl]. }
        congruence.
      * destruct (IH (s :: seen) Hv) as [H1 [H2 H3]].
        split; [exact H1|]. split; [right; exact H2|]. intro Hin; apply H3; right; exact Hin.
  - destruct (IH seen Hv) as [H1 [H2 H3]]. split; [exact H1|]. split; [right; exact H2 | exact H3].
Qed.

Lemma collect_captures_nodup (rt : ReleaseType) (seen : list string)
  (caps : list (option string)) :
  NoDup (map version (collect_captures rt seen caps)).
Proof.
  revert seen; induction caps as [|[s|] caps IH]; intro seen; simpl; [constructor| |auto].
  destruct (existsb (String.eqb s) seen); [auto|]. simpl. constructor; [|apply IH].
  intro Hin. apply in_map_iff in Hin as [v [Hvs Hv]].
  apply collect_captures_in in Hv as [_ [_ Hns]]. apply Hns. rewrite Hvs. left; reflexivity.
Qed.

Lemma collect_captures_complete (rt : ReleaseType) (seen : list string)
  (caps : list (option string)) (s : string) :
  In (Some s) caps -> In s seen \/ In s (map version (collect_captures rt seen caps)).
Proof.
  revert seen; induction caps as [|[s'|] caps IH]; intros seen Hin; simpl in Hin;
    [contradiction| |].
  - simpl. destruct (existsb (String.eqb s') seen) eqn:E.
    + destruct Hin as [Heq|Hin]; [|apply IH; exact Hin].
      injection Heq as <-. left. apply existsb_exists in E as [x [Hx Hsx]].
      apply String.eqb_eq in Hsx. subst. exact Hx.
    + destruct Hin as [Heq|Hin].
      * injection Heq as <-. right. left. reflexivity.
      * destruct (IH (s' :: seen) Hin) as [[<-|H]|H].
        -- right; left; reflexivity.
        -- left; exact H.
        -- right; right; exact H.
  - destruct Hin as [Heq|Hin]; [discriminate | apply IH; exact Hin].
Qed.

Lemma sorted_firstn {A : Type} (R : A -> A -> Prop) (n : nat) (l : list A) :
  Sorted R l -> Sorted R (firstn n l).
Proof.
  revert l; induction n as [|n IH]; intros l Hs; [constructor|].
  destruct l as [|x xs]; [constructor|]. simpl.
  apply Sorted_inv in Hs as [Hxs Hhd]. constructor; [apply IH; exact Hxs|].
  destruct n as [|n]; [constructor|]. destruct xs as [|y ys]; [constructor|].
  simpl. inversion Hhd; subst. constructor; assumption.
Qed.

Lemma in_firstn {A : Type} (n : nat) (l : list A) (x : A) : In x (firstn n l) -> In x l.
Proof. intro H. rewrite <- (firstn_skipn n l). apply in_or_app. left; exact H. Qed.

Lemma in_skipn {A : Type} (n : nat) (l : list A) (x : A) : In x (skipn n l) -> In x l.
Proof. intro H. rewrite <- (firstn_skipn n l). apply in_or_app. right; exact H. Qed.

Lemma strongly_sorted_app {A : Type} (R : A -> A -> Prop) (l1 l2 : list A) :
  StronglySorted R (l1 ++ l2) -> forall x y, In x l1 -> In y l2 -> R x y.
Proof.
  induction l1 as [|z l1 IH]; intros Hs x y Hx Hy; [contradiction|].
  simpl in Hs. apply StronglySorted_inv in Hs as [Hs Hall].
  destruct Hx as [<-|Hx].
  - rewrite Forall_forall in Hall. apply Hall. apply in_or_app. right; exact Hy.
  - apply IH; assumption.
Qed.

(** X2.  The feed detector's result once the regex has run: at most 20
    entries, no two with the same version string, sorted newest first,
    every one a captured string with the detector's release type; and a
    captured string that is missing from the result was cut by the limit
    of 20: the result is full and no kept version sorts below it. *)
Theorem feed_versions_spec (rt : ReleaseType) (caps : list (option string)) :
  let out := feed_versions rt caps in
  List.length out <= 20 /\
  NoDup (map version out) /\
  Sorted newer_eq out /\
  (forall v, In v out -> v = new (version v) rt /\ In (Some (version v)) caps) /\
  (forall s, In (Some s) caps -> ~ In s (map version out) ->
     List.length out = 20 /\ forall v, In v out -> cmp v (new s rt) <> Lt).
Proof.
  intro out. unfold out, feed_versions.
  set (c := collect_captures rt [] caps).
  set (srt := sort_by (fun a b => cmp b a) c).
  assert (Hperm : Permutation srt c) by apply sort_by_perm.
  assert (Hnd : NoDup (map version srt)).
  { apply (Permutation_NoDup (Permutation_map version (Permutation_sym Hperm))).
    apply collect_captures_nodup. }
  split; [apply firstn_le_length|].
  split.
  { rewrite <- firstn_map. rewrite <- (firstn_skipn 20 (map version srt)) in Hnd.
    apply NoDup_app_remove_r in Hnd. exact Hnd. }
  split; [apply sorted_firstn, sort_newest_first_sorted|].
  split.
  { intros v Hv. apply in_firstn in Hv. apply (Permutation_in _ Hperm) in Hv.
    apply collect_captures_in in Hv as [H1 [H2 _]]. split; assumption. }
  intros s Hs Hnot.
  destruct (collect_captures_complete rt [] caps s Hs) as [[]|Hc].
  apply in_map_iff in Hc as [w [Hws Hw]].
  apply (Permutation_in _ (Permutation_sym Hperm)) in Hw.
  rewrite <- (firstn_skipn 20 srt) in Hw. apply in_app_or in Hw as [Hw|Hw].
  { exfalso. apply Hnot. rewrite <- Hws. apply in_map. exact Hw. }
  assert (w = new s rt) as ->.
  { destruct (collect_captures_in rt [] caps w) as [Hw' _].
    - apply (Permutation_in _ Hperm). apply (in_skipn 20). exact Hw.
    - rewrite Hw', Hws. reflexivity. }
  split.
  { apply firstn_length_le. destruct (skipn 20 srt) eqn:E; [contradiction|].
    pose proof (f_equal (@List.length _) E) as Hl. rewrite length_skipn in Hl. simpl in Hl. lia. }
  intros v Hv. pose proof (sort_newest_first_strongly c) as Hss. fold srt in Hss.
  rewrite <- (firstn_skipn 20 srt) in Hss.
  exact (strongly_sorted_app newer_eq _ _ Hss v _ Hv Hw).
Qed.

(** X3.  The web-scraping detector's result once the regex has run: the
    captured version strings, each exactly once, all [Stable], sorted
    newest first. *)
Theorem web_versions_spec (caps : list (option string)) :
  let out := web_versions caps in
  NoDup (map version out) /\
  Sorted newer_eq out /\
  (forall s, In s (map version out) <-> In (Some s) caps) /\
  (forall v, In v out -> v = new (version v) Stable).
Proof.
  intro out. unfold out, web_versions.
  set (c := collect_captures Stable [] caps).
  assert (Hperm : Permutation (sort_by (fun a b => cmp b a) c) c) by apply sort_by_perm.
  split.
  { apply (Permutation_NoDup (Permutation_map version (Permutation_sym Hperm))).
    apply collect_captures_nodup. }
  split; [apply sort_newest_first_sorted|].
  split.
  { intro s. split.
    - intro Hs. apply in_map_iff in Hs as [v [<- Hv]].
      apply (Permutation_in _ Hperm) in Hv. apply collect_captures_in in Hv as [_ [H _]]. exact H.
    - intro Hs. destruct (collect_captures_complete Stable [] caps s Hs) as [[]|Hc].
      apply (Permutation_in _ (Permutation_map version (Permutation_sym Hperm))). exact Hc. }
  intros v Hv. apply (Permutation_in _ Hperm) in Hv. apply collect_captures_in in Hv as [H _].
  exact H.
Qed.

(** *** GitHub releases *)

Lemma github_release_info_some (incl : bool) (prefix : option string) (r : GitHubRelease)
  (v : VersionInfo) :
  github_release_info incl prefix r = Some v ->
  draft r = false /\ (prerelease r = false \/ incl = true) /\
  (release_type v = Stable <-> prerelease r = false) /\
  (release_type v = Stable \/ release_type v = RC \/ release_type v = Beta \/
   release_type v = Alpha) /\
  release_date v = option_map (before_char "T") (published_at r).
Proof.
  unfold github_release_info.
  destruct (draft r); [discriminate|].
  destruct (prerelease r) eqn:Hp, incl; simpl; try discriminate;
    (intro H; injection H as <-);
    (split; [reflexivity|]); (split; [auto|]);
    repeat match goal with
           | |- context [if ?c then _ else _] => destruct c
           | |- context [match published_at r with _ => _ end] => destruct (published_at r)
           end; simpl; intuition discriminate.
Qed.

Lemma github_release_info_kept (incl : bool) (prefix : option string) (r : GitHubRelease) :
  github_release_info incl prefix r <> None <->
  negb (draft r) && (negb (prerelease r) || incl) = true.
Proof.
  unfold github_release_info.
  destruct (draft r), (prerelease r), incl; simpl; split; intro H; try congruence;
    try discriminate; destruct (published_at r); discriminate.
Qed.

(** X4.  The versions of the GitHub detector, once the releases are
    fetched: drafts never contribute; there is one version per non-draft
    release that is not a prerelease, or per prerelease when prereleases
    are included; a version is [Stable] exactly when its release is not a
    prerelease, whatever its tag says, and otherwise [RC], [Beta] or
    [Alpha]; so without prereleases every version is [Stable].  The
    release date is the part of [published_at] before the first 'T'. *)
Theorem github_versions_spec (incl : bool) (prefix : option string)
  (releases : list GitHubRelease) :
  github_versions incl prefix releases =
    github_versions incl prefix (filter (fun r => negb (draft r)) releases) /\
  List.length (github_versions incl prefix releases) =
    List.length (filter (fun r => negb (draft r) && (negb (prerelease r) || incl)) releases) /\
  (forall r v, github_release_info incl prefix r = Some v ->
     (release_type v = Stable <-> prerelease r = false) /\
     (release_type v = Stable \/ release_type v = RC \/ release_type v = Beta \/
      release_type v = Alpha) /\
     release_date v = option_map (before_char "T") (published_at r)) /\
  (incl = false -> forall v, In v (github_versions incl prefix releases) -> release_type v = Stable).
Proof.
  split.
  { unfold github_versions. induction releases as [|r rs IH]; [reflexivity|].
    simpl. destruct (draft r) eqn:Ed; simpl.
    - unfold github_release_info at 1. rewrite Ed. exact IH.
    - destruct (github_release_info incl prefix r); rewrite IH; reflexivity. }
  split.
  { unfold github_versions. induction releases as [|r rs IH]; [reflexivity|].
    simpl. pose proof (github_release_info_kept incl prefix r) as Hk.
    destruct (github_release_info incl prefix r) as [v|];
      destruct (negb (draft r) && (negb (prerelease r) || incl)); simpl;
      try (rewrite IH; reflexivity); exfalso; destruct Hk as [H1 H2].
    - discriminate (H1 ltac:(discriminate)).
    - apply H2; reflexivity. }
  split.
  { intros r v H. destruct (github_release_info_some incl prefix r v H) as [_ [_ [H1 [H2 H3]]]].
    auto. }
  intros -> v Hv. unfold github_versions in Hv.
  induction releases as [|r rs IH]; simpl in Hv; [contradiction|].
  destruct (github_release_info false prefix r) as [w|] eqn:E; [|auto].
  destruct Hv as [<-|Hv]; [|auto].
  destruct (github_release_info_some false prefix r w E) as [_ [Hp [H1 _]]].
  apply H1. destruct Hp as [Hp|Hp]; [exact Hp | discriminate].
Qed.

(** *** The API detector *)

Lemma string_length_append (a b : string) :
  String.length (a ++ b) = String.length a + String.length b.
Proof. induction a as [|c a IH]; simpl; [reflexivity | rewrite IH; reflexivity]. Qed.

Lemma string_eqb_app_neq (a b : string) :
  b <> EmptyString -> String.eqb a (a ++ b) = false.
Proof.
  intro Hb. apply String.eqb_neq. intro H.
  apply (f_equal String.length) in H. rewrite string_length_append in H.
  destruct b; [congruence|]. simpl in H. lia.
Qed.

Lemma strip_prefix_app (p s : string) : strip_prefix p (p ++ s) = Some s.
Proof.
  unfold strip_prefix. induction p as [|c p IH]; simpl.
  - destruct s; reflexivity.
  - destruct (ascii_dec c c) as [_|Hn]; [|congruence].
    destruct (String.prefix p (p ++ s)); [|discriminate].
    injection IH as IH. rewrite IH. reflexivity.
Qed.

(** X5.  The API detector, once the JSON response is parsed: a path that
    does not start with "$." finds nothing, nor does a response that is
    not an array; a path "$.f" reads the member [f] of each array item
    that is an object whose member is a JSON string, in order, as a
    [Stable] version; a dotted path "$.a.b" is looked up as the single
    member name "a.b", so nested members are never reached. *)
Theorem api_versions_spec :
  (forall path json, String.prefix "$." path = false -> api_versions path json = []) /\
  (forall path json, (forall items, json <> Array items) -> api_versions path json = []) /\
  (forall f items,
     api_versions ("$." ++ f) (Array items) =
     filter_map (fun item =>
                   match item with
                   | Object members =>
                       match map_get f members with
                       | Some (Str s) => Some (new s Stable)
                       | _ => None
                       end
                   | _ => None
                   end) items) /\
  (forall f1 f2 s,
     api_versions ("$." ++ f1 ++ "." ++ f2) (Array [Object [(f1, Object [(f2, Str s)])]]) = []).
Proof.
  split.
  { intros path json Hp. destruct json; try reflexivity. simpl.
    induction items as [|it its IH]; [reflexivity|]. simpl.
    unfold extract_json_value, strip_prefix at 1. rewrite Hp. exact IH. }
  split.
  { intros path json Hj. destruct json; try reflexivity. exfalso; eapply Hj; reflexivity. }
  split.
  { intros f items. cbn [api_versions]. induction items as [|it its IH]; [reflexivity|].
    cbn [filter_map]. rewrite IH. unfold extract_json_value. rewrite strip_prefix_app.
    destruct it as [| | | | |ms]; try reflexivity. simpl.
    destruct (map_get f ms) as [[]|]; reflexivity. }
  intros f1 f2 s. cbn [api_versions filter_map]. unfold extract_json_value.
  rewrite strip_prefix_app. cbn [value_get]. unfold map_get. cbn [find fst].
  rewrite string_eqb_app_neq by discriminate. reflexivity.
Qed.

End DetectorFacts.

(* ------------------------------------------------------------------ *)
(** ** The registry *)

Module MapFacts.
Import StdExt.

Section Maps.
Context {V : Type}.

Lemma map_get_cons (k k' : string) (v : V) (m : list (string * V)) :
  map_get k ((k', v) :: m) = if String.eqb k' k then Some v else map_get k m.
Proof. unfold map_get. simpl. destruct (String.eqb k' k); reflexivity. Qed.

Lemma map_get_app (k : string) (l1 l2 : list (string * V)) :
  map_get k (l1 ++ l2) = match map_get k l1 with Some v => Some v | None => map_get k l2 end.
Proof.
  induction l1 as [|[k' v] l1 IH]; [reflexivity|].
  cbn [app]. rewrite !map_get_cons. destruct (String.eqb k' k); [reflexivity | exact IH].
Qed.

Lemma map_get_filter_same (k : string) (m : list (string * V)) :
  map_get k (filter (fun kv => negb (String.eqb (fst kv) k)) m) = None.
Proof.
  induction m as [|[k' v] m IH]; [reflexivity|]. simpl.
  destruct (String.eqb k' k) eqn:E; simpl; [exact IH|].
  rewrite map_get_cons, E. exact IH.
Qed.

Lemma map_get_filter_other (k k' : string) (m : list (string * V)) :
  k' <> k -> map_get k' (filter (fun kv => negb (String.eqb (fst kv) k)) m) = map_get k' m.
Proof.
  intro Hne. induction m as [|[k'' v] m IH]; [reflexivity|]. simpl.
  rewrite map_get_cons. destruct (String.eqb k'' k) eqn:E; simpl.
  - apply String.eqb_eq in E. subst k''.
    destruct (String.eqb k k') eqn:E'; [apply String.eqb_eq in E'; congruence | exact IH].
  - rewrite map_get_cons, IH. reflexivity.
Qed.

Lemma map_get_insert_same (k : string) (v : V) (m : list (string * V)) :
  map_get k (map_insert k v m) = Some v.
Proof.
  unfold map_insert, map_remove. cbn [snd].
  rewrite map_get_app, map_get_filter_same, map_get_cons, String.eqb_refl. reflexivity.
Qed.

Lemma map_get_insert_other (k k' : string) (v : V) (m : list (string * V)) :
  k' <> k -> map_get k' (map_insert k v m) = map_get k' m.
Proof.
  intro Hne. unfold map_insert, map_remove. cbn [snd].
  rewrite map_get_app, map_get_filter_other by exact Hne.
  destruct (map_get k' m); [reflexivity|].
  rewrite map_get_cons. destruct (String.eqb k k') eqn:E; [|reflexivity].
  apply String.eqb_eq in E; congruence.
Qed.

Lemma contains_key_iff (k : string) (m : list (string * V)) :
  contains_key k m = true <-> map_get k m <> None.
Proof. unfold contains_key. destruct (map_get k m); split; congruence. Qed.

End Maps.

End MapFacts.

Module RegistryOpsFacts.
Import Versions VersionsFacts Registry StdFacts StdExt RegistryOps MapFacts MaxByFacts
  DetectorFacts.

(** X6.  The built-in and custom distribution maps: a name is supported
    exactly when [get_distro] finds it; after [add_custom_distro] its name
    resolves to the new entry unless a built-in distribution has that name,
    which takes precedence, and other names resolve as before; removing the
    name right after adding it reports a removal and leaves only the
    built-in binding; [remove_custom_distro] touches no other name, and for
    a name that is not custom it reports [false] and changes nothing. *)
Theorem custom_distro_lookup (r : IsoRegistry) (entry : DistroEntry) (n : string) :
  let k := name (definition entry) in
  (is_supported r n = true <-> get_distro r n <> None) /\
  get_distro (add_custom_distro r entry) k =
    match map_get k (distros r) with Some d => Some d | None => Some entry end /\
  (n <> k -> get_distro (add_custom_distro r entry) n = get_distro r n) /\
  fst (remove_custom_distro (add_custom_distro r entry) k) = true /\
  get_distro (snd (remove_custom_distro (add_custom_distro r entry) k)) k =
    map_get k (distros r) /\
  (forall n', n' <> n -> get_distro (snd (remove_custom_distro r n)) n' = get_distro r n') /\
  (map_get n (custom_distros r) = None -> remove_custom_distro r n = (false, r)).
Proof.
  intro k.
  split.
  { unfold is_supported, get_distro. rewrite orb_true_iff, !contains_key_iff.
    destruct (map_get n (distros r)); split; try congruence.
    - intros _. left; congruence.
    - intros [H|H]; [congruence | exact H].
    - intro H; right; exact H. }
  split.
  { unfold get_distro, add_custom_distro. cbn [distros custom_distros].
    rewrite map_get_insert_same. reflexivity. }
  split.
  { intro Hne. unfold get_distro, add_custom_distro. cbn [distros custom_distros].
    rewrite map_get_insert_other by exact Hne. reflexivity. }
  assert (Hrm : remove_custom_distro (add_custom_distro r entry) k =
                (true, mkIsoRegistry (distros r)
                         (filter (fun kv => negb (String.eqb (fst kv) k))
                            (map_insert k entry (custom_distros r))))).
  { unfold remove_custom_distro, map_remove, add_custom_distro. cbn [custom_distros distros].
    fold k. rewrite map_get_insert_same. reflexivity. }
  split; [rewrite Hrm; reflexivity|].
  split.
  { rewrite Hrm. unfold get_distro. cbn [snd distros custom_distros].
    rewrite map_get_filter_same. destruct (map_get k (distros r)); reflexivity. }
  split.
  { intros n' Hne. unfold remove_custom_distro, map_remove.
    destruct (map_get n (custom_distros r)); [|reflexivity].
    unfold get_distro. cbn [snd distros custom_distros].
    rewrite map_get_filter_other by exact Hne. reflexivity. }
  intro Hn. unfold remove_custom_distro, map_remove. rewrite Hn. reflexivity.
Qed.

Lemma string_compare_antisym (x y : string) : String.compare y x = CompOpp (String.compare x y).
Proof. apply String.compare_antisym. Qed.

(** X7.  [get_all_distros] lists the names of both maps in byte-wise
    ascending order; a name is listed once per map that has it, so a
    custom distribution named like a built-in one appears twice. *)
Theorem get_all_distros_spec (r : IsoRegistry) :
  Sorted (fun a b => String.compare a b <> Gt) (get_all_distros r) /\
  Permutation (get_all_distros r) (keys (distros r) ++ keys (custom_distros r)) /\
  (forall n, count_occ string_dec (get_all_distros r) n =
             count_occ string_dec (keys (distros r)) n +
             count_occ string_dec (keys (custom_distros r)) n).
Proof.
  unfold get_all_distros.
  split; [apply (sort_by_sorted String.compare string_compare_antisym)|].
  split; [apply sort_by_perm|].
  intro n. rewrite <- count_occ_app.
  apply Permutation_count_occ, sort_by_perm.
Qed.

(** X8.  [get_latest_version]: an unknown distribution gives the error
    "Distro '<d>' not found in registry"; a failing detector gives the
    error whose message is the context "Failed to detect versions for <d>"
    (the detector's own error is only its cause, not in the message).
    Otherwise it returns a version exactly when the detector reports one
    (and then its only error is "No versions found", exactly when the
    detector reports none); it returns what [get_latest_stable] returns
    when a [Stable] or [LTS] version is reported, and otherwise a reported
    version that no reported version exceeds. *)
Theorem get_latest_version_spec (r : IsoRegistry) (d : string) :
  (get_distro r d = None ->
   get_latest_version r d = Err ("Distro '" ++ d ++ "' not found in registry")) /\
  (forall entry e, get_distro r d = Some entry -> version_detector entry = Err e ->
     get_latest_version r d = Err ("Failed to detect versions for " ++ d)) /\
  (forall entry versions, get_distro r d = Some entry -> version_detector entry = Ok versions ->
     (get_latest_version r d = Err "No versions found" <-> versions = []) /\
     ((exists m, get_latest_version r d = Ok m) <-> versions <> []) /\
     (forall e : string, get_latest_version r d = Err e -> e = "No versions found"%string) /\
     ((exists v, In v versions /\ Detectors.is_stable_or_lts v = true) ->
      get_latest_version r d = Detectors.get_latest_stable (Ok versions)) /\
     ((forall v, In v versions -> Detectors.is_stable_or_lts v = false) ->
      forall m, get_latest_version r d = Ok m ->
        In m versions /\ forall v, In v versions -> cmp v m <> Gt)).
Proof.
  unfold get_latest_version, get_available_versions.
  split; [intro H; rewrite H; reflexivity|].
  split; [intros entry e H He; rewrite H, He; reflexivity|].
  intros entry versions H Hv. rewrite H, Hv.
  split.
  { destruct (max_by cmp (filter Detectors.is_stable_or_lts versions)) as [m|] eqn:E.
    - split; [discriminate|]. intros ->. discriminate.
    - destruct (max_by cmp versions) as [m|] eqn:E'.
      + split; [discriminate|]. intros ->. discriminate.
      + split; [intros _; apply max_by_none in E'; exact E' | reflexivity]. }
  split.
  { destruct (max_by cmp (filter Detectors.is_stable_or_lts versions)) as [m|] eqn:E.
    - split; [intros _ ->; simpl in E; discriminate | intros _; exists m; reflexivity].
    - destruct (max_by cmp versions) as [m|] eqn:E'.
      + split; [intros _ ->; simpl in E'; discriminate | intros _; exists m; reflexivity].
      + apply max_by_none in E'. split; [intros [m Hm]; discriminate | intros Hne; contradiction]. }
  split.
  { intros e He.
    destruct (max_by cmp (filter Detectors.is_stable_or_lts versions)); [discriminate|].
    destruct (max_by cmp versions); [discriminate|].
    injection He as <-. reflexivity. }
  split.
  { intros [v [Hin Hs]]. unfold Detectors.get_latest_stable.
    destruct (max_by cmp (filter Detectors.is_stable_or_lts versions)) eqn:E; [reflexivity|].
    apply max_by_none in E. exfalso.
    assert (In v (filter Detectors.is_stable_or_lts versions)) as Hf by (apply filter_In; auto).
    rewrite E in Hf. exact Hf. }
  intros Hnone m Hm.
  destruct (max_by cmp (filter Detectors.is_stable_or_lts versions)) as [m'|] eqn:E.
  { exfalso. apply max_by_in in E. apply filter_In in E as [Hin Hs].
    rewrite (Hnone m' Hin) in Hs. discriminate. }
  destruct (max_by cmp versions) as [m'|] eqn:E'; [injection Hm as <-|discriminate].
  split; [exact (max_by_in cmp _ _ E')|].
  exact (max_by_max cmp cmp_antisym cmp_not_gt_trans _ _ E').
Qed.

Lemma existsb_eqb_in (a : string) (l : list string) :
  existsb (String.eqb a) l = true <-> In a l.
Proof.
  rewrite existsb_exists. split.
  - intros [x [Hx Hax]]. apply String.eqb_eq in Hax. subst. exact Hx.
  - intro H. exists a. split; [exact H | apply String.eqb_refl].
Qed.

Lemma find_version_none (v : string) (versions : list VersionInfo) :
  (forall vi, In vi versions -> version vi <> v) ->
  find (fun vi => String.eqb (version vi) v) versions = None.
Proof.
  intro H. induction versions as [|vi vs IH]; [reflexivity|]. simpl.
  destruct (String.eqb (version vi) v) eqn:E.
  - apply String.eqb_eq in E. exfalso. apply (H vi); [left; reflexivity | exact E].
  - apply IH. intros w Hw. apply H. right; exact Hw.
Qed.

(** X9.  The errors of [get_iso_info]: an unknown distribution; an
    explicit version that the detector does not report; and, whatever the
    other arguments, a distribution without supported architectures, an
    explicit architecture it does not support, or an explicit variant it
    does not support. *)
Theorem get_iso_info_errors (r : IsoRegistry) (d : string) (version : option string)
  (architecture variant : option string) :
  (get_distro r d = None ->
   get_iso_info r d version architecture variant = Err ("Distro '" ++ d ++ "' not found")) /\
  (forall entry versions v, get_distro r d = Some entry ->
     version_detector entry = Ok versions -> version = Some v ->
     (forall vi, In vi versions -> Versions.version vi <> v) ->
     get_iso_info r d version architecture variant =
       Err ("Version '" ++ v ++ "' not found for " ++ d)) /\
  (forall entry, get_distro r d = Some entry ->
     supported_architectures (definition entry) = [] ->
     exists e, get_iso_info r d version architecture variant = Err e) /\
  (forall entry a, get_distro r d = Some entry -> architecture = Some a ->
     ~ In a (supported_architectures (definition entry)) ->
     exists e, get_iso_info r d version architecture variant = Err e) /\
  (forall entry v, get_distro r d = Some entry -> variant = Some v ->
     ~ In v (supported_variants (definition entry)) ->
     exists e, get_iso_info r d version architecture variant = Err e).
Proof.
  unfold get_iso_info. cbv zeta.
  split; [intro H; rewrite H; reflexivity|].
  split.
  { intros entry versions v H Hv -> Hnot. rewrite H.
    unfold get_available_versions. rewrite H, Hv, find_version_none by exact Hnot.
    reflexivity. }
  split.
  { intros entry H Ha. rewrite H.
    destruct (match version with
              | Some v => _ | None => get_latest_version r d end) as [vi|e];
      [|eexists; reflexivity].
    rewrite Ha. destruct architecture; simpl; eexists; reflexivity. }
  split.
  { intros entry a H -> Hna. rewrite H.
    destruct (match version with
              | Some v => _ | None => get_latest_version r d end) as [vi|e];
      [|eexists; reflexivity].
    destruct (existsb (String.eqb a) (supported_architectures (definition entry))) eqn:E.
    - apply existsb_eqb_in in E. contradiction.
    - simpl. eexists; reflexivity. }
  intros entry v H -> Hnv. rewrite H.
  destruct (match version with
            | Some v => _ | None => get_latest_version r d end) as [vi|e];
    [|eexists; reflexivity].
  destruct (negb (existsb _ (supported_architectures (definition entry))));
    [eexists; reflexivity|].
  destruct (existsb (String.eqb v) (supported_variants (definition entry))) eqn:E.
  - apply existsb_eqb_in in E. contradiction.
  - eexists; reflexivity.
Qed.

(** X10.  What a successful [get_iso_info] returns: the requested
    distribution, with the explicit version, or else the one
    [get_latest_version] returns, with its release date and type; the
    explicit architecture, or else the first supported one, and in either
    case a supported one; the explicit variant, or else the default
    variant, and in either case a supported one when there is one; the
    file name [generate_filename] builds from them; the distribution's
    download sources with their URL templates resolved, in their order; no
    checksum, checksum type "sha256" and no size. *)
Theorem get_iso_info_ok (r : IsoRegistry) (d : string) (version : option string)
  (architecture variant : option string) (iso : Iso.IsoInfo) :
  get_iso_info r d version architecture variant = Ok iso ->
  exists entry, get_distro r d = Some entry /\
    Iso.distro iso = d /\
    (forall v, version = Some v -> Iso.version iso = v) /\
    (version = None -> exists vi, get_latest_version r d = Ok vi /\
       Iso.version iso = Versions.version vi /\
       Iso.release_date iso = Versions.release_date vi /\
       Iso.release_type iso = Versions.release_type vi) /\
    Iso.architecture iso =
      match architecture with
      | Some a => a
      | None => hd "amd64"%string (supported_architectures (definition entry))
      end /\
    In (Iso.architecture iso) (supported_architectures (definition entry)) /\
    Iso.variant iso =
      match variant with Some v => Some v | None => default_variant (definition entry) end /\
    (forall v, Iso.variant iso = Some v -> In v (supported_variants (definition entry))) /\
    generate_filename (definition entry) (Iso.version iso) (Iso.architecture iso)
      (Iso.variant iso) = Ok (Iso.filename iso) /\
    Iso.download_sources iso =
      map (resolve_source (Iso.version iso) (Iso.architecture iso) (Iso.variant iso)
             (Iso.filename iso)) (download_sources entry) /\
    Iso.checksum iso = None /\ Iso.checksum_type iso = Some "sha256"%string /\
    Iso.size_bytes iso = None.
Proof.
  unfold get_iso_info. cbv zeta. intro H.
  destruct (get_distro r d) as [entry|] eqn:Hd; [|discriminate].
  exists entry. split; [reflexivity|].
  set (arch := match architecture with
               | Some a => a
               | None => match supported_architectures (definition entry) with
                         | a :: _ => a
                         | [] => "amd64"%string
                         end
               end) in H.
  set (vstr := match variant with Some v => Some v | None => default_variant (definition entry) end) in H.
  assert (Hvi : exists vi,
             (forall v, version = Some v -> Versions.version vi = v) /\
             (version = None -> get_latest_version r d = Ok vi) /\
             match version with
             | Some v =>
                 match get_available_versions r d with
                 | Ok versions =>
                     match find (fun vi0 => String.eqb (Versions.version vi0) v) versions with
                     | Some vi0 => Ok vi0
                     | None => Err ("Version '" ++ v ++ "' not found for " ++ d)
                     end
                 | Err e => Err e
                 end
             | None => get_latest_version r d
             end = Ok vi).
  { destruct version as [v|].
    - destruct (get_available_versions r d) as [versions|e]; [|discriminate].
      destruct (find (fun vi0 => String.eqb (Versions.version vi0) v) versions) as [vi|] eqn:Hf;
        [|discriminate].
      exists vi. apply find_some in Hf as [_ Hf]. apply String.eqb_eq in Hf.
      split; [intros v' Hv'; injection Hv' as <-; exact Hf|].
      split; [discriminate | reflexivity].
    - destruct (get_latest_version r d) as [vi|e]; [|discriminate].
      exists vi. split; [discriminate|]. split; reflexivity. }
  destruct Hvi as [vi [Hv1 [Hv2 Hv3]]]. rewrite Hv3 in H.
  destruct (existsb (String.eqb arch) (supported_architectures (definition entry))) eqn:Ha;
    [|discriminate].
  cbn [negb] in H.
  assert (Hvar : forall v, vstr = Some v -> In v (supported_variants (definition entry))).
  { intros v Hv. rewrite Hv in H.
    destruct (existsb (String.eqb v) (supported_variants (definition entry))) eqn:E;
      [|discriminate]. apply existsb_eqb_in. exact E. }
  destruct (match vstr with
            | Some v => if existsb (String.eqb v) (supported_variants (definition entry))
                        then Ok tt else Err _
            | None => Ok tt end) as [[]|e]; [|discriminate].
  destruct (generate_filename (definition entry) (Versions.version vi) arch vstr)
    as [filename|e] eqn:Hg; [|discriminate].
  unfold resolve_download_sources in H.
  injection H as <-. cbn.
  split; [reflexivity|].
  split; [exact Hv1|].
  split; [intro Hn; exists vi; split; [exact (Hv2 Hn) | repeat split]|].
  split.
  { unfold arch. destruct architecture; [reflexivity|].
    destruct (supported_architectures (definition entry)); reflexivity. }
  split; [apply existsb_eqb_in; exact Ha|].
  split; [reflexivity|].
  split; [exact Hvar|].
  split; [exact Hg|].
  repeat split.
Qed.

(** *** Resolving the URL templates of the download sources *)

Lemma insert_by_map {A B : Type} (c : A -> A -> comparison) (c' : B -> B -> comparison)
  (f : A -> B) (x : A) (l : list A) :
  (forall a b, c' (f a) (f b) = c a b) ->
  map f (insert_by c x l) = insert_by c' (f x) (map f l).
Proof.
  intro Hc. induction l as [|y ys IH]; [reflexivity|]. simpl.
  rewrite Hc. destruct (c x y); simpl; rewrite ?IH; reflexivity.
Qed.

Lemma sort_by_map {A B : Type} (c : A -> A -> comparison) (c' : B -> B -> comparison)
  (f : A -> B) (l : list A) :
  (forall a b, c' (f a) (f b) = c a b) ->
  map f (sort_by c l) = sort_by c' (map f l).
Proof.
  intro Hc. unfold sort_by.
  assert (forall acc, map f (fold_left (fun acc x => insert_by c x acc) l acc) =
                      fold_left (fun acc x => insert_by c' x acc) (map f l) (map f acc)) as G.
  { induction l as [|x l IH]; intro acc; [reflexivity|]. simpl.
    rewrite IH, (insert_by_map c c' f x acc Hc). reflexivity. }
  apply G.
Qed.

Lemma find_map {A B : Type} (p : B -> bool) (f : A -> B) (l : list A) :
  find p (map f l) = option_map f (find (fun x => p (f x)) l).
Proof.
  induction l as [|x xs IH]; [reflexivity|]. simpl. destruct (p (f x)); [reflexivity | exact IH].
Qed.

Lemma find_ext {A : Type} (p q : A -> bool) (l : list A) :
  (forall x, p x = q x) -> find p l = find q l.
Proof.
  intro H. induction l as [|x xs IH]; [reflexivity|]. simpl. rewrite H, IH. reflexivity.
Qed.

Lemma resolve_source_preserves (version architecture : string) (variant : option string)
  (filename : string) (s : Sources.DownloadSource) :
  let s' := resolve_source version architecture variant filename s in
  Sources.source_type s' = Sources.source_type s /\
  Sources.priority s' = Sources.priority s /\
  Sources.is_usable s' = Sources.is_usable s /\
  Sources.get_selection_score s' = Sources.get_selection_score s.
Proof.
  unfold resolve_source. destruct (Sources.url s) eqn:Hu; [|repeat split].
  unfold Sources.is_usable, Sources.get_selection_score. cbn. rewrite Hu. repeat split.
Qed.

(** X11.  Resolving the URL templates of a distribution's sources (as
    [get_iso_info] does) and then selecting a source for the download
    gives the source selected among the unresolved ones, resolved: the
    templates change neither which source is chosen nor the error. *)
Theorem select_best_source_resolved (version architecture : string)
  (variant : option string) (filename : string) (sources : list Sources.DownloadSource)
  (options : Sources.DownloadOptions) :
  Sources.select_best_source (map (resolve_source version architecture variant filename) sources)
    options =
  match Sources.select_best_source sources options with
  | Ok s => Ok (resolve_source version architecture variant filename s)
  | Err e => Err e
  end.
Proof.
  set (f := resolve_source version architecture variant filename).
  assert (Hkey : forall s, Sources.sort_key options (f s) = Sources.sort_key options s).
  { intro s. destruct (resolve_source_preserves version architecture variant filename s)
      as [Ht [_ [_ Hs]]].
    unfold Sources.sort_key. fold f in Ht, Hs. rewrite Ht, Hs. reflexivity. }
  destruct sources as [|x xs]; [reflexivity|].
  unfold Sources.select_best_source. cbn [map].
  set (cmpk := fun a b => N.compare (Sources.sort_key options b) (Sources.sort_key options a)).
  rewrite <- (map_cons f x xs).
  rewrite <- (sort_by_map cmpk cmpk f (x :: xs)) by (intros a b; unfold cmpk; rewrite !Hkey; reflexivity).
  rewrite find_map.
  rewrite (find_ext (fun s => Sources.is_usable (f s) && Sources.is_http_type (Sources.source_type (f s)))
             (fun s => Sources.is_usable s && Sources.is_http_type (Sources.source_type s))).
  - destruct (find _ (sort_by cmpk (x :: xs))); reflexivity.
  - intro s. destruct (resolve_source_preserves version architecture variant filename s)
      as [Ht [_ [Hu _]]]. fold f in Ht, Hu. rewrite Ht, Hu. reflexivity.
Qed.

(** *** Checksums *)

Section ChecksumFacts.
Variable fetch_checksum : string -> string -> result string.

Lemma first_checksum_none (iso : Iso.IsoInfo) (patterns : list string) :
  first_checksum fetch_checksum iso patterns = None <->
  forall p, In p patterns ->
    exists e, fetch_checksum (checksum_url iso p) (Iso.filename iso) = Err e.
Proof.
  induction patterns as [|p ps IH]; simpl.
  - split; [contradiction | reflexivity].
  - destruct (fetch_checksum (checksum_url iso p) (Iso.filename iso)) as [c|e] eqn:E.
    + split; [discriminate|]. intro H. destruct (H p (or_introl eq_refl)) as [e He]. congruence.
    + rewrite IH. split.
      * intros H q [<-|Hq]; [exists e; exact E | apply H; exact Hq].
      * intros H q Hq. apply H. right; exact Hq.
Qed.

Lemma first_checksum_some (iso : Iso.IsoInfo) (patterns : list string) (c : string) :
  first_checksum fetch_checksum iso patterns = Some c <->
  exists pre p post, patterns = pre ++ p :: post /\
    (forall q, In q pre ->
       exists e, fetch_checksum (checksum_url iso q) (Iso.filename iso) = Err e) /\
    fetch_checksum (checksum_url iso p) (Iso.filename iso) = Ok c.
Proof.
  induction patterns as [|p ps IH]; simpl.
  - split; [discriminate|]. intros [pre [p [post [H _]]]]. destruct pre; discriminate.
  - destruct (fetch_checksum (checksum_url iso p) (Iso.filename iso)) as [c'|e] eqn:E.
    + split.
      * intro H; injection H as <-. exists [], p, ps. split; [reflexivity|].
        split; [contradiction | exact E].
      * intros [pre [q [post [Hl [Hpre Hq]]]]].
        destruct pre as [|x pre]; simpl in Hl; injection Hl as Hx Hl.
        -- subst q. congruence.
        -- subst x. destruct (Hpre p (or_introl eq_refl)) as [e He]. congruence.
    + rewrite IH. split.
      * intros [pre [q [post [Hl [Hpre Hq]]]]]. exists (p :: pre), q, post.
        split; [rewrite Hl; reflexivity|]. split; [|exact Hq].
        intros q' [<-|Hq']; [exists e; exact E | apply Hpre; exact Hq'].
      * intros [pre [q [post [Hl [Hpre Hq]]]]].
        destruct pre as [|x pre]; simpl in Hl; injection Hl as Hx Hl.
        -- subst q. congruence.
        -- exists pre, q, post. split; [exact Hl|]. split; [|exact Hq].
           intros q' Hq'. apply Hpre. right; exact Hq'.
Qed.

End ChecksumFacts.

(** X12.  [get_checksum] fails only for an unknown distribution.
    Otherwise it tries the distribution's checksum URL patterns in order,
    each with the ISO's version, architecture, file name and variant
    substituted: it returns the checksum of the first URL whose fetch
    succeeds, and [None] exactly when every fetch fails. *)
Theorem get_checksum_spec (fetch_checksum : string -> string -> result string)
  (r : IsoRegistry) (iso : Iso.IsoInfo) :
  (get_distro r (Iso.distro iso) = None ->
   get_checksum fetch_checksum r iso = Err "Distro definition not found") /\
  (forall entry, get_distro r (Iso.distro iso) = Some entry ->
     (get_checksum fetch_checksum r iso = Ok None <->
      forall p, In p (checksum_urls (definition entry)) ->
        exists e, fetch_checksum (checksum_url iso p) (Iso.filename iso) = Err e) /\
     (forall c, get_checksum fetch_checksum r iso = Ok (Some c) <->
      exists pre p post, checksum_urls (definition entry) = pre ++ p :: post /\
        (forall q, In q pre ->
           exists e, fetch_checksum (checksum_url iso q) (Iso.filename iso) = Err e) /\
        fetch_checksum (checksum_url iso p) (Iso.filename iso) = Ok c)).
Proof.
  unfold get_checksum. split; [intro H; rewrite H; reflexivity|].
  intros entry H. rewrite H. split.
  - rewrite <- first_checksum_none. split; [intro E; injection E as E; exact E | intros ->; reflexivity].
  - intro c. rewrite <- first_checksum_some. split; [intro E; injection E as E; exact E | intros ->; reflexivity].
Qed.

End RegistryOpsFacts.

(* ------------------------------------------------------------------ *)
(** ** Checksum files *)

Module ChecksumFileFacts.
Import ChecksumFile.
Local Open Scope N_scope.

Ltac to_prop H :=
  repeat (rewrite ?orb_true_iff, ?andb_true_iff, ?N.leb_le, ?N.eqb_eq in H).

Lemma hex_cases (c : N) :
  is_ascii_hexdigit c = true -> (48 <= c <= 57) \/ (65 <= c <= 70) \/ (97 <= c <= 102).
Proof. unfold is_ascii_hexdigit. intro H. to_prop H. lia. Qed.

Lemma hex_not_whitespace (c : N) : is_ascii_hexdigit c = true -> is_whitespace c = false.
Proof.
  intro H. apply hex_cases in H.
  destruct (is_whitespace c) eqn:E; [|reflexivity].
  unfold is_whitespace in E. to_prop E. lia.
Qed.

Lemma hex_lowercase_digits (s : text) :
  forallb is_ascii_hexdigit s = true ->
  Forall (fun c => (48 <= c <= 57) \/ (97 <= c <= 102)) (hex_to_lowercase s).
Proof.
  induction s as [|c s IH]; intro H; [constructor|].
  simpl in H. apply andb_prop in H as [Hc Hs]. constructor; [|exact (IH Hs)].
  apply hex_cases in Hc.
  destruct ((65 <=? c) && (c <=? 90)) eqn:E.
  - to_prop E. lia.
  - apply andb_false_iff in E. destruct E as [E|E]; apply N.leb_gt in E; lia.
Qed.

Lemma line_checksum_lower (filename line c : text) :
  line_checksum filename line = Some c ->
  Forall (fun x => (48 <= x <= 57) \/ (97 <= x <= 102)) c.
Proof.
  unfold line_checksum. cbv zeta.
  assert (Hif : forall (b : bool) (cs : text),
             (if b && forallb is_ascii_hexdigit cs then Some (hex_to_lowercase cs) else None)
               = Some c -> Forall (fun x => (48 <= x <= 57) \/ (97 <= x <= 102)) c).
  { intros b cs H. destruct (b && forallb is_ascii_hexdigit cs) eqn:E; [|discriminate].
    injection H as <-. apply andb_prop in E as [_ E]. apply hex_lowercase_digits, E. }
  destruct (split_whitespace line) as [|cs [|file ws]].
  - destruct (find_char 58 line); [apply Hif | discriminate].
  - destruct (find_char 58 line); [apply Hif | discriminate].
  - destruct ((text_eqb (trim_start_stars file) filename
               || ends_with (trim_start_stars file) filename)
              && forallb is_ascii_hexdigit cs) eqn:E.
    + intro H. injection H as <-. apply andb_prop in E as [_ E].
      apply hex_lowercase_digits, E.
    + destruct (find_char 58 line); [apply Hif | discriminate].
Qed.

(** X13.  A checksum read from a checksum file is always made of the
    lower-case hex digits '0'..'9' and 'a'..'f': upper-case digits in the
    file are lowered, and a candidate with any other character is
    rejected. *)
Theorem parse_checksum_file_lower_hex (content filename c : text) :
  parse_checksum_file content filename = Ok c ->
  Forall (fun x => (48 <= x <= 57) \/ (97 <= x <= 102)) c.
Proof.
  unfold parse_checksum_file. generalize (lines content) as ls.
  induction ls as [|l ls IH]; simpl; [discriminate|].
  destruct (trim l) as [|x t]; [exact IH|].
  destruct (x =? 35); [exact IH|].
  destruct (line_checksum filename (x :: t)) as [c'|] eqn:E; [|exact IH].
  intro H; injection H as <-. exact (line_checksum_lower _ _ _ E).
Qed.

(** *** Splitting and trimming text without separators *)

Lemma split_by_no_sep (p : N -> bool) (a : text) :
  forallb (fun c => negb (p c)) a = true -> split_by p a = [a].
Proof.
  induction a as [|c a IH]; intro H; [reflexivity|].
  simpl in H. apply andb_prop in H as [Hc Ha]. apply negb_true_iff in Hc.
  simpl. rewrite Hc, IH by exact Ha. reflexivity.
Qed.

Lemma split_by_app_sep (p : N -> bool) (a : text) (x : N) (rest : text) :
  forallb (fun c => negb (p c)) a = true -> p x = true ->
  split_by p (a ++ x :: rest) = a :: split_by p rest.
Proof.
  intros Ha Hx. induction a as [|c a IH]; simpl; [rewrite Hx; reflexivity|].
  simpl in Ha. apply andb_prop in Ha as [Hc Ha]. apply negb_true_iff in Hc.
  rewrite Hc, IH by exact Ha. reflexivity.
Qed.

Lemma split_by_not_nil (p : N -> bool) (s : text) : split_by p s <> [].
Proof.
  induction s as [|c s IH]; simpl; [discriminate|].
  destruct (p c); [discriminate|]. destruct (split_by p s); discriminate.
Qed.

Lemma trim_start_id (s : text) :
  match s with [] => True | c :: _ => is_whitespace c = false end -> trim_start s = s.
Proof. destruct s as [|c s]; [reflexivity|]. intro H. simpl. rewrite H. reflexivity. Qed.

Lemma trim_id (s : text) :
  match s with [] => True | c :: _ => is_whitespace c = false end ->
  match rev s with [] => True | c :: _ => is_whitespace c = false end ->
  trim s = s.
Proof.
  intros H1 H2. unfold trim. rewrite (trim_start_id s H1), (trim_start_id (rev s) H2).
  apply rev_involutive.
Qed.

Lemma forallb_no_ws_no_newline (s : text) :
  forallb (fun c => negb (is_whitespace c)) s = true ->
  forallb (fun c => negb (c =? 10)) s = true.
Proof.
  induction s as [|c s IH]; intro H; [reflexivity|]. simpl in *.
  apply andb_prop in H as [Hc Hs]. rewrite IH by exact Hs.
  destruct (c =? 10) eqn:E; [|reflexivity]. apply N.eqb_eq in E. subst. discriminate.
Qed.

Lemma forallb_hex_no_ws (s : text) :
  forallb is_ascii_hexdigit s = true -> forallb (fun c => negb (is_whitespace c)) s = true.
Proof.
  induction s as [|c s IH]; intro H; [reflexivity|]. simpl in *.
  apply andb_prop in H as [Hc Hs]. rewrite hex_not_whitespace, IH by assumption. reflexivity.
Qed.

Lemma lines_first (l rest : text) :
  forallb (fun c => negb (c =? 10)) l = true ->
  exists ls, lines (l ++ 10 :: rest) = strip_cr l :: ls.
Proof.
  intro Hl. unfold lines. rewrite split_by_app_sep by (assumption || reflexivity).
  destruct (split_by (fun c => c =? 10) rest) as [|p ps] eqn:E;
    [exfalso; exact (split_by_not_nil _ _ E)|].
  exists (lines_of (p :: ps)). reflexivity.
Qed.

Lemma strip_cr_id (l : text) : (forall r, rev l <> 13 :: r) -> strip_cr l = l.
Proof.
  unfold strip_cr. intro H. destruct (rev l) as [|x r]; [reflexivity|].
  destruct x as [|p]; [reflexivity|].
  repeat (destruct p as [p|p|]; try reflexivity). exfalso; eapply H; reflexivity.
Qed.

Lemma not_13_whitespace (x : N) (r r' : text) : is_whitespace x = false -> x :: r <> 13 :: r'.
Proof. intros H E. injection E as -> _. discriminate. Qed.

Lemma find_char_app (c : N) (a rest : text) :
  forallb (fun x => negb (x =? c)) a = true -> find_char c (a ++ c :: rest) = Some (List.length a).
Proof.
  induction a as [|x a IH]; intro H; simpl; [rewrite N.eqb_refl; reflexivity|].
  simpl in H. apply andb_prop in H as [Hx Ha]. apply negb_true_iff in Hx.
  rewrite Hx, IH by exact Ha. reflexivity.
Qed.

Lemma skipn_length_app {A : Type} (a b : list A) : skipn (List.length a) (a ++ b) = b.
Proof. induction a as [|x a IH]; [reflexivity | exact IH]. Qed.

Lemma firstn_length_app {A : Type} (a b : list A) : firstn (List.length a) (a ++ b) = a.
Proof. induction a as [|x a IH]; [reflexivity | simpl; rewrite IH; reflexivity]. Qed.

(** X14.  A line "HEX name" (the format of sha256sum and the like) that
    comes first in a checksum file gives its checksum, lowered, for every
    file name that [name] ends with: a line for "xubuntu-22.04.iso" is
    taken for "ubuntu-22.04.iso" too.  Whatever follows the line is not
    read. *)
Theorem parse_checksum_file_first_line (checksum name filename rest : text) :
  checksum <> [] -> forallb is_ascii_hexdigit checksum = true ->
  name <> [] -> forallb (fun c => negb (is_whitespace c)) name = true ->
  hd 0 name <> 42 ->
  ends_with name filename = true ->
  parse_checksum_file (checksum ++ 32 :: name ++ 10 :: rest) filename =
    Ok (hex_to_lowercase checksum).
Proof.
  intros Hc Hhex Hn Hnws Hstar Hend.
  destruct (exists_last Hn) as [n' [y Hy]].
  assert (Hyws : is_whitespace y = false).
  { rewrite Hy, forallb_app in Hnws. apply andb_prop in Hnws as [_ Hy']. simpl in Hy'.
    rewrite andb_true_r in Hy'. apply negb_true_iff, Hy'. }
  set (l := checksum ++ 32 :: name).
  assert (Hrev : rev l = y :: rev (checksum ++ 32 :: n')).
  { unfold l. rewrite Hy, app_comm_cons, app_assoc, rev_unit. reflexivity. }
  assert (Hl10 : forallb (fun c => negb (c =? 10)) l = true).
  { unfold l. rewrite forallb_app. simpl.
    rewrite !forallb_no_ws_no_newline; [reflexivity | exact Hnws | apply forallb_hex_no_ws, Hhex]. }
  unfold parse_checksum_file.
  replace (checksum ++ 32 :: name ++ 10 :: rest) with (l ++ 10 :: rest)
    by (unfold l; rewrite <- app_assoc; reflexivity).
  destruct (lines_first l rest Hl10) as [ls ->].
  rewrite strip_cr_id by (intro r; rewrite Hrev; apply not_13_whitespace, Hyws).
  destruct checksum as [|c0 cs]; [contradiction|].
  assert (Hc0 : is_ascii_hexdigit c0 = true) by (simpl in Hhex; apply andb_prop in Hhex; apply Hhex).
  cbn [parse_checksum_lines].
  rewrite trim_id; [| unfold l; simpl; apply hex_not_whitespace, Hc0 | rewrite Hrev; exact Hyws].
  unfold l at 1. cbn [app].
  assert (Hc35 : (c0 =? 35) = false).
  { apply N.eqb_neq. intro E. subst. discriminate. }
  rewrite Hc35.
  assert (Hsplit : split_whitespace l = [c0 :: cs; name]).
  { unfold split_whitespace, l.
    rewrite split_by_app_sep by (apply forallb_hex_no_ws, Hhex || reflexivity).
    rewrite split_by_no_sep by exact Hnws.
    destruct name; [contradiction | reflexivity]. }
  unfold line_checksum. fold l. rewrite Hsplit.
  assert (Hstars : trim_start_stars name = name).
  { destruct name as [|x name']; [contradiction|]. simpl in Hstar. simpl.
    destruct x as [|p]; [reflexivity|].
    destruct p as [p|p|]; try reflexivity.
    repeat (destruct p as [p|p|]; try reflexivity). contradiction. }
  rewrite Hstars, Hend, orb_true_r, Hhex. reflexivity.
Qed.

(** X15.  The colon format accepts a line "name:" with nothing after the
    colon: when such a line comes first in the file, the checksum found is
    the empty string. *)
Theorem parse_checksum_file_colon_empty (name filename rest : text) :
  forallb (fun c => negb (is_whitespace c) && negb (c =? 58)) name = true ->
  hd 0 name <> 35 ->
  ends_with name filename = true ->
  parse_checksum_file (name ++ 58 :: 10 :: rest) filename = Ok [].
Proof.
  intros Hname H35 Hend.
  assert (Hnws : forallb (fun c => negb (is_whitespace c)) name = true).
  { clear -Hname. induction name as [|c n IH]; [reflexivity|]. simpl in *.
    apply andb_prop in Hname as [Hc Hn]. apply andb_prop in Hc as [Hc _].
    rewrite Hc. apply IH, Hn. }
  assert (Hn58 : forallb (fun c => negb (c =? 58)) name = true).
  { clear -Hname. induction name as [|c n IH]; [reflexivity|]. simpl in *.
    apply andb_prop in Hname as [Hc Hn]. apply andb_prop in Hc as [_ Hc].
    rewrite Hc. apply IH, Hn. }
  set (l := name ++ [58]).
  assert (Hrev : rev l = 58 :: rev name) by (unfold l; apply rev_unit).
  assert (Hl10 : forallb (fun c => negb (c =? 10)) l = true).
  { unfold l. rewrite forallb_app, forallb_no_ws_no_newline by exact Hnws. reflexivity. }
  unfold parse_checksum_file.
  replace (name ++ 58 :: 10 :: rest) with (l ++ 10 :: rest)
    by (unfold l; rewrite <- app_assoc; reflexivity).
  destruct (lines_first l rest Hl10) as [ls ->].
  rewrite strip_cr_id by (intro r; rewrite Hrev; discriminate).
  assert (Hhd : match l with [] => True | c :: _ => is_whitespace c = false end).
  { unfold l. destruct name as [|c n]; [reflexivity|]. simpl in Hnws.
    apply andb_prop in Hnws as [Hc _]. apply negb_true_iff, Hc. }
  cbn [parse_checksum_lines]. rewrite trim_id by (exact Hhd || (rewrite Hrev; reflexivity)).
  assert (Hl : exists c l', l = c :: l' /\ (c =? 35) = false).
  { unfold l. destruct name as [|c n]; [exists 58, []; split; reflexivity|].
    exists c, (n ++ [58]). split; [reflexivity|]. apply N.eqb_neq. exact H35. }
  destruct Hl as [c [l' [Hl Hc]]].
  assert (Hsplit : split_whitespace l = [l]).
  { unfold split_whitespace. rewrite split_by_no_sep.
    - rewrite Hl. reflexivity.
    - unfold l. rewrite forallb_app, Hnws. reflexivity. }
  assert (Htn : trim name = name).
  { apply trim_id.
    - destruct name as [|x n]; [exact I|]. simpl in Hnws.
      apply andb_prop in Hnws as [Hx _]. apply negb_true_iff, Hx.
    - assert (Hr : forallb (fun c => negb (is_whitespace c)) (rev name) = true).
      { rewrite forallb_forall in *. intros x Hx. apply Hnws. apply in_rev, Hx. }
      destruct (rev name) as [|x r]; [exact I|]. simpl in Hr.
      apply andb_prop in Hr as [Hx _]. apply negb_true_iff, Hx. }
  assert (Hline : line_checksum filename l = Some []).
  { unfold line_checksum. rewrite Hsplit.
    unfold l. rewrite find_char_app by exact Hn58.
    rewrite firstn_length_app, skipn_length_app, Htn. cbn [skipn].
    change (trim []) with (@nil N).
    rewrite Hend, orb_true_r. reflexivity. }
  rewrite Hl in Hline |- *. rewrite Hc, Hline. reflexivity.
Qed.

End ChecksumFileFacts.

(* ------------------------------------------------------------------ *)
(** ** The download manager *)

Module ManagerFacts.
Import Checksum Engine ManagerOps StdFacts.

Lemma select_best_source_has_url (sources : list Sources.DownloadSource)
  (options : Sources.DownloadOptions) (s : Sources.DownloadSource) :
  Sources.select_best_source sources options = Ok s -> exists u, Sources.url s = Some u.
Proof.
  unfold Sources.select_best_source. destruct sources as [|x xs]; [discriminate|].
  destruct (find _ _) as [s0|] eqn:Hf; [|discriminate]. intro H; injection H as <-.
  apply find_some in Hf as [_ Hp]. apply andb_prop in Hp as [Hu Hh].
  unfold Sources.is_usable in Hu. destruct (Sources.source_type s0); try discriminate;
    destruct (Sources.url s0) as [u|]; try discriminate; exists u; reflexivity.
Qed.

(** X16.  [download_iso] fails exactly when source selection fails, with
    the same error ("Selected source has no URL" never occurs); otherwise
    the download gets the id "<distro>_<uuid prefix>" and a request for
    the selected source's URL with its templates resolved, written to the
    ISO's file name joined to the output directory (an absolute file name
    replaces the directory), with the ISO's checksum only when checksums
    are verified and the ISO has one, and resuming as the options say.
    The checksum type is matched case-sensitively: any name other than
    "md5", "sha1" and "sha512" (so also "SHA512" or none) gives SHA-256. *)
Theorem download_iso_request (uuid_prefix : string) (iso : Iso.IsoInfo)
  (options : Sources.DownloadOptions) :
  (forall e, Sources.select_best_source (Iso.download_sources iso) options = Err e ->
     download_iso uuid_prefix iso options = Err e) /\
  (forall s, Sources.select_best_source (Iso.download_sources iso) options = Ok s ->
     exists u resolved, Sources.url s = Some u /\ resolve_url_template u iso = Ok resolved /\
       download_iso uuid_prefix iso options =
         Ok ((Iso.distro iso ++ "_" ++ uuid_prefix)%string,
             mkDownloadRequest resolved
               (path_join (Sources.output_directory options) (Iso.filename iso))
               (if Sources.verify_checksums options then Iso.checksum iso else None)
               (if Sources.verify_checksums options
                then option_map (fun _ => checksum_type_of (Iso.checksum_type iso))
                       (Iso.checksum iso)
                else None)
               (Some "isod/0.1.0"%string) (Sources.resume_downloads options))) /\
  (forall rest, path_join (Sources.output_directory options) (String "/" rest) =
                String "/" rest) /\
  (forall t, t <> "md5"%string -> t <> "sha1"%string -> t <> "sha512"%string ->
     checksum_type_of (Some t) = Sha256) /\
  checksum_type_of None = Sha256.
Proof.
  split.
  { intros e He. unfold download_iso. rewrite He. reflexivity. }
  split.
  { intros s Hs. destruct (select_best_source_has_url _ _ _ Hs) as [u Hu].
    exists u. eexists. split; [exact Hu|]. split; [reflexivity|].
    unfold download_iso. rewrite Hs. unfold get_url. rewrite Hu. cbv zeta.
    destruct (Sources.verify_checksums options), (Iso.checksum iso),
      (Sources.resume_downloads options); reflexivity. }
  split; [reflexivity|].
  split; [|reflexivity].
  intros t H1 H2 H3. unfold checksum_type_of.
  destruct (String.eqb t "md5") eqn:E1; [apply String.eqb_eq in E1; contradiction|].
  destruct (String.eqb t "sha1") eqn:E2; [apply String.eqb_eq in E2; contradiction|].
  destruct (String.eqb t "sha256"); [reflexivity|].
  destruct (String.eqb t "sha512") eqn:E4; [apply String.eqb_eq in E4; contradiction|].
  reflexivity.
Qed.

End ManagerFacts.

(* ------------------------------------------------------------------ *)
(** ** Source collections *)

Module CollectionFacts.
Import Sources Collection StdFacts MaxByFacts.

(** The collections the public API builds. *)
Inductive built : SourceCollection -> Prop :=
| built_new : built new
| built_from_sources l : built (from_sources l)
| built_add_source c s : built c -> built (add_source c s)
| built_remove_sources c p : built c -> built (remove_sources c p).

Definition score_desc (a b : DownloadSource) : Prop :=
  (get_selection_score b <= get_selection_score a)%N.

Lemma sort_desc (l : list DownloadSource) : StronglySorted score_desc (sort_by source_cmp l).
Proof.
  apply Sorted_StronglySorted; [unfold score_desc; intros x y z; lia|].
  apply (sorted_impl (not_gt source_cmp)).
  - unfold not_gt, source_cmp, score_desc. intros a b H. apply N.compare_le_iff, H.
  - apply sort_by_sorted. intros x y. apply N.compare_antisym.
Qed.

Lemma strongly_sorted_filter {A : Type} (R : A -> A -> Prop) (f : A -> bool) (l : list A) :
  StronglySorted R l -> StronglySorted R (filter f l).
Proof.
  induction l as [|x xs IH]; intro H; [constructor|].
  apply StronglySorted_inv in H as [Hxs Hall]. simpl. destruct (f x); [|auto].
  constructor; [auto|]. rewrite Forall_forall in *. intros y Hy.
  apply filter_In in Hy as [Hy _]. auto.
Qed.

Lemma built_sorted (c : SourceCollection) : built c -> StronglySorted score_desc (sources c).
Proof.
  induction 1 as [| l | c s Hc IH | c p Hc IH].
  - constructor.
  - apply sort_desc.
  - unfold add_source. destruct (is_usable s); [apply sort_desc | exact IH].
  - apply strongly_sorted_filter, IH.
Qed.

(** X17.  Every collection built with [new], [from_sources],
    [add_source] and [remove_sources] is sorted by selection score, best
    first; so [get_best_source] returns [None] only for an empty
    collection and otherwise a source of the collection with the highest
    score. *)
Theorem source_collection_sorted (c : SourceCollection) :
  built c ->
  StronglySorted score_desc (sources c) /\
  (get_best_source c = None <-> sources c = []) /\
  (forall s, get_best_source c = Some s ->
     In s (sources c) /\
     forall s', In s' (sources c) -> (get_selection_score s' <= get_selection_score s)%N).
Proof.
  intro Hb. pose proof (built_sorted c Hb) as Hs.
  split; [exact Hs|].
  unfold get_best_source. destruct (sources c) as [|x xs] eqn:E.
  - split; [split; reflexivity | discriminate].
  - split; [split; discriminate|].
    intros s H. injection H as <-. split; [left; reflexivity|].
    apply StronglySorted_inv in Hs as [_ Hall]. rewrite Forall_forall in Hall.
    intros s' [<-|Hs']; [lia | apply Hall, Hs'].
Qed.

(** X18.  What the operations keep: [add_source] ignores an unusable
    source and otherwise adds it; [from_sources] keeps every source of
    its list, unusable ones included; [remove_sources] keeps exactly the
    sources the predicate rejects. *)
Theorem source_collection_members (c : SourceCollection) (s : DownloadSource)
  (l : list DownloadSource) (p : DownloadSource -> bool) :
  (is_usable s = false -> add_source c s = c) /\
  (is_usable s = true -> Permutation (sources (add_source c s)) (s :: sources c)) /\
  Permutation (sources (from_sources l)) l /\
  (forall x, In x (sources (remove_sources c p)) <-> In x (sources c) /\ p x = false).
Proof.
  split; [intro H; unfold add_source; rewrite H; reflexivity|].
  split.
  { intro H. unfold add_source. rewrite H. simpl.
    eapply perm_trans; [apply sort_by_perm|].
    apply Permutation_sym, Permutation_cons_append. }
  split; [apply sort_by_perm|].
  intro x. unfold remove_sources. simpl. rewrite filter_In, negb_true_iff. reflexivity.
Qed.

Lemma source_type_eqb_refl (t : SourceType) : source_type_eqb t t = true.
Proof. destruct t; reflexivity. Qed.

Lemma hd_error_in {A : Type} (l : list A) (x : A) : hd_error l = Some x -> In x l.
Proof. destruct l; simpl; [discriminate | intro H; injection H as <-; left; reflexivity]. Qed.

Lemma filter_map_id_in {A : Type} (os : list (option A)) (b : A) :
  In b (filter_map (fun o => o) os) -> In (Some b) os.
Proof.
  induction os as [|[x|] os IH]; simpl; [contradiction| |].
  - intros [<-|H]; [left; reflexivity | right; auto].
  - intro H; right; auto.
Qed.

Lemma candidates_in (c : SourceCollection) (b : DownloadSource) :
  In b (filter_map (fun o => o)
          [direct (get_best_sources_by_method c); mirror (get_best_sources_by_method c);
           torrent (get_best_sources_by_method c); magnet (get_best_sources_by_method c)]) ->
  In b (sources c).
Proof.
  intro H. apply filter_map_id_in in H.
  unfold get_best_sources_by_method, get_sources_by_type in H.
  cbn [direct mirror torrent magnet] in H.
  destruct H as [H|[H|[H|[H|[]]]]]; apply hd_error_in, filter_In in H; apply H.
Qed.

Lemma n_compare_not_gt_trans (f : DownloadSource -> N) (x y z : DownloadSource) :
  N.compare (f x) (f y) <> Gt -> N.compare (f y) (f z) <> Gt -> N.compare (f x) (f z) <> Gt.
Proof. rewrite !N.compare_le_iff. lia. Qed.

(** X19.  For a built collection, the best source per method agrees with
    the collection: [get_overall_best] is [None] only for an empty
    collection and otherwise has the score of [get_best_source]; the pick
    of each method has the highest score among the sources of its type;
    and [get_ordered_sources] lists the picks best first. *)
Theorem best_sources_by_method_spec (c : SourceCollection) :
  built c ->
  let b := get_best_sources_by_method c in
  (get_overall_best b = None <-> sources c = []) /\
  (forall s o, get_best_source c = Some s -> get_overall_best b = Some o ->
     get_selection_score o = get_selection_score s) /\
  (forall t x, hd_error (get_sources_by_type c t) = Some x ->
     source_type_eqb (source_type x) t = true /\
     forall y, In y (sources c) -> source_type_eqb (source_type y) t = true ->
       (get_selection_score y <= get_selection_score x)%N) /\
  Sorted score_desc (get_ordered_sources b).
Proof.
  intros Hb b. pose proof (built_sorted c Hb) as Hs.
  set (cands := filter_map (fun o => o) [direct b; mirror b; torrent b; magnet b]).
  assert (Hhead : forall x xs, sources c = x :: xs -> In x cands).
  { intros x xs E. unfold cands, b, get_best_sources_by_method, get_sources_by_type.
    cbn [direct mirror torrent magnet]. rewrite E. cbn [filter].
    destruct (source_type x) eqn:Et; cbn [source_type_eqb hd_error];
      repeat match goal with
             | |- context [hd_error ?l] => destruct (hd_error l)
             end; simpl; auto. }
  split.
  { unfold get_overall_best. fold cands. rewrite max_by_none. split.
    - intro E. destruct (sources c) as [|x xs] eqn:Ec; [reflexivity|].
      pose proof (Hhead x xs eq_refl) as H. rewrite E in H. contradiction.
    - intro E. unfold cands, b, get_best_sources_by_method, get_sources_by_type.
      cbn [direct mirror torrent magnet]. rewrite E. reflexivity. }
  split.
  { intros s o Hbest Ho. unfold get_overall_best in Ho. fold cands in Ho.
    unfold get_best_source in Hbest.
    destruct (sources c) as [|x xs] eqn:Ec; [discriminate|]. injection Hbest as <-.
    pose proof (max_by_max _ (fun p q => N.compare_antisym (get_selection_score p) (get_selection_score q))
                  (n_compare_not_gt_trans get_selection_score) _ _ Ho x (Hhead x xs eq_refl)) as H1.
    assert (H1' : (get_selection_score x <= get_selection_score o)%N)
      by (apply N.compare_le_iff; exact H1).
    pose proof (max_by_in _ _ _ Ho) as Hin. apply candidates_in in Hin. rewrite Ec in Hin.
    apply StronglySorted_inv in Hs as [_ Hall]. rewrite Forall_forall in Hall.
    destruct Hin as [<-|Hin]; [reflexivity|]. specialize (Hall o Hin). unfold score_desc in Hall.
    lia. }
  split.
  { intros t x Hx. unfold get_sources_by_type in Hx.
    pose proof (strongly_sorted_filter _ (fun s => source_type_eqb (source_type s) t) _ Hs) as Hf.
    destruct (filter _ (sources c)) as [|z zs] eqn:E; [discriminate|].
    injection Hx as ->.
    assert (In x (filter (fun s => source_type_eqb (source_type s) t) (sources c))) as Hin
      by (rewrite E; left; reflexivity).
    apply filter_In in Hin as [_ Ht]. split; [exact Ht|].
    intros y Hy Hyt.
    assert (In y (x :: zs)) as Hy' by (rewrite <- E; apply filter_In; auto).
    apply StronglySorted_inv in Hf as [_ Hall]. rewrite Forall_forall in Hall.
    destruct Hy' as [<-|Hy']; [lia | apply Hall, Hy']. }
  unfold get_ordered_sources.
  apply (sorted_impl (not_gt (fun x y => N.compare (get_selection_score y) (get_selection_score x)))).
  - unfold not_gt, score_desc. intros p q H. apply N.compare_le_iff, H.
  - apply sort_by_sorted. intros x y. apply N.compare_antisym.
Qed.

End CollectionFacts.

(* ------------------------------------------------------------------ *)
(** ** More of the download engine *)

Module EngineMore.
Import Checksum Engine.

Section Facts.
Variable FS : Type.
Variable HashState : Type.
Variable hash_new : ChecksumType -> HashState.
Variable hash_update : HashState -> list Byte.byte -> HashState.
Variable hash_finalize_hex : HashState -> string.
Variable open_file : FS -> string -> result (list ReadOutcome).
Variable engine : DownloadEngine.
Variable task : DownloadTask.

Lemma retry_loop_same_attempts
  (da1 da2 : nat -> FS -> list ProgressReport * result N * FS) (fuel a : nat) (fs : FS) :
  (forall k fs, a + 1 <= k <= Nat.max 1 (max_retries engine) -> da1 k fs = da2 k fs) ->
  a < Nat.max 1 (max_retries engine) ->
  retry_loop FS da1 engine task fuel a fs = retry_loop FS da2 engine task fuel a fs.
Proof.
  revert a fs. induction fuel as [|fuel IH]; intros a fs Hsame Ha; simpl;
    rewrite (Hsame (a + 1) fs) by lia;
    destruct (da2 (a + 1) fs) as [[reps [r|e]] fs'];
    try reflexivity;
    destruct (max_retries engine <=? a + 1) eqn:Hle; try reflexivity.
  apply Nat.leb_gt in Hle.
  rewrite (IH (a + 1) fs'); [reflexivity | intros k fs'' Hk; apply Hsame; lia | lia].
Qed.

(** X20.  [download] asks for at most [max(1, max_retries)] attempts:
    two networks that behave alike on the attempts 1 .. [max(1,
    max_retries)] give the same events, result and file system, whatever
    the later attempts would do. *)
Theorem download_uses_first_attempts
  (da1 da2 : nat -> FS -> list ProgressReport * result N * FS) (fs0 : FS) :
  (forall k fs, 1 <= k <= Nat.max 1 (max_retries engine) -> da1 k fs = da2 k fs) ->
  download FS da1 HashState hash_new hash_update hash_finalize_hex open_file engine task fs0 =
  download FS da2 HashState hash_new hash_update hash_finalize_hex open_file engine task fs0.
Proof.
  intro Hsame. unfold download.
  rewrite (retry_loop_same_attempts da1 da2 (max_retries engine) 0 fs0);
    [reflexivity | exact Hsame | lia].
Qed.

(** X22.  When the transfer succeeds but the checksum verification itself
    fails (the file cannot be opened or read), [download] sends
    [VerifyingChecksum], an [Error] event carrying the verification error,
    and [Completed] with [checksum_verified = false]; the result is still
    a success, with no error message. *)
Theorem download_verification_error
  (download_attempt : nat -> FS -> list ProgressReport * result N * FS)
  (fs0 : FS) levs bytes fsl expected ct e :
  retry_loop FS download_attempt engine task (max_retries engine) 0 fs0 =
    (levs, Transferred bytes, fsl) ->
  expected_checksum (request task) = Some expected ->
  checksum_type (request task) = Some ct ->
  verify_file HashState hash_new hash_update hash_finalize_hex (open_file fsl)
    (output_path (request task)) expected ct = Err e ->
  download FS download_attempt HashState hash_new hash_update hash_finalize_hex open_file
    engine task fs0 =
  (Started (task_id task) (url (request task)) (output_path (request task))
     :: levs ++ [VerifyingChecksum (task_id task);
                 Error (task_id task) ("Checksum verification failed: " ++ e);
                 Completed (task_id task) bytes false],
   mkDownloadResult true bytes None false, fsl).
Proof.
  intros Hloop He Hc Hv. unfold download. rewrite Hloop.
  unfold on_transferred. rewrite He, Hc, Hv. reflexivity.
Qed.

End Facts.

End EngineMore.

Module AttemptMore.
Import Engine Attempt.

Section Facts.
Variable path_exists : string -> bool.
Variable metadata_len : string -> result N.
Variable send : string -> option string -> option N -> result Response.
Variable status_display : N -> string.
Variable open_append : string -> result unit.
Variable seek_end : result unit.
Variable create_parent_dirs : string -> result unit.
Variable create_file : string -> result unit.
Variable write_all : list Byte.byte -> result unit.
Variable flush : result unit.

Lemma stream_chunks_all_written (d : N) (chunks : list (list Byte.byte)) :
  (forall c, In c chunks -> write_all c = Ok tt) ->
  stream_chunks write_all d (map Ok chunks) = Ok (d + N.of_nat (List.length (List.concat chunks)))%N.
Proof.
  revert d. induction chunks as [|c cs IH]; intros d Hw; simpl; [f_equal; lia|].
  rewrite (Hw c (or_introl eq_refl)).
  rewrite IH by (intros c' Hc'; apply Hw; right; exact Hc').
  f_equal. rewrite length_app, Nat2N.inj_add. lia.
Qed.

(** X23.  A resumed attempt on an existing file of [len > 0] bytes asks
    for the rest with a range, appends whatever 2xx body comes back and
    reports [len] plus every byte received: a server that ignores the
    range and answers 200 with the whole file has it appended after the
    existing bytes and counted on top of them. *)
Theorem attempt_resume_counts (req : DownloadRequest) (len : N) (response : Response)
  (chunks : list (list Byte.byte)) :
  resume req = true ->
  path_exists (output_path req) = true ->
  metadata_len (output_path req) = Ok len ->
  (0 < len)%N ->
  send (url req) (user_agent req) (Some len) = Ok response ->
  is_success (status response) = true ->
  body response = map Ok chunks ->
  open_append (output_path req) = Ok tt ->
  seek_end = Ok tt ->
  (forall c, In c chunks -> write_all c = Ok tt) ->
  flush = Ok tt ->
  download_attempt path_exists metadata_len send status_display open_append seek_end
    create_parent_dirs create_file write_all flush req = Ok (len + N.of_nat (List.length (List.concat chunks)))%N.
Proof.
  intros Hr Hp Hm Hlen Hs Hok Hb Ho Hsk Hw Hf.
  unfold download_attempt, resume_point. rewrite Hr, Hp. cbn [andb]. rewrite Hm.
  assert ((0 <? len)%N = true) as Hlt by (apply N.ltb_lt; exact Hlen).
  rewrite Hlt, Hs, Hok. cbn [negb andb].
  unfold receive_body. rewrite Hlt, Ho, Hsk, Hb, stream_chunks_all_written by exact Hw.
  rewrite Hf. reflexivity.
Qed.

End Facts.

End AttemptMore.

Module ChecksumMore.
Import Checksum.

Section Facts.
Variable HashState : Type.
Variable hash_new : ChecksumType -> HashState.
Variable hash_update : HashState -> list Byte.byte -> HashState.
Variable hash_finalize_hex : HashState -> string.
Variable open_file : string -> result (list ReadOutcome).

Hypothesis hash_update_app :
  forall h a b, hash_update h (a ++ b) = hash_update (hash_update h a) b.
Hypothesis hash_update_nil : forall h, hash_update h [] = h.

Lemma hash_loop_chunks (h : HashState) (chunks : list (list Byte.byte))
  (tail : list ReadOutcome) :
  Forall (fun c => c <> []) chunks ->
  (tail = [] \/ exists rest, tail = ReadBytes [] :: rest) ->
  hash_loop HashState hash_update h (map ReadBytes chunks ++ tail) =
    Ok (hash_update h (List.concat chunks)).
Proof.
  intros Hne Htail. revert h. induction Hne as [|c cs Hc Hcs IH]; intro h; simpl.
  - rewrite hash_update_nil. destruct Htail as [->|[rest ->]]; reflexivity.
  - destruct c as [|b c]; [contradiction|]. rewrite IH, hash_update_app. reflexivity.
Qed.

End Facts.

(** X24.  Given a hash whose update is a homomorphism on byte strings (as
    for every streaming digest), [calculate_checksum] digests the bytes of
    the file however the reads split them, up to the first read of 0
    bytes; what the file would return after it, even an error, is never
    read. *)
Theorem calculate_checksum_chunking (HashState : Type) (hash_new : ChecksumType -> HashState)
  (hash_update : HashState -> list Byte.byte -> HashState)
  (hash_finalize_hex : HashState -> string) (open_file : string -> result (list ReadOutcome))
  (file_path : string) (checksum_type : ChecksumType) (chunks : list (list Byte.byte))
  (tail : list ReadOutcome) :
  (forall h a b, hash_update h (a ++ b) = hash_update (hash_update h a) b) ->
  (forall h, hash_update h [] = h) ->
  open_file file_path = Ok (map ReadBytes chunks ++ tail) ->
  Forall (fun c => c <> []) chunks ->
  (tail = [] \/ exists rest, tail = ReadBytes [] :: rest) ->
  calculate_checksum HashState hash_new hash_update hash_finalize_hex open_file file_path
    checksum_type =
  Ok (hash_finalize_hex (hash_update (hash_new checksum_type) (List.concat chunks))).
Proof.
  intros Happ Hnil Hopen Hne Htail. unfold calculate_checksum. rewrite Hopen.
  rewrite (hash_loop_chunks HashState hash_update Happ Hnil) by assumption. reflexivity.
Qed.

End ChecksumMore.

(* ------------------------------------------------------------------ *)
(** ** Runs of the registry, the checksum files, the collections and the
    engine on concrete inputs *)

Module ExtraRuns.
Local Open Scope string_scope.
Local Open Scope list_scope.

(** A registry with Ubuntu alone, its detector returning 24.04 LTS and
    24.10. *)
Definition ubuntu_definition : Registry.DistroDefinition :=
  Registry.mkDistroDefinition "ubuntu" "Ubuntu" "Ubuntu Linux" "https://ubuntu.com"
    ["amd64"; "arm64"] ["desktop"; "server"] "ubuntu-{version}-{variant}-{arch}.iso"
    (Some "desktop") ["https://releases.ubuntu.com/{version}/SHA256SUMS"].

Definition ubuntu_entry : RegistryOps.DistroEntry :=
  RegistryOps.mkDistroEntry ubuntu_definition
    (Ok [Versions.new "24.04" Versions.LTS; Versions.new "24.10" Versions.Stable])
    [Sources.direct "https://releases.ubuntu.com/{version}/{filename}" Sources.High].

Definition ubuntu_registry : RegistryOps.IsoRegistry :=
  RegistryOps.mkIsoRegistry [("ubuntu", ubuntu_entry)] [].

Definition ubuntu_iso : Iso.IsoInfo :=
  Iso.mkIsoInfo "ubuntu" "24.04" "amd64" (Some "desktop") "ubuntu-24.04-desktop-amd64.iso"
    [Sources.direct "https://releases.ubuntu.com/24.04/ubuntu-24.04-desktop-amd64.iso"
       Sources.High]
    None (Some "sha256") None None Versions.LTS.

(** A Rust [&str] as its sequence of characters. *)
Definition txt (s : string) : ChecksumFile.text :=
  map (fun c => N.of_nat (nat_of_ascii c)) (list_ascii_of_string s).

Definition sums_file : ChecksumFile.text :=
  txt "0123ABCD  ubuntu-24.04-desktop-amd64.iso
89abcdef  ubuntu-24.04-live-server-amd64.iso
".

(** Sources of every kind. *)
Definition mirror_eu : Sources.DownloadSource :=
  Sources.mkDownloadSource Sources.Mirror Sources.Medium (Some "https://eu.example.org/a.iso")
    None [] (Some "eu") None true (Some 8%N).
Definition torrent_src : Sources.DownloadSource :=
  Sources.torrent "https://example.org/a.iso.torrent" Sources.Preferred.
Definition direct_src : Sources.DownloadSource :=
  Sources.direct "https://example.org/a.iso" Sources.High.
Definition broken_magnet : Sources.DownloadSource :=
  Sources.mkDownloadSource Sources.Magnet Sources.Preferred None None [] None None false None.

Definition demo_collection : Collection.SourceCollection :=
  Collection.add_source (Collection.from_sources [direct_src; mirror_eu]) torrent_src.

(** Attempts after the third succeed. *)
Definition attempt_late_ok (k : nat) (size : N) : list Engine.ProgressReport * result N * N :=
  if Nat.leb k 3 then EngineRuns.attempt_always_fails k size else ([], Ok 4096%N, 4096%N).


(** A file system where the downloaded file cannot be opened. *)
Definition missing_file (_ : N) (_ : string) : result (list Checksum.ReadOutcome) :=
  Err "No such file or directory".

(** A server that ignores the range and sends the whole three bytes. *)
Definition exists_yes (_ : string) : bool := true.
Definition len_100 (_ : string) : result N := Ok 100%N.
Definition full_response : Attempt.Response :=
  Attempt.mkResponse 200 None (Some 3%N) [Ok [Byte.x01; Byte.x02]; Ok [Byte.x03]].
Definition send_full (_ : string) (_ : option string) (_ : option N) : result Attempt.Response :=
  Ok full_response.

(** A file read in two chunks, then a read of 0 bytes, then an error that
    is never reached. *)
Definition chunked_file (_ : string) : result (list Checksum.ReadOutcome) :=
  Ok [Checksum.ReadBytes [Byte.x01]; Checksum.ReadBytes [Byte.x02; Byte.x03];
      Checksum.ReadBytes []; Checksum.ReadError "late"].

Lemma get_iso_info_ok_witness :
  RegistryOps.get_iso_info ubuntu_registry "ubuntu" None None None = Ok ubuntu_iso /\
  exists entry, RegistryOps.get_distro ubuntu_registry "ubuntu" = Some entry /\
    Iso.distro ubuntu_iso = "ubuntu" /\
    (forall v, @None string = Some v -> Iso.version ubuntu_iso = v) /\
    (@None string = None -> exists vi,
       RegistryOps.get_latest_version ubuntu_registry "ubuntu" = Ok vi /\
       Iso.version ubuntu_iso = Versions.version vi /\
       Iso.release_date ubuntu_iso = Versions.release_date vi /\
       Iso.release_type ubuntu_iso = Versions.release_type vi) /\
    Iso.architecture ubuntu_iso =
      hd "amd64" (Registry.supported_architectures (RegistryOps.definition entry)) /\
    In (Iso.architecture ubuntu_iso)
      (Registry.supported_architectures (RegistryOps.definition entry)) /\
    Iso.variant ubuntu_iso = Registry.default_variant (RegistryOps.definition entry) /\
    (forall v, Iso.variant ubuntu_iso = Some v ->
       In v (Registry.supported_variants (RegistryOps.definition entry))) /\
    Registry.generate_filename (RegistryOps.definition entry) (Iso.version ubuntu_iso)
      (Iso.architecture ubuntu_iso) (Iso.variant ubuntu_iso) = Ok (Iso.filename ubuntu_iso) /\
    Iso.download_sources ubuntu_iso =
      map (RegistryOps.resolve_source (Iso.version ubuntu_iso) (Iso.architecture ubuntu_iso)
             (Iso.variant ubuntu_iso) (Iso.filename ubuntu_iso))
          (RegistryOps.download_sources entry) /\
    Iso.checksum ubuntu_iso = None /\ Iso.checksum_type ubuntu_iso = Some "sha256" /\
    Iso.size_bytes ubuntu_iso = None.
Proof.
  split; [vm_compute; reflexivity|].
  apply (RegistryOpsFacts.get_iso_info_ok ubuntu_registry "ubuntu" None None None ubuntu_iso).
  vm_compute. reflexivity.
Defined.

Lemma parse_checksum_file_lower_hex_witness :
  ChecksumFile.parse_checksum_file sums_file (txt "ubuntu-24.04-desktop-amd64.iso") =
    Ok (txt "0123abcd") /\
  Forall (fun x => (48 <= x <= 57 \/ 97 <= x <= 102)%N) (txt "0123abcd").
Proof.
  split; [vm_compute; reflexivity|].
  apply (ChecksumFileFacts.parse_checksum_file_lower_hex sums_file
           (txt "ubuntu-24.04-desktop-amd64.iso")).
  vm_compute. reflexivity.
Defined.

Lemma parse_checksum_file_first_line_witness :
  txt "0123ABCD" <> [] /\
  forallb ChecksumFile.is_ascii_hexdigit (txt "0123ABCD") = true /\
  txt "images/ubuntu.iso" <> [] /\
  forallb (fun c => negb (ChecksumFile.is_whitespace c)) (txt "images/ubuntu.iso") = true /\
  hd 0%N (txt "images/ubuntu.iso") <> 42%N /\
  ChecksumFile.ends_with (txt "images/ubuntu.iso") (txt "ubuntu.iso") = true /\
  ChecksumFile.parse_checksum_file
    (txt "0123ABCD" ++ 32%N :: txt "images/ubuntu.iso" ++ 10%N :: txt "not a checksum line")
    (txt "ubuntu.iso") =
  Ok (ChecksumFile.hex_to_lowercase (txt "0123ABCD")).
Proof.
  assert (H1 : txt "0123ABCD" <> []) by discriminate.
  assert (H2 : forallb ChecksumFile.is_ascii_hexdigit (txt "0123ABCD") = true)
    by (vm_compute; reflexivity).
  assert (H3 : txt "images/ubuntu.iso" <> []) by discriminate.
  assert (H4 : forallb (fun c => negb (ChecksumFile.is_whitespace c))
                 (txt "images/ubuntu.iso") = true) by (vm_compute; reflexivity).
  assert (H5 : hd 0%N (txt "images/ubuntu.iso") <> 42%N) by discriminate.
  assert (H6 : ChecksumFile.ends_with (txt "images/ubuntu.iso") (txt "ubuntu.iso") = true)
    by (vm_compute; reflexivity).
  repeat (split; [assumption|]).
  apply (ChecksumFileFacts.parse_checksum_file_first_line (txt "0123ABCD")
           (txt "images/ubuntu.iso") (txt "ubuntu.iso") (txt "not a checksum line"));
    assumption.
Defined.

Lemma parse_checksum_file_colon_empty_witness :
  forallb (fun c => negb (ChecksumFile.is_whitespace c) && negb (c =? 58)%N)
    (txt "ubuntu.iso") = true /\
  hd 0%N (txt "ubuntu.iso") <> 35%N /\
  ChecksumFile.ends_with (txt "ubuntu.iso") (txt "ubuntu.iso") = true /\
  ChecksumFile.parse_checksum_file (txt "ubuntu.iso" ++ 58%N :: 10%N :: txt "0123abcd")
    (txt "ubuntu.iso") = Ok [].
Proof.
  assert (H1 : forallb (fun c => negb (ChecksumFile.is_whitespace c) && negb (c =? 58)%N)
                 (txt "ubuntu.iso") = true) by (vm_compute; reflexivity).
  assert (H2 : hd 0%N (txt "ubuntu.iso") <> 35%N) by discriminate.
  assert (H3 : ChecksumFile.ends_with (txt "ubuntu.iso") (txt "ubuntu.iso") = true)
    by (vm_compute; reflexivity).
  repeat (split; [assumption|]).
  apply (ChecksumFileFacts.parse_checksum_file_colon_empty (txt "ubuntu.iso")
           (txt "ubuntu.iso") (txt "0123abcd")); assumption.
Defined.

Lemma source_collection_sorted_witness :
  CollectionFacts.built demo_collection /\
  StronglySorted CollectionFacts.score_desc (Collection.sources demo_collection) /\
  (Collection.get_best_source demo_collection = None <->
   Collection.sources demo_collection = []) /\
  (forall s, Collection.get_best_source demo_collection = Some s ->
     In s (Collection.sources demo_collection) /\
     forall s', In s' (Collection.sources demo_collection) ->
       (Sources.get_selection_score s' <= Sources.get_selection_score s)%N).
Proof.
  assert (Hb : CollectionFacts.built demo_collection)
    by (repeat constructor).
  split; [exact Hb|].
  apply (CollectionFacts.source_collection_sorted demo_collection Hb).
Defined.

Lemma best_sources_by_method_spec_witness :
  CollectionFacts.built demo_collection /\
  let b := Collection.get_best_sources_by_method demo_collection in
  (Collection.get_overall_best b = None <-> Collection.sources demo_collection = []) /\
  (forall s o, Collection.get_best_source demo_collection = Some s ->
     Collection.get_overall_best b = Some o ->
     Sources.get_selection_score o = Sources.get_selection_score s) /\
  (forall t x, hd_error (Collection.get_sources_by_type demo_collection t) = Some x ->
     Collection.source_type_eqb (Sources.source_type x) t = true /\
     forall y, In y (Collection.sources demo_collection) ->
       Collection.source_type_eqb (Sources.source_type y) t = true ->
       (Sources.get_selection_score y <= Sources.get_selection_score x)%N) /\
  Sorted CollectionFacts.score_desc (Collection.get_ordered_sources b).
Proof.
  assert (Hb : CollectionFacts.built demo_collection)
    by (repeat constructor).
  split; [exact Hb|].
  apply (CollectionFacts.best_sources_by_method_spec demo_collection Hb).
Defined.

Lemma download_uses_first_attempts_witness :
  (forall k fs, 1 <= k <= Nat.max 1 (Engine.max_retries Engine.engine_new) ->
     EngineRuns.attempt_always_fails k fs = attempt_late_ok k fs) /\
  Engine.download N EngineRuns.attempt_always_fails (list Byte.byte) EngineRuns.demo_hash_new
    EngineRuns.demo_hash_update EngineRuns.demo_hash_finalize EngineRuns.demo_open_file
    Engine.engine_new EngineRuns.ubuntu_task 0%N =
  Engine.download N attempt_late_ok (list Byte.byte) EngineRuns.demo_hash_new
    EngineRuns.demo_hash_update EngineRuns.demo_hash_finalize EngineRuns.demo_open_file
    Engine.engine_new EngineRuns.ubuntu_task 0%N.
Proof.
  assert (Hsame : forall k fs, 1 <= k <= Nat.max 1 (Engine.max_retries Engine.engine_new) ->
     EngineRuns.attempt_always_fails k fs = attempt_late_ok k fs).
  { intros k fs Hk. simpl in Hk. unfold attempt_late_ok.
    replace (Nat.leb k 3) with true by (symmetry; apply Nat.leb_le; lia). reflexivity. }
  split; [exact Hsame|].
  apply (EngineMore.download_uses_first_attempts N (list Byte.byte) EngineRuns.demo_hash_new
           EngineRuns.demo_hash_update EngineRuns.demo_hash_finalize EngineRuns.demo_open_file
           Engine.engine_new EngineRuns.ubuntu_task EngineRuns.attempt_always_fails
           attempt_late_ok 0%N Hsame).
Defined.

Lemma download_verification_error_witness :
  Engine.retry_loop N EngineRuns.attempt_second_ok Engine.engine_new EngineRuns.ubuntu_task
    (Engine.max_retries Engine.engine_new) 0 0%N =
    ([Engine.Retry "ubuntu_1a2b3c4d" 1 3 2; Engine.Progress "ubuntu_1a2b3c4d" 4096 4096 100 2048],
     Engine.Transferred 4096, 4096%N) /\
  Engine.expected_checksum EngineRuns.ubuntu_request = Some "ABCDEF0123" /\
  Engine.checksum_type EngineRuns.ubuntu_request = Some Checksum.Sha256 /\
  Checksum.verify_file (list Byte.byte) EngineRuns.demo_hash_new EngineRuns.demo_hash_update
    EngineRuns.demo_hash_finalize (missing_file 4096%N)
    (Engine.output_path EngineRuns.ubuntu_request) "ABCDEF0123" Checksum.Sha256 =
    Err ("Failed to open file: " ++ Checksum.path_debug "/tmp/ubuntu-22.04-desktop-amd64.iso") /\
  Engine.download N EngineRuns.attempt_second_ok (list Byte.byte) EngineRuns.demo_hash_new
    EngineRuns.demo_hash_update EngineRuns.demo_hash_finalize missing_file
    Engine.engine_new EngineRuns.ubuntu_task 0%N =
  (Engine.Started "ubuntu_1a2b3c4d" (Engine.url EngineRuns.ubuntu_request)
     (Engine.output_path EngineRuns.ubuntu_request)
     :: [Engine.Retry "ubuntu_1a2b3c4d" 1 3 2;
         Engine.Progress "ubuntu_1a2b3c4d" 4096 4096 100 2048]
     ++ [Engine.VerifyingChecksum "ubuntu_1a2b3c4d";
         Engine.Error "ubuntu_1a2b3c4d"
           ("Checksum verification failed: " ++
            "Failed to open file: " ++ Checksum.path_debug "/tmp/ubuntu-22.04-desktop-amd64.iso");
         Engine.Completed "ubuntu_1a2b3c4d" 4096 false],
   Engine.mkDownloadResult true 4096 None false, 4096%N).
Proof.
  repeat (split; [reflexivity|]).
  apply (EngineMore.download_verification_error N (list Byte.byte) EngineRuns.demo_hash_new
           EngineRuns.demo_hash_update EngineRuns.demo_hash_finalize missing_file
           Engine.engine_new EngineRuns.ubuntu_task EngineRuns.attempt_second_ok 0%N
           [Engine.Retry "ubuntu_1a2b3c4d" 1 3 2;
            Engine.Progress "ubuntu_1a2b3c4d" 4096 4096 100 2048] 4096%N 4096%N "ABCDEF0123"
           Checksum.Sha256 ("Failed to open file: " ++ Checksum.path_debug "/tmp/ubuntu-22.04-desktop-amd64.iso"));
    reflexivity.
Defined.

Lemma attempt_resume_counts_witness :
  Engine.resume AttemptFacts.iso_request = true /\
  exists_yes (Engine.output_path AttemptFacts.iso_request) = true /\
  len_100 (Engine.output_path AttemptFacts.iso_request) = Ok 100%N /\
  (0 < 100)%N /\
  send_full (Engine.url AttemptFacts.iso_request) (Engine.user_agent AttemptFacts.iso_request)
    (Some 100%N) = Ok full_response /\
  Attempt.is_success (Attempt.status full_response) = true /\
  Attempt.body full_response = map Ok [[Byte.x01; Byte.x02]; [Byte.x03]] /\
  AttemptFacts.fs_ok (Engine.output_path AttemptFacts.iso_request) = Ok tt /\
  (Ok tt : result unit) = Ok tt /\
  (forall c, In c [[Byte.x01; Byte.x02]; [Byte.x03]] -> AttemptFacts.write_ok c = Ok tt) /\
  Attempt.download_attempt exists_yes len_100 send_full AttemptFacts.status_text
    AttemptFacts.fs_ok (Ok tt) AttemptFacts.fs_ok AttemptFacts.fs_ok AttemptFacts.write_ok (Ok tt)
    AttemptFacts.iso_request = Ok 103%N.
Proof.
  repeat (split; [first [reflexivity | lia | intros c _; reflexivity]|]).
  apply (AttemptMore.attempt_resume_counts exists_yes len_100 send_full AttemptFacts.status_text
           AttemptFacts.fs_ok (Ok tt) AttemptFacts.fs_ok AttemptFacts.fs_ok AttemptFacts.write_ok
           (Ok tt)
           AttemptFacts.iso_request 100%N full_response [[Byte.x01; Byte.x02]; [Byte.x03]]);
    solve [reflexivity | lia | intros c _; reflexivity].
Defined.

Lemma calculate_checksum_chunking_witness :
  (forall h a b, EngineRuns.demo_hash_update h (a ++ b) =
                 EngineRuns.demo_hash_update (EngineRuns.demo_hash_update h a) b) /\
  (forall h, EngineRuns.demo_hash_update h [] = h) /\
  chunked_file "/tmp/a.iso" =
    Ok (map Checksum.ReadBytes [[Byte.x01]; [Byte.x02; Byte.x03]] ++
        [Checksum.ReadBytes []; Checksum.ReadError "late"]) /\
  Forall (fun c => c <> []) [[Byte.x01]; [Byte.x02; Byte.x03]] /\
  Checksum.calculate_checksum (list Byte.byte) EngineRuns.demo_hash_new
    EngineRuns.demo_hash_update EngineRuns.demo_hash_finalize chunked_file "/tmp/a.iso"
    Checksum.Sha256 =
  Ok (EngineRuns.demo_hash_finalize
        (EngineRuns.demo_hash_update (EngineRuns.demo_hash_new Checksum.Sha256)
           (List.concat [[Byte.x01]; [Byte.x02; Byte.x03]]))).
Proof.
  assert (Happ : forall h a b, EngineRuns.demo_hash_update h (a ++ b) =
                 EngineRuns.demo_hash_update (EngineRuns.demo_hash_update h a) b)
    by (intros h a b; apply app_assoc).
  assert (Hnil : forall h, EngineRuns.demo_hash_update h [] = h)
    by (intro h; apply app_nil_r).
  split; [exact Happ|]. split; [exact Hnil|]. split; [reflexivity|].
  split; [repeat constructor; discriminate|].
  apply (ChecksumMore.calculate_checksum_chunking (list Byte.byte) EngineRuns.demo_hash_new
           EngineRuns.demo_hash_update EngineRuns.demo_hash_finalize chunked_file "/tmp/a.iso"
           Checksum.Sha256 [[Byte.x01]; [Byte.x02; Byte.x03]]
           [Checksum.ReadBytes []; Checksum.ReadError "late"] Happ Hnil);
    [reflexivity | repeat constructor; discriminate | right; eexists; reflexivity].
Defined.

End ExtraRuns.
